(** * Word Music Game: playback, throttling and guessing logic

    A shallow embedding of the class [WordMusicGame] ([src/WordMusicGame.ts])
    and of the [throttle] helper (taken from the single-file version of the
    program, the module [utils] not being among the sources), followed by the
    properties of the specification that concern them.

    Conventions of the embedding.
    - JS numbers that hold audio times and weights are IEEE binary64 values:
      they are modelled by Rocq's primitive floats, with [PrimFloat.add],
      [PrimFloat.ltb] and [PrimFloat.eqb] for [+], [<] and [===].
    - [Date.now()] is an integral number of milliseconds: [Z].
    - The instance fields of the class form the record [State]; every method
      is a function [State -> State].  What a method does to the outside
      world (session calls, toasts, Web Audio calls, timers) is appended, in
      program order, to the field [log].
    - Values the method reads from the platform ([audioContext.currentTime],
      [Date.now()], [Math.random()], the outcome of an awaited promise) are
      arguments of the function; one run of a handler reads one value of
      each clock.
    - An [async] method is cut at each [await] that lets other handlers run:
      one function for the part before the suspension, one for the
      continuation, which takes the state as it is when the method resumes.
    - The calls into the Web Audio API and the toast are taken not to throw.
    - A string is held as the bytes of its UTF-8 encoding (a lone surrogate
      as the three bytes of its code point); [trim] and [toUpperCase] work
      on the characters so encoded, with the white space of ECMAScript and
      the upper-case mapping of Unicode 14.0.
    - [console.log] calls and Lit's [requestUpdate] are not modelled. *)

From Stdlib Require Import Floats ZArith Ascii String List Lia.
From stdpp Require Import gmap strings list pretty.

Import ListNotations.
Set Warnings "-inexact-float".
Local Open Scope string_scope.
Local Open Scope list_scope.
Local Open Scope Z_scope.

(** ** Strings: the two JS string methods used by the guess handler

    A string of the program is held as the bytes of its UTF-8 encoding, which
    is also what a string literal of this file denotes.  Both methods work
    on the characters (code points) of the string: [chars] cuts the bytes
    into the encodings of the characters.  A byte that does not belong to a
    complete encoding, which the encoding of a string never holds, is kept
    as an item of its own; it is no white space and upper-casing leaves it
    as it is. *)

Module JsString.

Definition byte (n : N) : ascii := ascii_of_N n.

(** The encoding of the code point [cp]. *)
Definition utf8 (cp : N) : string :=
  (if cp <? 0x80 then String (byte cp) ""
   else if cp <? 0x800 then
     String (byte (0xC0 + cp / 0x40))
       (String (byte (0x80 + cp mod 0x40)) "")
   else if cp <? 0x10000 then
     String (byte (0xE0 + cp / 0x1000))
       (String (byte (0x80 + cp / 0x40 mod 0x40))
          (String (byte (0x80 + cp mod 0x40)) ""))
   else
     String (byte (0xF0 + cp / 0x40000))
       (String (byte (0x80 + cp / 0x1000 mod 0x40))
          (String (byte (0x80 + cp / 0x40 mod 0x40))
             (String (byte (0x80 + cp mod 0x40)) ""))))%N.

(** The bytes [10xxxxxx], which continue a character. *)
Definition isContinuation (c : ascii) : bool :=
  let n := N_of_ascii c in ((0x80 <=? n) && (n <? 0xC0))%N.

(** The number of bytes of the character that the byte [c] starts. *)
Definition charLength (c : ascii) : nat :=
  let n := N_of_ascii c in
  if (n <? 0xC0)%N then 1%nat
  else if (n <? 0xE0)%N then 2%nat
  else if (n <? 0xF0)%N then 3%nat
  else if (n <? 0xF8)%N then 4%nat
  else 1%nat.

(** The number of continuation bytes [s] starts with. *)
Fixpoint continuationBytes (s : string) : nat :=
  match s with
  | String c r => if isContinuation c then S (continuationBytes r) else 0
  | EmptyString => 0
  end.

Fixpoint firstBytes (n : nat) (s : string) {struct n} : string :=
  match n, s with
  | S n', String c r => String c (firstBytes n' r)
  | _, _ => EmptyString
  end.

Fixpoint dropBytes (n : nat) (s : string) {struct n} : string :=
  match n, s with
  | S n', String c r => dropBytes n' r
  | _, _ => s
  end.

(** The number of bytes that the character starting with [c] takes from
    [r]: all that [c] announces when they are there, none otherwise. *)
Definition tailLength (c : ascii) (r : string) : nat :=
  if (charLength c - 1 <=? continuationBytes r)%nat then (charLength c - 1)%nat
  else 0%nat.

(** [fuel] bounds the number of characters; the length of the string is
    enough. *)
Fixpoint chars_upto (fuel : nat) (s : string) : list string :=
  match fuel, s with
  | S fuel', String c r =>
      let n := tailLength c r in
      String c (firstBytes n r) :: chars_upto fuel' (dropBytes n r)
  | _, _ => []
  end.

(** The characters of [s]. *)
Definition chars (s : string) : list string := chars_upto (String.length s) s.

Definition joinChars (l : list string) : string := fold_right append "" l.

(** The code points of ECMAScript's WhiteSpace (TAB, VT, FF, ZWNBSP and the
    Unicode category Zs) and LineTerminator (LF, CR, LS, PS). *)
Definition whiteSpace : list N :=
  [ 0x9; 0xB; 0xC; 0xFEFF;
    0x20; 0xA0; 0x1680; 0x2000; 0x2001; 0x2002; 0x2003; 0x2004; 0x2005;
    0x2006; 0x2007; 0x2008; 0x2009; 0x200A; 0x202F; 0x205F; 0x3000;
    0xA; 0xD; 0x2028; 0x2029 ]%N.

Definition isWhiteSpace (ch : string) : bool :=
  existsb (String.eqb ch) (map utf8 whiteSpace).

Fixpoint dropWhiteSpace (l : list string) : list string :=
  match l with
  | [] => []
  | ch :: r => if isWhiteSpace ch then dropWhiteSpace r else l
  end.

Fixpoint dropWhiteSpaceEnd (l : list string) : list string :=
  match l with
  | [] => []
  | ch :: r =>
      match dropWhiteSpaceEnd r with
      | [] => if isWhiteSpace ch then [] else [ch]
      | r' => ch :: r'
      end
  end.

(** [String.prototype.trim] *)
Definition trim (s : string) : string :=
  joinChars (dropWhiteSpaceEnd (dropWhiteSpace (chars s))).

(** The upper-case mapping of Unicode 14.0, for the code points it changes.

    [upperRanges] holds the code points that map to one code point (the
    upper-case mapping of UnicodeData.txt): an entry [(lo, hi, step, up)]
    says that [lo], [lo + step], ..., [hi] map to [up], [up + step], ...
    [upperSpecial] holds those that map to several (the unconditional
    mappings of SpecialCasing.txt). *)
Definition upperRanges : list (N * N * N * N) :=
  [
    (0x61, 0x7A, 1, 0x41); (0xB5, 0xB5, 1, 0x39C); (0xE0, 0xF6, 1, 0xC0);
    (0xF8, 0xFE, 1, 0xD8); (0xFF, 0xFF, 1, 0x178); (0x101, 0x12F, 2, 0x100);
    (0x131, 0x131, 1, 0x49); (0x133, 0x137, 2, 0x132);
    (0x13A, 0x148, 2, 0x139); (0x14B, 0x177, 2, 0x14A);
    (0x17A, 0x17E, 2, 0x179); (0x17F, 0x17F, 1, 0x53);
    (0x180, 0x180, 1, 0x243); (0x183, 0x185, 2, 0x182);
    (0x188, 0x188, 1, 0x187); (0x18C, 0x18C, 1, 0x18B);
    (0x192, 0x192, 1, 0x191); (0x195, 0x195, 1, 0x1F6);
    (0x199, 0x199, 1, 0x198); (0x19A, 0x19A, 1, 0x23D);
    (0x19E, 0x19E, 1, 0x220); (0x1A1, 0x1A5, 2, 0x1A0);
    (0x1A8, 0x1A8, 1, 0x1A7); (0x1AD, 0x1AD, 1, 0x1AC);
    (0x1B0, 0x1B0, 1, 0x1AF); (0x1B4, 0x1B6, 2, 0x1B3);
    (0x1B9, 0x1B9, 1, 0x1B8); (0x1BD, 0x1BD, 1, 0x1BC);
    (0x1BF, 0x1BF, 1, 0x1F7); (0x1C5, 0x1C5, 1, 0x1C4);
    (0x1C6, 0x1C6, 1, 0x1C4); (0x1C8, 0x1C8, 1, 0x1C7);
    (0x1C9, 0x1C9, 1, 0x1C7); (0x1CB, 0x1CB, 1, 0x1CA);
    (0x1CC, 0x1CC, 1, 0x1CA); (0x1CE, 0x1DC, 2, 0x1CD);
    (0x1DD, 0x1DD, 1, 0x18E); (0x1DF, 0x1EF, 2, 0x1DE);
    (0x1F2, 0x1F2, 1, 0x1F1); (0x1F3, 0x1F3, 1, 0x1F1);
    (0x1F5, 0x1F5, 1, 0x1F4); (0x1F9, 0x21F, 2, 0x1F8);
    (0x223, 0x233, 2, 0x222); (0x23C, 0x23C, 1, 0x23B);
    (0x23F, 0x240, 1, 0x2C7E); (0x242, 0x242, 1, 0x241);
    (0x247, 0x24F, 2, 0x246); (0x250, 0x250, 1, 0x2C6F);
    (0x251, 0x251, 1, 0x2C6D); (0x252, 0x252, 1, 0x2C70);
    (0x253, 0x253, 1, 0x181); (0x254, 0x254, 1, 0x186);
    (0x256, 0x257, 1, 0x189); (0x259, 0x259, 1, 0x18F);
    (0x25B, 0x25B, 1, 0x190); (0x25C, 0x25C, 1, 0xA7AB);
    (0x260, 0x260, 1, 0x193); (0x261, 0x261, 1, 0xA7AC);
    (0x263, 0x263, 1, 0x194); (0x265, 0x265, 1, 0xA78D);
    (0x266, 0x266, 1, 0xA7AA); (0x268, 0x268, 1, 0x197);
    (0x269, 0x269, 1, 0x196); (0x26A, 0x26A, 1, 0xA7AE);
    (0x26B, 0x26B, 1, 0x2C62); (0x26C, 0x26C, 1, 0xA7AD);
    (0x26F, 0x26F, 1, 0x19C); (0x271, 0x271, 1, 0x2C6E);
    (0x272, 0x272, 1, 0x19D); (0x275, 0x275, 1, 0x19F);
    (0x27D, 0x27D, 1, 0x2C64); (0x280, 0x280, 1, 0x1A6);
    (0x282, 0x282, 1, 0xA7C5); (0x283, 0x283, 1, 0x1A9);
    (0x287, 0x287, 1, 0xA7B1); (0x288, 0x288, 1, 0x1AE);
    (0x289, 0x289, 1, 0x244); (0x28A, 0x28B, 1, 0x1B1);
    (0x28C, 0x28C, 1, 0x245); (0x292, 0x292, 1, 0x1B7);
    (0x29D, 0x29D, 1, 0xA7B2); (0x29E, 0x29E, 1, 0xA7B0);
    (0x345, 0x345, 1, 0x399); (0x371, 0x373, 2, 0x370);
    (0x377, 0x377, 1, 0x376); (0x37B, 0x37D, 1, 0x3FD);
    (0x3AC, 0x3AC, 1, 0x386); (0x3AD, 0x3AF, 1, 0x388);
    (0x3B1, 0x3C1, 1, 0x391); (0x3C2, 0x3C2, 1, 0x3A3);
    (0x3C3, 0x3CB, 1, 0x3A3); (0x3CC, 0x3CC, 1, 0x38C);
    (0x3CD, 0x3CE, 1, 0x38E); (0x3D0, 0x3D0, 1, 0x392);
    (0x3D1, 0x3D1, 1, 0x398); (0x3D5, 0x3D5, 1, 0x3A6);
    (0x3D6, 0x3D6, 1, 0x3A0); (0x3D7, 0x3D7, 1, 0x3CF);
    (0x3D9, 0x3EF, 2, 0x3D8); (0x3F0, 0x3F0, 1, 0x39A);
    (0x3F1, 0x3F1, 1, 0x3A1); (0x3F2, 0x3F2, 1, 0x3F9);
    (0x3F3, 0x3F3, 1, 0x37F); (0x3F5, 0x3F5, 1, 0x395);
    (0x3F8, 0x3F8, 1, 0x3F7); (0x3FB, 0x3FB, 1, 0x3FA);
    (0x430, 0x44F, 1, 0x410); (0x450, 0x45F, 1, 0x400);
    (0x461, 0x481, 2, 0x460); (0x48B, 0x4BF, 2, 0x48A);
    (0x4C2, 0x4CE, 2, 0x4C1); (0x4CF, 0x4CF, 1, 0x4C0);
    (0x4D1, 0x52F, 2, 0x4D0); (0x561, 0x586, 1, 0x531);
    (0x10D0, 0x10FA, 1, 0x1C90); (0x10FD, 0x10FF, 1, 0x1CBD);
    (0x13F8, 0x13FD, 1, 0x13F0); (0x1C80, 0x1C80, 1, 0x412);
    (0x1C81, 0x1C81, 1, 0x414); (0x1C82, 0x1C82, 1, 0x41E);
    (0x1C83, 0x1C84, 1, 0x421); (0x1C85, 0x1C85, 1, 0x422);
    (0x1C86, 0x1C86, 1, 0x42A); (0x1C87, 0x1C87, 1, 0x462);
    (0x1C88, 0x1C88, 1, 0xA64A); (0x1D79, 0x1D79, 1, 0xA77D);
    (0x1D7D, 0x1D7D, 1, 0x2C63); (0x1D8E, 0x1D8E, 1, 0xA7C6);
    (0x1E01, 0x1E95, 2, 0x1E00); (0x1E9B, 0x1E9B, 1, 0x1E60);
    (0x1EA1, 0x1EFF, 2, 0x1EA0); (0x1F00, 0x1F07, 1, 0x1F08);
    (0x1F10, 0x1F15, 1, 0x1F18); (0x1F20, 0x1F27, 1, 0x1F28);
    (0x1F30, 0x1F37, 1, 0x1F38); (0x1F40, 0x1F45, 1, 0x1F48);
    (0x1F51, 0x1F57, 2, 0x1F59); (0x1F60, 0x1F67, 1, 0x1F68);
    (0x1F70, 0x1F71, 1, 0x1FBA); (0x1F72, 0x1F75, 1, 0x1FC8);
    (0x1F76, 0x1F77, 1, 0x1FDA); (0x1F78, 0x1F79, 1, 0x1FF8);
    (0x1F7A, 0x1F7B, 1, 0x1FEA); (0x1F7C, 0x1F7D, 1, 0x1FFA);
    (0x1FB0, 0x1FB1, 1, 0x1FB8); (0x1FBE, 0x1FBE, 1, 0x399);
    (0x1FD0, 0x1FD1, 1, 0x1FD8); (0x1FE0, 0x1FE1, 1, 0x1FE8);
    (0x1FE5, 0x1FE5, 1, 0x1FEC); (0x214E, 0x214E, 1, 0x2132);
    (0x2170, 0x217F, 1, 0x2160); (0x2184, 0x2184, 1, 0x2183);
    (0x24D0, 0x24E9, 1, 0x24B6); (0x2C30, 0x2C5F, 1, 0x2C00);
    (0x2C61, 0x2C61, 1, 0x2C60); (0x2C65, 0x2C65, 1, 0x23A);
    (0x2C66, 0x2C66, 1, 0x23E); (0x2C68, 0x2C6C, 2, 0x2C67);
    (0x2C73, 0x2C73, 1, 0x2C72); (0x2C76, 0x2C76, 1, 0x2C75);
    (0x2C81, 0x2CE3, 2, 0x2C80); (0x2CEC, 0x2CEE, 2, 0x2CEB);
    (0x2CF3, 0x2CF3, 1, 0x2CF2); (0x2D00, 0x2D25, 1, 0x10A0);
    (0x2D27, 0x2D27, 1, 0x10C7); (0x2D2D, 0x2D2D, 1, 0x10CD);
    (0xA641, 0xA66D, 2, 0xA640); (0xA681, 0xA69B, 2, 0xA680);
    (0xA723, 0xA72F, 2, 0xA722); (0xA733, 0xA76F, 2, 0xA732);
    (0xA77A, 0xA77C, 2, 0xA779); (0xA77F, 0xA787, 2, 0xA77E);
    (0xA78C, 0xA78C, 1, 0xA78B); (0xA791, 0xA793, 2, 0xA790);
    (0xA794, 0xA794, 1, 0xA7C4); (0xA797, 0xA7A9, 2, 0xA796);
    (0xA7B5, 0xA7C3, 2, 0xA7B4); (0xA7C8, 0xA7CA, 2, 0xA7C7);
    (0xA7D1, 0xA7D1, 1, 0xA7D0); (0xA7D7, 0xA7D9, 2, 0xA7D6);
    (0xA7F6, 0xA7F6, 1, 0xA7F5); (0xAB53, 0xAB53, 1, 0xA7B3);
    (0xAB70, 0xABBF, 1, 0x13A0); (0xFF41, 0xFF5A, 1, 0xFF21);
    (0x10428, 0x1044F, 1, 0x10400); (0x104D8, 0x104FB, 1, 0x104B0);
    (0x10597, 0x105BB, 2, 0x10570); (0x10598, 0x105A0, 2, 0x10571);
    (0x105A4, 0x105B0, 2, 0x1057D); (0x105B4, 0x105B8, 2, 0x1058D);
    (0x105BC, 0x105BC, 1, 0x10595); (0x10CC0, 0x10CF2, 1, 0x10C80);
    (0x118C0, 0x118DF, 1, 0x118A0); (0x16E60, 0x16E7F, 1, 0x16E40);
    (0x1E922, 0x1E943, 1, 0x1E900)
  ]%N.

Definition upperSpecial : list (N * list N) :=
  [
    (0xDF, [0x53; 0x53]); (0x149, [0x2BC; 0x4E]); (0x1F0, [0x4A; 0x30C]);
    (0x390, [0x399; 0x308; 0x301]); (0x3B0, [0x3A5; 0x308; 0x301]);
    (0x587, [0x535; 0x552]); (0x1E96, [0x48; 0x331]);
    (0x1E97, [0x54; 0x308]); (0x1E98, [0x57; 0x30A]);
    (0x1E99, [0x59; 0x30A]); (0x1E9A, [0x41; 0x2BE]);
    (0x1F50, [0x3A5; 0x313]); (0x1F52, [0x3A5; 0x313; 0x300]);
    (0x1F54, [0x3A5; 0x313; 0x301]); (0x1F56, [0x3A5; 0x313; 0x342]);
    (0x1F80, [0x1F08; 0x399]); (0x1F81, [0x1F09; 0x399]);
    (0x1F82, [0x1F0A; 0x399]); (0x1F83, [0x1F0B; 0x399]);
    (0x1F84, [0x1F0C; 0x399]); (0x1F85, [0x1F0D; 0x399]);
    (0x1F86, [0x1F0E; 0x399]); (0x1F87, [0x1F0F; 0x399]);
    (0x1F88, [0x1F08; 0x399]); (0x1F89, [0x1F09; 0x399]);
    (0x1F8A, [0x1F0A; 0x399]); (0x1F8B, [0x1F0B; 0x399]);
    (0x1F8C, [0x1F0C; 0x399]); (0x1F8D, [0x1F0D; 0x399]);
    (0x1F8E, [0x1F0E; 0x399]); (0x1F8F, [0x1F0F; 0x399]);
    (0x1F90, [0x1F28; 0x399]); (0x1F91, [0x1F29; 0x399]);
    (0x1F92, [0x1F2A; 0x399]); (0x1F93, [0x1F2B; 0x399]);
    (0x1F94, [0x1F2C; 0x399]); (0x1F95, [0x1F2D; 0x399]);
    (0x1F96, [0x1F2E; 0x399]); (0x1F97, [0x1F2F; 0x399]);
    (0x1F98, [0x1F28; 0x399]); (0x1F99, [0x1F29; 0x399]);
    (0x1F9A, [0x1F2A; 0x399]); (0x1F9B, [0x1F2B; 0x399]);
    (0x1F9C, [0x1F2C; 0x399]); (0x1F9D, [0x1F2D; 0x399]);
    (0x1F9E, [0x1F2E; 0x399]); (0x1F9F, [0x1F2F; 0x399]);
    (0x1FA0, [0x1F68; 0x399]); (0x1FA1, [0x1F69; 0x399]);
    (0x1FA2, [0x1F6A; 0x399]); (0x1FA3, [0x1F6B; 0x399]);
    (0x1FA4, [0x1F6C; 0x399]); (0x1FA5, [0x1F6D; 0x399]);
    (0x1FA6, [0x1F6E; 0x399]); (0x1FA7, [0x1F6F; 0x399]);
    (0x1FA8, [0x1F68; 0x399]); (0x1FA9, [0x1F69; 0x399]);
    (0x1FAA, [0x1F6A; 0x399]); (0x1FAB, [0x1F6B; 0x399]);
    (0x1FAC, [0x1F6C; 0x399]); (0x1FAD, [0x1F6D; 0x399]);
    (0x1FAE, [0x1F6E; 0x399]); (0x1FAF, [0x1F6F; 0x399]);
    (0x1FB2, [0x1FBA; 0x399]); (0x1FB3, [0x391; 0x399]);
    (0x1FB4, [0x386; 0x399]); (0x1FB6, [0x391; 0x342]);
    (0x1FB7, [0x391; 0x342; 0x399]); (0x1FBC, [0x391; 0x399]);
    (0x1FC2, [0x1FCA; 0x399]); (0x1FC3, [0x397; 0x399]);
    (0x1FC4, [0x389; 0x399]); (0x1FC6, [0x397; 0x342]);
    (0x1FC7, [0x397; 0x342; 0x399]); (0x1FCC, [0x397; 0x399]);
    (0x1FD2, [0x399; 0x308; 0x300]); (0x1FD3, [0x399; 0x308; 0x301]);
    (0x1FD6, [0x399; 0x342]); (0x1FD7, [0x399; 0x308; 0x342]);
    (0x1FE2, [0x3A5; 0x308; 0x300]); (0x1FE3, [0x3A5; 0x308; 0x301]);
    (0x1FE4, [0x3A1; 0x313]); (0x1FE6, [0x3A5; 0x342]);
    (0x1FE7, [0x3A5; 0x308; 0x342]); (0x1FF2, [0x1FFA; 0x399]);
    (0x1FF3, [0x3A9; 0x399]); (0x1FF4, [0x38F; 0x399]);
    (0x1FF6, [0x3A9; 0x342]); (0x1FF7, [0x3A9; 0x342; 0x399]);
    (0x1FFC, [0x3A9; 0x399]); (0xFB00, [0x46; 0x46]); (0xFB01, [0x46; 0x49]);
    (0xFB02, [0x46; 0x4C]); (0xFB03, [0x46; 0x46; 0x49]);
    (0xFB04, [0x46; 0x46; 0x4C]); (0xFB05, [0x53; 0x54]);
    (0xFB06, [0x53; 0x54]); (0xFB13, [0x544; 0x546]);
    (0xFB14, [0x544; 0x535]); (0xFB15, [0x544; 0x53B]);
    (0xFB16, [0x54E; 0x546]); (0xFB17, [0x544; 0x53D])
  ]%N.

Definition expand (range : N * N * N * N) : list (N * list N) :=
  let '(lo, hi, step, up) := range in
  map (fun i => let d := (N.of_nat i * step)%N in ((lo + d)%N, [(up + d)%N]))
    (seq 0 (N.to_nat ((hi - lo) / step) + 1)).

(** The mapping on encoded characters. *)
Definition upperTable : list (string * string) :=
  Eval vm_compute in
    map (fun e => (utf8 (fst e), joinChars (map utf8 (snd e))))
      (upperSpecial ++ flat_map expand upperRanges).

Definition upperChar (ch : string) : string :=
  match find (fun e => String.eqb ch (fst e)) upperTable with
  | Some e => snd e
  | None => ch
  end.

(** [String.prototype.toUpperCase] *)
Definition toUpperCase (s : string) : string :=
  joinChars (map upperChar (chars s)).

End JsString.

(** ** [Map<string, V>]: insertion-ordered, keys unique *)

Module JsMap.
Section Ops.
Context {V : Type}.

Definition t := list (string * V).

Fixpoint get (k : string) (m : list (string * V)) : option V :=
  match m with
  | [] => None
  | (k', v) :: r => if String.eqb k k' then Some v else get k r
  end.

Definition has (k : string) (m : list (string * V)) : bool :=
  match get k m with Some _ => true | None => false end.

(** [set] keeps the position of an existing key and appends a new one. *)
Fixpoint set (k : string) (v : V) (m : list (string * V)) : list (string * V) :=
  match m with
  | [] => [(k, v)]
  | (k', v') :: r =>
      if String.eqb k k' then (k, v) :: r else (k', v') :: set k v r
  end.

Fixpoint delete (k : string) (m : list (string * V)) : list (string * V) :=
  match m with
  | [] => []
  | (k', v') :: r =>
      if String.eqb k k' then r else (k', v') :: delete k r
  end.

Definition values (m : list (string * V)) : list V := map snd m.

Definition keys (m : list (string * V)) : list string := map fst m.

End Ops.
End JsMap.

(** ** Types of [types.ts] and of the session interface *)

Inductive PlaybackState := stopped | playing | loading | paused.

Record MusicComponentData := {
  promptId : string;
  color : string;
  text : string;
  weight : float;
}.

(** One entry of the [weightedPrompts] array handed to the session. *)
Record WeightedPrompt := { wp_text : string; wp_weight : float }.

(** The options of [LiveMusicGenerationConfig] the settings form knows;
    [None] is an absent property. *)
Record LiveMusicGenerationConfig := {
  temperature : option float;
  topK : option Z;
  guidance : option float;
  seed : option Z;
  bpm : option Z;
  density : option float;
  brightness : option float;
  scale : option string;
  muteBass : option bool;
  muteDrums : option bool;
  onlyBassAndDrums : option bool;
}.

(** [SettingsController.defaultConfig] *)
Definition defaultConfig : LiveMusicGenerationConfig :=
  {| temperature := Some 1.1%float; topK := Some 40; guidance := Some 4%float;
     seed := None; bpm := None; density := None; brightness := None;
     scale := None; muteBass := None; muteDrums := None;
     onlyBassAndDrums := None |}.

(** [LiveMusicServerMessage]: each of the three properties may be present. *)
Record FilteredPrompt := { fp_text : string; filteredReason : string }.

(** An audio chunk; [data] may be missing. *)
Record AudioChunk := { data : option string }.

Record LiveMusicServerMessage := {
  setupComplete : bool;
  filteredPrompt : option FilteredPrompt;
  audioChunks : option (list AudioChunk);   (* [serverContent?.audioChunks] *)
}.

(** The part of an [AudioBuffer] the handler reads. *)
Record AudioBuffer := { duration : float }.

Inductive AudioContextState := suspended | running | closed.

(** Callbacks handed to [setTimeout]. *)
Inductive TimerCallback :=
| PrerollTimer      (* if (playbackState === 'loading') playbackState = 'playing' *)
| ResetTimer.       (* the callback of [handleReset], whose body is empty *)

(** ** Effects on the outside world *)

Inductive Effect :=
| Toast (message : string) (ms : Z)
| ConsoleWarn (message : string)
| ConsoleError (message : string)
| Connect
| SessionPlay (session : nat)
| SessionPause (session : nat)
| SessionStop (session : nat)
| SessionResetContext (session : nat)
| SetWeightedPrompts (session : nat) (weightedPrompts : list WeightedPrompt)
| SetMusicGenerationConfig (session : nat) (config : LiveMusicGenerationConfig)
| AudioContextResume
| GainHoldAt (node : nat) (time : float)
    (* gain.setValueAtTime(gain.value, time) *)
| GainSetValueAtTime (node : nat) (value time : float)
| GainLinearRampToValueAtTime (node : nat) (value time : float)
| NodeDisconnect (node : nat)
| NodeConnectDestination (node : nat)
| SourceConnect (buffer : AudioBuffer) (node : nat)
| SourceStart (buffer : AudioBuffer) (when : float)
| SetTimeout (callback : TimerCallback) (ms : float)
| InputSelect
| InputAnimate
| SettingsResetToDefaults.

(** ** The fields of [WordMusicGame] *)

Record State := {
  musicComponents : list (string * MusicComponentData);
  nextComponentId : nat;
  session : option nat;                 (* [None]: the field is still undefined *)
  audioContextState : AudioContextState;
  outputNode : nat;                     (* gain nodes are numbered as created *)
  nextStartTime : float;
  playbackState : PlaybackState;
  filteredComponents : gset string;
  connectionError : bool;
  guessInputValue : string;             (* [guessInputEl.value] *)
  availableWords : list string;
  currentWordToGuess : string;
  currentWordIndex : Z;
  gameWon : bool;
  lastCallComponents : Z;               (* [lastCall] of [setSessionMusicComponents] *)
  lastCallSettings : Z;                 (* [lastCall] of [updateSettings] *)
  log : list Effect;
}.

(** Field updates: [set_f v s] is [s] after [this.f = v]. *)

Definition set_musicComponents (v : list (string * MusicComponentData)) (s : State) : State :=
  {| musicComponents := v; nextComponentId := nextComponentId s;
     session := session s; audioContextState := audioContextState s;
     outputNode := outputNode s; nextStartTime := nextStartTime s;
     playbackState := playbackState s;
     filteredComponents := filteredComponents s;
     connectionError := connectionError s;
     guessInputValue := guessInputValue s;
     availableWords := availableWords s;
     currentWordToGuess := currentWordToGuess s;
     currentWordIndex := currentWordIndex s; gameWon := gameWon s;
     lastCallComponents := lastCallComponents s;
     lastCallSettings := lastCallSettings s; log := log s |}.

Definition set_nextComponentId (v : nat) (s : State) : State :=
  {| musicComponents := musicComponents s; nextComponentId := v;
     session := session s; audioContextState := audioContextState s;
     outputNode := outputNode s; nextStartTime := nextStartTime s;
     playbackState := playbackState s;
     filteredComponents := filteredComponents s;
     connectionError := connectionError s;
     guessInputValue := guessInputValue s;
     availableWords := availableWords s;
     currentWordToGuess := currentWordToGuess s;
     currentWordIndex := currentWordIndex s; gameWon := gameWon s;
     lastCallComponents := lastCallComponents s;
     lastCallSettings := lastCallSettings s; log := log s |}.

Definition set_session (v : option nat) (s : State) : State :=
  {| musicComponents := musicComponents s;
     nextComponentId := nextComponentId s; session := v;
     audioContextState := audioContextState s; outputNode := outputNode s;
     nextStartTime := nextStartTime s; playbackState := playbackState s;
     filteredComponents := filteredComponents s;
     connectionError := connectionError s;
     guessInputValue := guessInputValue s;
     availableWords := availableWords s;
     currentWordToGuess := currentWordToGuess s;
     currentWordIndex := currentWordIndex s; gameWon := gameWon s;
     lastCallComponents := lastCallComponents s;
     lastCallSettings := lastCallSettings s; log := log s |}.

Definition set_audioContextState (v : AudioContextState) (s : State) : State :=
  {| musicComponents := musicComponents s;
     nextComponentId := nextComponentId s; session := session s;
     audioContextState := v; outputNode := outputNode s;
     nextStartTime := nextStartTime s; playbackState := playbackState s;
     filteredComponents := filteredComponents s;
     connectionError := connectionError s;
     guessInputValue := guessInputValue s;
     availableWords := availableWords s;
     currentWordToGuess := currentWordToGuess s;
     currentWordIndex := currentWordIndex s; gameWon := gameWon s;
     lastCallComponents := lastCallComponents s;
     lastCallSettings := lastCallSettings s; log := log s |}.

Definition set_outputNode (v : nat) (s : State) : State :=
  {| musicComponents := musicComponents s;
     nextComponentId := nextComponentId s; session := session s;
     audioContextState := audioContextState s; outputNode := v;
     nextStartTime := nextStartTime s; playbackState := playbackState s;
     filteredComponents := filteredComponents s;
     connectionError := connectionError s;
     guessInputValue := guessInputValue s;
     availableWords := availableWords s;
     currentWordToGuess := currentWordToGuess s;
     currentWordIndex := currentWordIndex s; gameWon := gameWon s;
     lastCallComponents := lastCallComponents s;
     lastCallSettings := lastCallSettings s; log := log s |}.

Definition set_nextStartTime (v : float) (s : State) : State :=
  {| musicComponents := musicComponents s;
     nextComponentId := nextComponentId s; session := session s;
     audioContextState := audioContextState s; outputNode := outputNode s;
     nextStartTime := v; playbackState := playbackState s;
     filteredComponents := filteredComponents s;
     connectionError := connectionError s;
     guessInputValue := guessInputValue s;
     availableWords := availableWords s;
     currentWordToGuess := currentWordToGuess s;
     currentWordIndex := currentWordIndex s; gameWon := gameWon s;
     lastCallComponents := lastCallComponents s;
     lastCallSettings := lastCallSettings s; log := log s |}.

Definition set_playbackState (v : PlaybackState) (s : State) : State :=
  {| musicComponents := musicComponents s;
     nextComponentId := nextComponentId s; session := session s;
     audioContextState := audioContextState s; outputNode := outputNode s;
     nextStartTime := nextStartTime s; playbackState := v;
     filteredComponents := filteredComponents s;
     connectionError := connectionError s;
     guessInputValue := guessInputValue s;
     availableWords := availableWords s;
     currentWordToGuess := currentWordToGuess s;
     currentWordIndex := currentWordIndex s; gameWon := gameWon s;
     lastCallComponents := lastCallComponents s;
     lastCallSettings := lastCallSettings s; log := log s |}.

Definition set_filteredComponents (v : gset string) (s : State) : State :=
  {| musicComponents := musicComponents s;
     nextComponentId := nextComponentId s; session := session s;
     audioContextState := audioContextState s; outputNode := outputNode s;
     nextStartTime := nextStartTime s; playbackState := playbackState s;
     filteredComponents := v; connectionError := connectionError s;
     guessInputValue := guessInputValue s;
     availableWords := availableWords s;
     currentWordToGuess := currentWordToGuess s;
     currentWordIndex := currentWordIndex s; gameWon := gameWon s;
     lastCallComponents := lastCallComponents s;
     lastCallSettings := lastCallSettings s; log := log s |}.

Definition set_connectionError (v : bool) (s : State) : State :=
  {| musicComponents := musicComponents s;
     nextComponentId := nextComponentId s; session := session s;
     audioContextState := audioContextState s; outputNode := outputNode s;
     nextStartTime := nextStartTime s; playbackState := playbackState s;
     filteredComponents := filteredComponents s; connectionError := v;
     guessInputValue := guessInputValue s;
     availableWords := availableWords s;
     currentWordToGuess := currentWordToGuess s;
     currentWordIndex := currentWordIndex s; gameWon := gameWon s;
     lastCallComponents := lastCallComponents s;
     lastCallSettings := lastCallSettings s; log := log s |}.

Definition set_guessInputValue (v : string) (s : State) : State :=
  {| musicComponents := musicComponents s;
     nextComponentId := nextComponentId s; session := session s;
     audioContextState := audioContextState s; outputNode := outputNode s;
     nextStartTime := nextStartTime s; playbackState := playbackState s;
     filteredComponents := filteredComponents s;
     connectionError := connectionError s; guessInputValue := v;
     availableWords := availableWords s;
     currentWordToGuess := currentWordToGuess s;
     currentWordIndex := currentWordIndex s; gameWon := gameWon s;
     lastCallComponents := lastCallComponents s;
     lastCallSettings := lastCallSettings s; log := log s |}.

Definition set_availableWords (v : list string) (s : State) : State :=
  {| musicComponents := musicComponents s;
     nextComponentId := nextComponentId s; session := session s;
     audioContextState := audioContextState s; outputNode := outputNode s;
     nextStartTime := nextStartTime s; playbackState := playbackState s;
     filteredComponents := filteredComponents s;
     connectionError := connectionError s;
     guessInputValue := guessInputValue s; availableWords := v;
     currentWordToGuess := currentWordToGuess s;
     currentWordIndex := currentWordIndex s; gameWon := gameWon s;
     lastCallComponents := lastCallComponents s;
     lastCallSettings := lastCallSettings s; log := log s |}.

Definition set_currentWordToGuess (v : string) (s : State) : State :=
  {| musicComponents := musicComponents s;
     nextComponentId := nextComponentId s; session := session s;
     audioContextState := audioContextState s; outputNode := outputNode s;
     nextStartTime := nextStartTime s; playbackState := playbackState s;
     filteredComponents := filteredComponents s;
     connectionError := connectionError s;
     guessInputValue := guessInputValue s;
     availableWords := availableWords s; currentWordToGuess := v;
     currentWordIndex := currentWordIndex s; gameWon := gameWon s;
     lastCallComponents := lastCallComponents s;
     lastCallSettings := lastCallSettings s; log := log s |}.

Definition set_currentWordIndex (v : Z) (s : State) : State :=
  {| musicComponents := musicComponents s;
     nextComponentId := nextComponentId s; session := session s;
     audioContextState := audioContextState s; outputNode := outputNode s;
     nextStartTime := nextStartTime s; playbackState := playbackState s;
     filteredComponents := filteredComponents s;
     connectionError := connectionError s;
     guessInputValue := guessInputValue s;
     availableWords := availableWords s;
     currentWordToGuess := currentWordToGuess s; currentWordIndex := v;
     gameWon := gameWon s; lastCallComponents := lastCallComponents s;
     lastCallSettings := lastCallSettings s; log := log s |}.

Definition set_gameWon (v : bool) (s : State) : State :=
  {| musicComponents := musicComponents s;
     nextComponentId := nextComponentId s; session := session s;
     audioContextState := audioContextState s; outputNode := outputNode s;
     nextStartTime := nextStartTime s; playbackState := playbackState s;
     filteredComponents := filteredComponents s;
     connectionError := connectionError s;
     guessInputValue := guessInputValue s;
     availableWords := availableWords s;
     currentWordToGuess := currentWordToGuess s;
     currentWordIndex := currentWordIndex s; gameWon := v;
     lastCallComponents := lastCallComponents s;
     lastCallSettings := lastCallSettings s; log := log s |}.

Definition set_lastCallComponents (v : Z) (s : State) : State :=
  {| musicComponents := musicComponents s;
     nextComponentId := nextComponentId s; session := session s;
     audioContextState := audioContextState s; outputNode := outputNode s;
     nextStartTime := nextStartTime s; playbackState := playbackState s;
     filteredComponents := filteredComponents s;
     connectionError := connectionError s;
     guessInputValue := guessInputValue s;
     availableWords := availableWords s;
     currentWordToGuess := currentWordToGuess s;
     currentWordIndex := currentWordIndex s; gameWon := gameWon s;
     lastCallComponents := v; lastCallSettings := lastCallSettings s;
     log := log s |}.

Definition set_lastCallSettings (v : Z) (s : State) : State :=
  {| musicComponents := musicComponents s;
     nextComponentId := nextComponentId s; session := session s;
     audioContextState := audioContextState s; outputNode := outputNode s;
     nextStartTime := nextStartTime s; playbackState := playbackState s;
     filteredComponents := filteredComponents s;
     connectionError := connectionError s;
     guessInputValue := guessInputValue s;
     availableWords := availableWords s;
     currentWordToGuess := currentWordToGuess s;
     currentWordIndex := currentWordIndex s; gameWon := gameWon s;
     lastCallComponents := lastCallComponents s; lastCallSettings := v;
     log := log s |}.

Definition set_log (v : list Effect) (s : State) : State :=
  {| musicComponents := musicComponents s;
     nextComponentId := nextComponentId s; session := session s;
     audioContextState := audioContextState s; outputNode := outputNode s;
     nextStartTime := nextStartTime s; playbackState := playbackState s;
     filteredComponents := filteredComponents s;
     connectionError := connectionError s;
     guessInputValue := guessInputValue s;
     availableWords := availableWords s;
     currentWordToGuess := currentWordToGuess s;
     currentWordIndex := currentWordIndex s; gameWon := gameWon s;
     lastCallComponents := lastCallComponents s;
     lastCallSettings := lastCallSettings s; log := v |}.

(** Appends one effect to the trace. *)
Definition emit (e : Effect) (s : State) : State := set_log (log s ++ [e]) s.

(** [toastMessage.show(message, duration = 3000)] *)
Definition toast (message : string) (ms : Z) : State -> State := emit (Toast message ms).

(** The state after the field initialisers, before the constructor body. *)
Definition fieldInitialisers : State :=
  {| musicComponents := []; nextComponentId := 0; session := None;
     audioContextState := suspended; outputNode := 0;
     nextStartTime := 0%float; playbackState := stopped;
     filteredComponents := ∅; connectionError := false;
     guessInputValue := ""; availableWords := []; currentWordToGuess := "";
     currentWordIndex := -1; gameWon := false;
     lastCallComponents := 0; lastCallSettings := 0; log := [] |}.

(** ** [throttle]

    The closure variable [lastCall] lives in the surrounding state [S];
    [lastCall] and [set_lastCall] read and write it.  A call inside the
    window returns without calling [func] and without recording anything. *)

Section Throttle.
Context {A S : Type}.
Variable func : A -> S -> S.
Variable delay : Z.
Variable lastCall : S -> Z.
Variable set_lastCall : Z -> S -> S.

Definition throttle (now : Z) (args : A) (s : S) : S :=
  let timeSinceLastCall := now - lastCall s in
  if delay <=? timeSinceLastCall
  then set_lastCall now (func args s)
  else s.

End Throttle.

(** ** Audio output *)

Definition bufferTime : float := 0.5%float.
Definition sampleRate : Z := 48000.

Definition withSession (f : nat -> Effect) (s : State) : State :=
  match session s with
  | Some x => emit (f x) s
  | None => s
  end.

Definition isRunning (s : State) : bool :=
  match audioContextState s with running => true | _ => false end.

(** The tail shared by [pauseAudio] and [stopAudioAndSession]: ramp the gain
    down when the context runs, reset the clock, replace the output node. *)
Definition rampDownAndReplaceNode (now : float) (s : State) : State :=
  let s :=
    if isRunning s
    then emit (GainLinearRampToValueAtTime (outputNode s) 0%float (now + 0.2)%float)
           (emit (GainHoldAt (outputNode s) now) s)
    else s in
  let s := set_nextStartTime 0%float s in
  let s := emit (NodeDisconnect (outputNode s)) s in
  let s := set_outputNode (Datatypes.S (outputNode s)) s in
  emit (NodeConnectDestination (outputNode s)) s.

Definition pauseAudio (now : float) (s : State) : State :=
  let s := withSession SessionPause s in
  let s := set_playbackState paused s in
  rampDownAndReplaceNode now s.

Definition stopAudioAndSession (now : float) (s : State) : State :=
  let s := withSession SessionStop s in
  let s := set_playbackState stopped s in
  rampDownAndReplaceNode now s.

Definition loadAudio (now : float) (s : State) : State :=
  let s := match audioContextState s with
           | suspended => emit AudioContextResume s
           | _ => s
           end in
  let s := withSession SessionPlay s in
  let s := set_playbackState loading s in
  let s := emit (GainSetValueAtTime (outputNode s) 0%float now) s in
  emit (GainLinearRampToValueAtTime (outputNode s) 1%float (now + 0.2)%float) s.

Definition isActive (s : State) : bool :=
  match playbackState s with playing | loading => true | _ => false end.

Definition isHalted (s : State) : bool :=
  match playbackState s with paused | stopped => true | _ => false end.

(** ** Pushing the weighted prompts *)

Definition isSent (filtered : gset string) (p : MusicComponentData) : bool :=
  negb (bool_decide (promptId p ∈ filtered)) && (0.01 <? weight p)%float.

Definition componentsToSend (s : State) : list MusicComponentData :=
  List.filter (isSent (filteredComponents s)) (JsMap.values (musicComponents s)).

Definition toPrompt (c : MusicComponentData) : WeightedPrompt :=
  {| wp_text := text c; wp_weight := weight c |}.

(** The snapshot handed to [session.setWeightedPrompts]. *)
Definition weightedPrompts (s : State) : list WeightedPrompt :=
  map toPrompt (componentsToSend s).

(** The function wrapped by [throttle] in [setSessionMusicComponents], up to
    its [await]. *)
Definition pushComponents (_ : unit) (s : State) : State :=
  match session s with
  | None => s
  | Some x => emit (SetWeightedPrompts x (weightedPrompts s)) s
  end.

Definition setSessionMusicComponents (nowMs : Z) : State -> State :=
  throttle pushComponents 200 lastCallComponents set_lastCallComponents nowMs tt.

(** The [catch] block of the pushed call, run when the promise rejects. *)
Definition setSessionMusicComponents_rejected (message : string) (now : float)
    (s : State) : State :=
  let shown := match message with
               | EmptyString => "Error updating music components."
               | _ => message
               end in
  let s := toast shown 4000 s in
  if isActive s then pauseAudio now s else s.

(** The function wrapped by [throttle] in [updateSettings]; [detail] is
    [e.detail]. *)
Definition pushSettings (detail : LiveMusicGenerationConfig) (s : State) : State :=
  withSession (fun x => SetMusicGenerationConfig x detail) s.

Definition updateSettings (nowMs : Z) (detail : LiveMusicGenerationConfig)
    : State -> State :=
  throttle pushSettings 200 lastCallSettings set_lastCallSettings nowMs detail.

(** ** The game *)

(** [a[i]] for an index that may be out of range. *)
Definition at_index (a : list string) (i : Z) : option string :=
  if i <? 0 then None else a !! Z.to_nat i.

Definition fetchNextWord (s : State) : State :=
  let s := set_currentWordIndex (currentWordIndex s + 1) s in
  if currentWordIndex s <? Z.of_nat (length (availableWords s))
  then set_currentWordToGuess
         (default "" (at_index (availableWords s) (currentWordIndex s))) s
  else
    let s := set_currentWordToGuess "YOU WON!" s in
    let s := set_gameWon true s in
    toast "Congratulations! You've guessed all words!" 5000 s.

Definition skipWord (s : State) : State :=
  fetchNextWord (toast ("Skipped: " +:+ currentWordToGuess s) 2000 s).

(** [shuffled] is the outcome of sorting a copy of [WORD_LIST_SOURCE] with the
    random comparator. *)
Definition initializeGame (shuffled : list string) (nowMs : Z) (s : State) : State :=
  let s := set_availableWords shuffled s in
  let s := set_musicComponents [] s in
  let s := set_nextComponentId 0 s in
  let s := set_currentWordIndex (-1) s in
  let s := set_gameWon false s in
  let s := set_filteredComponents ∅ s in
  let s := fetchNextWord s in
  match session s with
  | Some _ => setSessionMusicComponents nowMs s
  | None => s
  end.

Definition WORD_LIST_SOURCE : list string :=
  [ "HAPPY"; "MELODY"; "RHYTHM"; "GROOVE"; "HARMONY"; "BEAT"; "CHORD";
    "TEMPO"; "FUNKY"; "JAZZY"; "SOUND"; "MUSIC"; "DANCE"; "SING"; "NOTE";
    "PIANO"; "GUITAR"; "DRUMS"; "BASS"; "VOICE"; "ROCK"; "POP"; "BLUES";
    "VIBE"; "SOUL"; "LOOP"; "SYNC"; "TUNE"; "FLOW" ].

(** [getUnusedRandomColor]: [COLORS] is the palette as shuffled at load time,
    [rnd] selects what [Math.floor(Math.random() * n)] yields. *)
Definition getUnusedRandomColor (COLORS : list string) (rnd : nat)
    (usedColors : list string) : string :=
  let availableColors :=
    List.filter (fun c => negb (existsb (String.eqb c) usedColors)) COLORS in
  match availableColors with
  | [] => nth (rnd mod length COLORS) COLORS ""
  | _ => nth (rnd mod length availableColors) availableColors ""
  end.

Definition componentId (n : nat) : string := "component-" +:+ pretty n.

Definition normalise (value : string) : string :=
  JsString.toUpperCase (JsString.trim value).

Definition handleGuessSubmit (COLORS : list string) (rnd : nat) (nowMs : Z)
    (s : State) : State :=
  if gameWon s then toast "Game over! Reset to play again." 3000 s
  else
    let guess := normalise (guessInputValue s) in
    match guess with
    | EmptyString => s
    | _ =>
        let s :=
          if String.eqb guess (currentWordToGuess s) then
            let s := toast ("Correct: " +:+ currentWordToGuess s +:+ "!") 2000 s in
            let newComponentId := componentId (nextComponentId s) in
            let s := set_nextComponentId (Datatypes.S (nextComponentId s)) s in
            let usedColors := map color (JsMap.values (musicComponents s)) in
            let newComponent :=
              {| promptId := newComponentId;
                 text := currentWordToGuess s;
                 weight := 0.5%float;
                 color := getUnusedRandomColor COLORS rnd usedColors |} in
            let s := set_musicComponents
                       (JsMap.set newComponentId newComponent (musicComponents s)) s in
            let s := setSessionMusicComponents nowMs s in
            fetchNextWord s
          else
            let s := toast "Incorrect guess. Try again!" 2000 s in
            let s := emit InputSelect s in
            emit InputAnimate s in
        set_guessInputValue "" s
    end.

(** [detail] is [e.detail].  The stored object is mutated in place and then
    stored again under its own [promptId]. *)
Definition handleMusicComponentChanged (detail : MusicComponentData) (nowMs : Z)
    (s : State) : State :=
  match JsMap.get (promptId detail) (musicComponents s) with
  | None => emit (ConsoleError "Music component not found for changing:") s
  | Some component =>
      let component' :=
        {| promptId := promptId component; color := color component;
           text := text detail; weight := weight detail |} in
      let m := JsMap.set (promptId detail) component' (musicComponents s) in
      let s := set_musicComponents (JsMap.set (promptId component') component' m) s in
      setSessionMusicComponents nowMs s
  end.

Definition handleMusicComponentRemoved (componentIdToRemove : string) (nowMs : Z)
    (s : State) : State :=
  if JsMap.has componentIdToRemove (musicComponents s) then
    let s := set_musicComponents
               (JsMap.delete componentIdToRemove (musicComponents s)) s in
    let s := set_filteredComponents
               (filteredComponents s ∖ {[ componentIdToRemove ]}) s in
    setSessionMusicComponents nowMs s
  else emit (ConsoleWarn "Attempted to remove non-existent component ID") s.

(** ** Connecting *)

Inductive ConnectOutcome :=
| Connected (newSession : nat)   (* the promise of [connect] fulfils *)
| ConnectFailed.                 (* it rejects *)

(** What an [async] method is waiting for when it is suspended. *)
Inductive Awaited :=
| AwaitConnect                                (* [ai.live.music.connect] *)
| AwaitDecode (decodedData : list Byte.byte)  (* [decodeAudioData] *)
| AwaitConfig.                                (* [session.setMusicGenerationConfig] *)

Inductive Step :=
| Done (s : State)
| Await (what : Awaited) (s : State).

Definition stateOf (r : Step) : State :=
  match r with Done s | Await _ s => s end.

(** [connectToSession], from the settlement of the promise on. *)
Definition connectToSession_resume (o : ConnectOutcome) (s : State) : State :=
  match o with
  | Connected x =>
      let s := set_session (Some x) s in
      set_connectionError false s
  | ConnectFailed =>
      let s := emit (ConsoleError "Failed to connect to session:") s in
      let s := toast "Failed to connect to music session. Retrying may be needed." 5000 s in
      set_connectionError true s
  end.

Definition firstUpdated (s : State) : Step := Await AwaitConnect (emit Connect s).

Definition firstUpdated_resume (o : ConnectOutcome) (nowMs : Z) (s : State) : State :=
  setSessionMusicComponents nowMs (connectToSession_resume o s).

(** The [onerror] and [onclose] callbacks. *)
Definition onerror (message : string) (now : float) (s : State) : State :=
  let s := emit (ConsoleError ("Connection error: " +:+ message)) s in
  let s := set_connectionError true s in
  let s := pauseAudio now s in
  toast ("Connection error: " +:+ message +:+ ". Please try again.") 5000 s.

Definition onclose (wasClean : bool) (now : float) (s : State) : State :=
  if wasClean then s
  else
    let s := set_connectionError true s in
    let s := pauseAudio now s in
    toast "Connection closed unexpectedly. Please check console." 5000 s.

(** The callback of the pre-roll timer. *)
Definition prerollTimerFired (s : State) : State :=
  match playbackState s with
  | loading => set_playbackState playing s
  | _ => s
  end.

(** ** The [onmessage] callback

    [decode] and [decodeAudioData] belong to [utils], which is not part of
    the sources at hand: they are parameters.  [None] stands for an exception
    thrown by [decode] and for a rejected promise of [decodeAudioData]. *)

Definition dquote : string := String "034"%char EmptyString.

Section OnMessage.
Variable decode : string -> option (list Byte.byte).
Variable decodeAudioData : list Byte.byte -> Z -> Z -> option AudioBuffer.

(** The [catch] block around the audio path. *)
Definition audioError (now : float) (s : State) : State :=
  let s := emit (ConsoleError "Error processing audio chunk:") s in
  let s := toast "Error playing audio. Check console." 3000 s in
  if isActive s then pauseAudio now s else s.

Definition onFilteredPrompt (e : LiveMusicServerMessage) (s : State) : State :=
  match filteredPrompt e with
  | None => s
  | Some fp =>
      match List.find (fun p => String.eqb (text p) (fp_text fp))
              (JsMap.values (musicComponents s)) with
      | None => s
      | Some component =>
          let s := set_filteredComponents
                     ({[ promptId component ]} ∪ filteredComponents s) s in
          toast (dquote +:+ fp_text fp +:+ dquote +:+ " was filtered: "
                 +:+ filteredReason fp) 3000 s
      end
  end.

(** The callback up to [await decodeAudioData(...)]. *)
Definition onmessage (e : LiveMusicServerMessage) (now : float) (s : State) : Step :=
  let s := if setupComplete e then set_connectionError false s else s in
  let s := onFilteredPrompt e s in
  match audioChunks e with
  | Some (chunk :: _) =>
      if isHalted s then Done s
      else
        match data chunk with
        | None => Done (emit (ConsoleWarn "Received empty audio chunk data.") s)
        | Some audioDataString =>
            match JsString.trim audioDataString with
            | EmptyString =>
                Done (emit (ConsoleWarn "Received empty audio chunk data.") s)
            | _ =>
                match decode audioDataString with
                | None => Done (audioError now s)
                | Some decodedData =>
                    match decodedData with
                    | [] => Done (emit (ConsoleWarn "Decoded audio data is empty.") s)
                    | _ => Await (AwaitDecode decodedData) s
                    end
                end
            end
        end
  | _ => Done s
  end.

(** The continuation of the callback once [decodeAudioData] has settled;
    [s] is the state at that moment. *)
Definition onmessage_resume (decodedData : list Byte.byte) (now : float)
    (s : State) : State :=
  match decodeAudioData decodedData sampleRate 2 with
  | None => audioError now s
  | Some audioBuffer =>
      if (duration audioBuffer =? 0)%float
      then emit (ConsoleWarn "Processed audio buffer has zero duration.") s
      else
        let s := emit (SourceConnect audioBuffer (outputNode s)) s in
        let s :=
          if (nextStartTime s =? 0)%float then
            let s := set_nextStartTime (now + bufferTime)%float s in
            emit (SetTimeout PrerollTimer (bufferTime * 1000)%float) s
          else s in
        if (nextStartTime s <? now)%float then
          let s := emit (ConsoleWarn "Audio under-run detected.") s in
          let s := toast "Audio buffer under-run. Resyncing..." 2000 s in
          let s := set_playbackState loading s in
          set_nextStartTime 0%float s
        else
          let s := emit (SourceStart audioBuffer (nextStartTime s)) s in
          set_nextStartTime (nextStartTime s + duration audioBuffer)%float s
  end.

(** A message handled with nothing running during the decode. *)
Definition onmessage_atomic (e : LiveMusicServerMessage) (now : float)
    (s : State) : State :=
  match onmessage e now s with
  | Await (AwaitDecode decodedData) s' => onmessage_resume decodedData now s'
  | r => stateOf r
  end.

End OnMessage.

(** ** The play/pause button *)

Definition hasSession (s : State) : bool :=
  match session s with Some _ => true | None => false end.

(** [this.connectionError || !this.session] *)
Definition needsConnect (s : State) : bool :=
  connectionError s || negb (hasSession s).

Definition handlePlayPause (now : float) (s : State) : Step :=
  match playbackState s with
  | playing => Done (pauseAudio now s)
  | paused | stopped =>
      if needsConnect s then
        let s := toast "Reconnecting..." 2000 s in
        Await AwaitConnect (emit Connect s)
      else Done (loadAudio now s)
  | loading =>
      let s := pauseAudio now s in
      Done (toast "Playback stopped. Please try playing again." 3000 s)
  end.

(** The continuation of [handlePlayPause] after [await connectToSession()]. *)
Definition handlePlayPause_resume (o : ConnectOutcome) (nowMs : Z) (now : float)
    (s : State) : State :=
  let s := connectToSession_resume o s in
  if negb (connectionError s) && hasSession s then
    let s := setSessionMusicComponents nowMs s in
    loadAudio now s
  else
    let s := toast "Failed to reconnect. Please try again." 3000 s in
    set_playbackState stopped s.

(** ** The reset button *)

(** [settingsController.resetToDefaults()]: the form goes back to
    [defaultConfig] and dispatches [settings-changed], which [updateSettings]
    listens to. *)
Definition resetToDefaults (nowMs : Z) (s : State) : State :=
  updateSettings nowMs defaultConfig (emit SettingsResetToDefaults s).

(** The end of [handleReset], after its last [await]. *)
Definition handleReset_finish (s : State) : State :=
  match playbackState s with
  | stopped => s
  | _ => emit (SetTimeout ResetTimer 300%float) s
  end.

(** [handleReset] from [this.pauseAudio()] on. *)
Definition handleReset_body (shuffled : list string) (nowMs : Z) (now : float)
    (s : State) : Step :=
  let s := pauseAudio now s in
  let s := initializeGame shuffled nowMs s in
  let s := resetToDefaults nowMs s in
  match session s with
  | Some x =>
      let s := emit (SessionResetContext x) s in
      Await AwaitConfig (emit (SetMusicGenerationConfig x defaultConfig) s)
  | None => Done (handleReset_finish s)
  end.

Definition handleReset (shuffled : list string) (nowMs : Z) (now : float)
    (s : State) : Step :=
  let s := toast "Resetting game and music..." 2000 s in
  if needsConnect s then Await AwaitConnect (emit Connect s)
  else handleReset_body shuffled nowMs now s.

(** The continuation of [handleReset] after [await connectToSession()]. *)
Definition handleReset_resume (o : ConnectOutcome) (shuffled : list string)
    (nowMs : Z) (now : float) (s : State) : Step :=
  handleReset_body shuffled nowMs now (connectToSession_resume o s).

(** The constructor: the output node is connected and the game initialised. *)
Definition constructed (shuffled : list string) (nowMs : Z) : State :=
  initializeGame shuffled nowMs (emit (NodeConnectDestination 0) fieldInitialisers).

(** ** The event loop

    [MusicComponentController.updateWeight]: the controller rendered for the
    component stored under [id] sends its own [promptId], [text] and [color],
    which [renderMusicComponents] bound to those of the component, with the
    value of the slider as weight.  No controller exists for an absent
    [id]. *)
Definition updateWeight (id : string) (value : float) (nowMs : Z) (s : State) : State :=
  match JsMap.get id (musicComponents s) with
  | Some c =>
      handleMusicComponentChanged
        {| promptId := promptId c; color := color c; text := text c;
           weight := value |} nowMs s
  | None => s
  end.

(** What the browser can deliver to the element: user input, callbacks of
    the session, timers and the settlement of awaited promises, each with the
    platform values the handler reads. *)
Inductive Event :=
| TypeGuess (value : string)
| SubmitGuess (COLORS : list string) (rnd : nat) (nowMs : Z)
| Skip
| SlideWeight (id : string) (value : float) (nowMs : Z)
| RemoveComponent (id : string) (nowMs : Z)
| ChangeSettings (detail : LiveMusicGenerationConfig) (nowMs : Z)
| PressPlayPause (now : float)
| PlayPauseConnectSettled (o : ConnectOutcome) (nowMs : Z) (now : float)
| PressReset (shuffled : list string) (nowMs : Z) (now : float)
| ResetConnectSettled (o : ConnectOutcome) (shuffled : list string) (nowMs : Z)
    (now : float)
| ResetConfigSettled
| FirstUpdated
| FirstConnectSettled (o : ConnectOutcome) (nowMs : Z)
| ServerMessage (e : LiveMusicServerMessage) (now : float)
| DecodeSettled (decodedData : list Byte.byte) (now : float)
| PushRejected (message : string) (now : float)
| ConnectionError (message : string) (now : float)
| ConnectionClosed (wasClean : bool) (now : float)
| PrerollElapsed
| AudioContextChanged (state : AudioContextState).

Section EventLoop.
Variable decode : string -> option (list Byte.byte).
Variable decodeAudioData : list Byte.byte -> Z -> Z -> option AudioBuffer.

Definition dispatch (ev : Event) (s : State) : State :=
  match ev with
  | TypeGuess value => set_guessInputValue value s
  | SubmitGuess COLORS rnd nowMs => handleGuessSubmit COLORS rnd nowMs s
  | Skip => skipWord s
  | SlideWeight id value nowMs => updateWeight id value nowMs s
  | RemoveComponent id nowMs => handleMusicComponentRemoved id nowMs s
  | ChangeSettings detail nowMs => updateSettings nowMs detail s
  | PressPlayPause now => stateOf (handlePlayPause now s)
  | PlayPauseConnectSettled o nowMs now => handlePlayPause_resume o nowMs now s
  | PressReset shuffled nowMs now => stateOf (handleReset shuffled nowMs now s)
  | ResetConnectSettled o shuffled nowMs now =>
      stateOf (handleReset_resume o shuffled nowMs now s)
  | ResetConfigSettled => handleReset_finish s
  | FirstUpdated => stateOf (firstUpdated s)
  | FirstConnectSettled o nowMs => firstUpdated_resume o nowMs s
  | ServerMessage e now => stateOf (onmessage decode e now s)
  | DecodeSettled decodedData now => onmessage_resume decodeAudioData decodedData now s
  | PushRejected message now => setSessionMusicComponents_rejected message now s
  | ConnectionError message now => onerror message now s
  | ConnectionClosed wasClean now => onclose wasClean now s
  | PrerollElapsed => prerollTimerFired s
  | AudioContextChanged state => set_audioContextState state s
  end.

(** The one constraint on the platform values: a shuffle is a permutation. *)
Definition admissible (ev : Event) : Prop :=
  match ev with
  | PressReset shuffled _ _ | ResetConnectSettled _ shuffled _ _ =>
      shuffled ≡ₚ WORD_LIST_SOURCE
  | _ => True
  end.

Definition run (evs : list Event) (s : State) : State :=
  fold_left (fun s ev => dispatch ev s) evs s.

(** The states of the element.  A continuation may be dispatched whether or
    not its promise is pending, so every interleaving of the real event loop
    is among the runs considered. *)
Inductive reachable : State -> Prop :=
| reachable_constructed shuffled nowMs :
    shuffled ≡ₚ WORD_LIST_SOURCE -> reachable (constructed shuffled nowMs)
| reachable_dispatch ev s :
    admissible ev -> reachable s -> reachable (dispatch ev s).

End EventLoop.

(** ** What the page shows and the components around the game

    The statistic of [render]: [availableWords.length - currentWordIndex - 1]. *)
Definition wordsLeft (s : State) : Z :=
  Z.of_nat (length (availableWords s)) - currentWordIndex s - 1.

(** [handleGuessInputKeydown]: only the Enter key submits. *)
Definition handleGuessInputKeydown (key : string) (COLORS : list string)
    (rnd : nat) (nowMs : Z) (s : State) : State :=
  if String.eqb key "Enter" then handleGuessSubmit COLORS rnd nowMs s else s.

(** [ToastMessage]: the component behind [toastMessage.show].  Beside its
    fields the record holds the timers of the window that the component has
    set and that have neither fired nor been cleared; identifiers of timers
    are positive integers, so [if (this.timeoutId)] tests for [undefined]. *)
Module ToastMessage.

Record t := {
  message : string;
  showing : bool;
  timeoutId : option positive;
  pending : list (positive * Z);     (* identifier and delay of each live timer *)
  nextId : positive;                 (* the identifier [setTimeout] returns next *)
}.

Definition initial : t :=
  {| message := ""; showing := false; timeoutId := None; pending := [];
     nextId := 1%positive |}.

Definition clearTimeout (id : positive) (x : t) : t :=
  {| message := message x; showing := showing x; timeoutId := timeoutId x;
     pending := List.filter (fun p => negb (Pos.eqb (fst p) id)) (pending x);
     nextId := nextId x |}.

(** [this.timeoutId = window.setTimeout(() => this.hide(), duration)] *)
Definition setHideTimeout (duration : Z) (x : t) : t :=
  {| message := message x; showing := showing x;
     timeoutId := Some (nextId x);
     pending := pending x ++ [(nextId x, duration)];
     nextId := Pos.succ (nextId x) |}.

Definition show (m : string) (duration : Z) (x : t) : t :=
  let x := {| message := m; showing := true; timeoutId := timeoutId x;
              pending := pending x; nextId := nextId x |} in
  let x := match timeoutId x with
           | Some id => clearTimeout id x
           | None => x
           end in
  setHideTimeout duration x.

Definition hide (x : t) : t :=
  let x := {| message := message x; showing := false; timeoutId := timeoutId x;
              pending := pending x; nextId := nextId x |} in
  match timeoutId x with
  | Some id =>
      let x := clearTimeout id x in
      {| message := message x; showing := showing x; timeoutId := None;
         pending := pending x; nextId := nextId x |}
  | None => x
  end.

(** The window runs the callback of a live timer, which then is live no
    more; a timer that was cleared or has fired does nothing. *)
Definition timerFired (id : positive) (x : t) : t :=
  if existsb (fun p => Pos.eqb (fst p) id) (pending x)
  then hide (clearTimeout id x)
  else x.

Inductive Event :=
| Show (m : string) (duration : Z)
| Close                              (* the close button: [hide] *)
| Fired (id : positive).

Definition dispatch (ev : Event) (x : t) : t :=
  match ev with
  | Show m duration => show m duration x
  | Close => hide x
  | Fired id => timerFired id x
  end.

Definition run (evs : list Event) (x : t) : t :=
  fold_left (fun x ev => dispatch ev x) evs x.

End ToastMessage.

(** The calls of [toastMessage.show] among the effects of the game, in
    order. *)
Definition toastCalls (l : list Effect) : list ToastMessage.Event :=
  flat_map (fun e => match e with
                     | Toast m ms => [ToastMessage.Show m ms]
                     | _ => []
                     end) l.

(** [Math.min] and [Math.max] on two numbers: NaN when an argument is NaN,
    and -0 below +0. *)
Definition Math_min (a b : float) : float :=
  if is_nan a || is_nan b then nan
  else if (a <? b)%float then a
  else if (b <? a)%float then b
  else if get_sign a then a else b.

Definition Math_max (a b : float) : float :=
  if is_nan a || is_nan b then nan
  else if (a <? b)%float then b
  else if (b <? a)%float then a
  else if get_sign a then b else a.

(** [WeightSlider.handleWheel]: the new [value], which is also the detail of
    the [input] event it dispatches. *)
Definition handleWheel (deltaY : float) (value : float) : float :=
  let value := (value + deltaY * (- 0.005))%float in
  Math_max 0%float (Math_min 2%float value).

(** The wheel turned over the slider of the component stored under [id]:
    the slider shows the weight of the component ([.value=${this.weight}]),
    and its [input] event reaches [updateWeight]. *)
Definition wheelOnComponent (id : string) (deltaY : float) (nowMs : Z)
    (s : State) : State :=
  match JsMap.get id (musicComponents s) with
  | Some c => updateWeight id (handleWheel deltaY (weight c)) nowMs s
  | None => s
  end.

(** [SettingsController]: the configuration of the form with the state of
    the two Auto check boxes.  Of the controls only those for density and
    brightness are modelled; every handler ends in [dispatchSettingsChange],
    whose detail is the [config] of the new state. *)
Module SettingsController.

Record t := {
  config : LiveMusicGenerationConfig;
  autoDensity : bool;
  lastDefinedDensity : option float;
  autoBrightness : bool;
  lastDefinedBrightness : option float;
}.

Definition initial : t :=
  {| config := defaultConfig; autoDensity := true; lastDefinedDensity := None;
     autoBrightness := true; lastDefinedBrightness := None |}.

Definition resetToDefaults (x : t) : t :=
  {| config := defaultConfig; autoDensity := true; lastDefinedDensity := None;
     autoBrightness := true; lastDefinedBrightness := None |}.

(** The target of an [input] event with what the handler reads off it: for
    a range input [Number(target.value)], or [None] for an empty value; for
    a check box [target.checked]. *)
Inductive Target :=
| DensityRange (value : option float)          (* id="density" *)
| BrightnessRange (value : option float)       (* id="brightness" *)
| AutoDensityCheckbox (checked : bool)         (* id="auto-density" *)
| AutoBrightnessCheckbox (checked : bool).     (* id="auto-brightness" *)

Definition with_density (v : option float) (c : LiveMusicGenerationConfig)
    : LiveMusicGenerationConfig :=
  {| temperature := temperature c; topK := topK c; guidance := guidance c;
     seed := seed c; bpm := bpm c; density := v; brightness := brightness c;
     scale := scale c; muteBass := muteBass c; muteDrums := muteDrums c;
     onlyBassAndDrums := onlyBassAndDrums c |}.

Definition with_brightness (v : option float) (c : LiveMusicGenerationConfig)
    : LiveMusicGenerationConfig :=
  {| temperature := temperature c; topK := topK c; guidance := guidance c;
     seed := seed c; bpm := bpm c; density := density c; brightness := v;
     scale := scale c; muteBass := muteBass c; muteDrums := muteDrums c;
     onlyBassAndDrums := onlyBassAndDrums c |}.

Definition handleInputChange (target : Target) (x : t) : t :=
  match target with
  | AutoDensityCheckbox checked =>
      {| config := with_density
                     (if checked then None
                      else Some (default 0.5%float (lastDefinedDensity x)))
                     (config x);
         autoDensity := checked;
         lastDefinedDensity := lastDefinedDensity x;
         autoBrightness := autoBrightness x;
         lastDefinedBrightness := lastDefinedBrightness x |}
  | AutoBrightnessCheckbox checked =>
      {| config := with_brightness
                     (if checked then None
                      else Some (default 0.5%float (lastDefinedBrightness x)))
                     (config x);
         autoDensity := autoDensity x;
         lastDefinedDensity := lastDefinedDensity x;
         autoBrightness := checked;
         lastDefinedBrightness := lastDefinedBrightness x |}
  | DensityRange value =>
      {| config := with_density value (config x);
         autoDensity := autoDensity x;
         lastDefinedDensity := match value with
                               | Some v => Some v
                               | None => lastDefinedDensity x
                               end;
         autoBrightness := autoBrightness x;
         lastDefinedBrightness := lastDefinedBrightness x |}
  | BrightnessRange value =>
      {| config := with_brightness value (config x);
         autoDensity := autoDensity x;
         lastDefinedDensity := lastDefinedDensity x;
         autoBrightness := autoBrightness x;
         lastDefinedBrightness := match value with
                                  | Some v => Some v
                                  | None => lastDefinedBrightness x
                                  end |}
  end.

Definition run (targets : list Target) (x : t) : t :=
  fold_left (fun x target => handleInputChange target x) targets x.

End SettingsController.

(** ** Example runs

    Stand-ins for the two decoders of [utils]: every chunk decodes to 1500
    zero bytes, and the bytes make a buffer of [floor(bytes / 2 / channels)]
    frames: 375 frames of stereo 16-bit silence, 1/128 of a second. *)
Definition silentBytes : list Byte.byte := repeat Byte.x00 1500.

Definition silence (audioData : string) : option (list Byte.byte) :=
  Some silentBytes.

Definition framesBuffer (decodedData : list Byte.byte) (rate channels : Z)
    : option AudioBuffer :=
  let frames := Z.of_nat (length decodedData) / 2 / channels in
  Some {| duration := (of_uint63 (Uint63.of_Z frames)
                       / of_uint63 (Uint63.of_Z rate))%float |}.

Definition play : list Event -> State -> State := run silence framesBuffer.

Definition silentBuffer : AudioBuffer := {| duration := 0.0078125%float |}.

Definition audioMessage (audioData : string) : LiveMusicServerMessage :=
  {| setupComplete := false; filteredPrompt := None;
     audioChunks := Some [ {| data := Some audioData |} ] |}.

(** Settings with a tempo, unlike [defaultConfig]. *)
Definition slowConfig : LiveMusicGenerationConfig :=
  {| temperature := Some 1.1%float; topK := Some 40; guidance := Some 4%float;
     seed := None; bpm := Some 60; density := None; brightness := None;
     scale := None; muteBass := None; muteDrums := None;
     onlyBassAndDrums := None |}.

(** The element after its first update: connected, session 7. *)
Definition connectedGame : State :=
  play [FirstUpdated; FirstConnectSettled (Connected 7) 1000]
    (constructed WORD_LIST_SOURCE 0).

(** Play pressed at time 2. *)
Definition loadingGame : State := play [PressPlayPause 2%float] connectedGame.

(** The audio context runs, a first chunk is scheduled at 2.6 and the
    pre-roll is over: playing, with the clock at 2.6078125. *)
Definition playingGame : State :=
  play [AudioContextChanged running;
        ServerMessage (audioMessage "UklGRg==") 2.1%float;
        DecodeSettled silentBytes 2.1%float;
        PrerollElapsed]
    loadingGame.

(** The connection fails while playing. *)
Definition brokenGame : State :=
  play [ConnectionError "socket closed" 4%float] playingGame.

(** The first word, HAPPY, is typed, and then submitted. *)
Definition typedHappyGame : State := play [TypeGuess " happy"] connectedGame.

Definition happyGame : State :=
  play [SubmitGuess ["#9900ff"; "#5200ff"] 3 5000] typedHappyGame.

Definition happyComponent : MusicComponentData :=
  {| promptId := "component-0"; color := "#5200ff"; text := "HAPPY";
     weight := 0.5%float |}.

Definition happyFiltered : LiveMusicServerMessage :=
  {| setupComplete := false;
     filteredPrompt := Some {| fp_text := "HAPPY"; filteredReason := "policy" |};
     audioChunks := None |}.

(** 28 words skipped: the last word of the list is on display; it is typed,
    and then submitted, which wins the game. *)
Definition lastWordGame : State :=
  play (repeat Skip 28 ++ [TypeGuess "flow"]) (constructed WORD_LIST_SOURCE 0).

Definition wonGame : State := play [SubmitGuess [] 0 1000] lastWordGame.

(** * Vocabulary of the properties *)

(** What [pauseAudio] and [stopAudioAndSession] emit after the session call. *)
Definition rampDownEffects (wasRunning : bool) (node : nat) (now : float)
    : list Effect :=
  (if wasRunning
   then [GainHoldAt node now; GainLinearRampToValueAtTime node 0%float (now + 0.2)%float]
   else [])
  ++ [NodeDisconnect node; NodeConnectDestination (Datatypes.S node)].

(** The session call [f], issued only when a session exists. *)
Definition sessionCall (f : nat -> Effect) (s : State) : list Effect :=
  match session s with Some x => [f x] | None => [] end.

(** No [session.stop()] among the effects [l]. *)
Definition noStop (l : list Effect) : Prop :=
  forall x, ~ In (SessionStop x) l.

(** From [s] to [s'] the log has only grown, and by no [session.stop()]. *)
Definition appendsNoStop (s s' : State) : Prop :=
  exists l, log s' = log s ++ l /\ noStop l.

(** Fields that nothing after [pauseAudio] in [handleReset] writes. *)
Definition sameAudio (s s' : State) : Prop :=
  playbackState s' = playbackState s /\
  nextStartTime s' = nextStartTime s /\
  session s' = session s /\
  outputNode s' = outputNode s.

(** The outcome of the reset action once it has reached [pauseAudio] in
    state [s] at time [now]. *)
Definition resetOutcome (now : float) (s s' : State) : Prop :=
  playbackState s' = paused /\
  nextStartTime s' = 0%float /\
  appendsNoStop s s' /\
  (forall x, session s = Some x ->
     In (SessionPause x) (log s') /\ In (SessionResetContext x) (log s')) /\
  (isRunning s = true ->
   In (GainLinearRampToValueAtTime (outputNode s) 0%float (now + 0.2)%float) (log s')).

(** The start time the continuation computes: a pre-roll after [now] when
    the clock is not primed, the clock itself otherwise. *)
Definition startTime (now : float) (s : State) : float :=
  if (nextStartTime s =? 0)%float then (now + bufferTime)%float
  else nextStartTime s.

(** The pre-roll timer, armed only by the call that primes the clock. *)
Definition primingEffects (s : State) : list Effect :=
  if (nextStartTime s =? 0)%float
  then [SetTimeout PrerollTimer (bufferTime * 1000)%float]
  else [].

(** The components [m], the counter [next], the filtered set and the word
    list fit together, all component texts being words at an index below
    [bound]. *)
Record gameInv (bound : Z) (m : list (string * MusicComponentData)) (next : nat)
    (filtered : gset string) (words : list string) : Prop := {
  inv_ids : forall k c, (k, c) ∈ m ->
      promptId c = k /\ exists j, (j < next)%nat /\ k = componentId j;
  inv_keys : NoDup (JsMap.keys m);
  inv_filtered : forall id, id ∈ filtered -> id ∈ JsMap.keys m;
  inv_words : NoDup words;
  inv_texts : forall c, c ∈ JsMap.values m ->
      exists i : nat, Z.of_nat i < bound /\ words !! i = Some (text c);
  inv_texts_unique : NoDup (map text (JsMap.values m));
}.

(** The invariant: the game data fit together, and while the game is not won
    the word on display is the word at [currentWordIndex]. *)
Definition wellFormed (s : State) : Prop :=
  gameInv (currentWordIndex s) (musicComponents s) (nextComponentId s)
    (filteredComponents s) (availableWords s) /\
  0 <= currentWordIndex s /\
  (gameWon s = false ->
   at_index (availableWords s) (currentWordIndex s) = Some (currentWordToGuess s)).

(** The fields the invariant speaks about. *)
Definition game (s : State) :=
  (musicComponents s, nextComponentId s, filteredComponents s, availableWords s,
   currentWordToGuess s, currentWordIndex s, gameWon s).

(** The component a correct guess creates. *)
Definition newComponent (COLORS : list string) (rnd : nat) (s : State)
    : MusicComponentData :=
  {| promptId := componentId (nextComponentId s);
     text := currentWordToGuess s;
     weight := 0.5%float;
     color := getUnusedRandomColor COLORS rnd
                (map color (JsMap.values (musicComponents s))) |}.

(** The state of a correct guess when the throttled push is called. *)
Definition withNewComponent (COLORS : list string) (rnd : nat) (s : State) : State :=
  set_musicComponents
    (JsMap.set (componentId (nextComponentId s)) (newComponent COLORS rnd s)
       (musicComponents s))
    (set_nextComponentId (Datatypes.S (nextComponentId s))
       (toast ("Correct: " +:+ currentWordToGuess s +:+ "!") 2000 s)).

(** Events after which a component filtered before is still in the map:
    all but its removal and the reset of the game. *)
Definition keepsComponent (id : string) (ev : Event) : Prop :=
  match ev with
  | RemoveComponent id' _ => id' <> id
  | PressReset _ _ _ | ResetConnectSettled _ _ _ _ => False
  | _ => True
  end.

(** No push of prompts among the effects [l]. *)
Definition noPush (l : list Effect) : Prop :=
  forall x ps, ~ In (SetWeightedPrompts x ps) l.

(** From [s] to [s'] the log has only grown, and by no push of prompts. *)
Definition appendsNoPush (s s' : State) : Prop :=
  exists l, log s' = log s ++ l /\ noPush l.

(** From [s] to [s'] the log has only grown, and every list of prompts
    pushed on the way is the snapshot of [s']. *)
Definition pushesSnapshot (s s' : State) : Prop :=
  exists l, log s' = log s ++ l /\
            forall x ps, In (SetWeightedPrompts x ps) l -> ps = weightedPrompts s'.

(** The events that change the components, with the time at which their
    handler calls the throttled push: a correct guess, and the slider and
    the remove button of a component that is in the map. *)
Definition pushTime (ev : Event) (s : State) : option Z :=
  match ev with
  | SubmitGuess _ _ nowMs =>
      if negb (gameWon s)
         && negb (String.eqb (normalise (guessInputValue s)) "")
         && String.eqb (normalise (guessInputValue s)) (currentWordToGuess s)
      then Some nowMs
      else None
  | SlideWeight id _ nowMs | RemoveComponent id nowMs =>
      if JsMap.has id (musicComponents s) then Some nowMs else None
  | _ => None
  end.

(** A series of submissions, each with the text typed before it. *)
Definition submitAll (submissions : list (string * list string * nat * Z))
    (s : State) : State :=
  fold_left
    (fun s '(value, COLORS, rnd, nowMs) =>
       handleGuessSubmit COLORS rnd nowMs (set_guessInputValue value s))
    submissions s.

(** The toast of a submission after the game is won. *)
Definition gameOver : Effect := Toast "Game over! Reset to play again." 3000.






(** ** Vocabulary of the further properties *)

(** A series of calls of one throttled function, each with the time at
    which it is made. *)
Definition throttleAll {A S : Type} (func : A -> S -> S) (delay : Z)
    (lastCall : S -> Z) (set_lastCall : Z -> S -> S)
    (calls : list (Z * A)) (s : S) : S :=
  fold_left (fun s '(now, args) => throttle func delay lastCall set_lastCall now args s)
    calls s.

(** The toast of the play/pause button when it is pressed while loading. *)
Definition stoppedWhileLoading (s : State) : list Effect :=
  match playbackState s with
  | loading => [Toast "Playback stopped. Please try playing again." 3000]
  | _ => []
  end.

(** [audioContext.resume()], called only on a suspended context. *)
Definition resumeEffects (s : State) : list Effect :=
  match audioContextState s with
  | suspended => [AudioContextResume]
  | _ => []
  end.

(** The connection is lost: [onerror] with its message, or [onclose] with
    [wasClean] false. *)
Definition connectionLost (cause : option string) (now : float) (s : State) : State :=
  match cause with
  | Some message => onerror message now s
  | None => onclose false now s
  end.

(** The state of a message once its set-up and filter parts are done. *)
Definition afterHeader (e : LiveMusicServerMessage) (s : State) : State :=
  onFilteredPrompt e (if setupComplete e then set_connectionError false s else s).

(** A chunk the audio path gives up on with a warning: no data, blank data,
    no decoded bytes, or a buffer of no duration. *)
Definition unusable (decode : string -> option (list Byte.byte))
    (decodeAudioData : list Byte.byte -> Z -> Z -> option AudioBuffer)
    (chunk : AudioChunk) : Prop :=
  match data chunk with
  | None => True
  | Some d =>
      JsString.trim d = "" \/
      decode d = Some [] \/
      exists decodedData b,
        decode d = Some decodedData /\
        decodeAudioData decodedData sampleRate 2 = Some b /\
        (duration b =? 0)%float = true
  end.

(** A chunk whose decoding fails: [decode] throws, or the promise of
    [decodeAudioData] rejects. *)
Definition undecodable (decode : string -> option (list Byte.byte))
    (decodeAudioData : list Byte.byte -> Z -> Z -> option AudioBuffer)
    (d : string) : Prop :=
  decode d = None \/
  exists decodedData,
    decode d = Some decodedData /\ decodedData <> [] /\
    decodeAudioData decodedData sampleRate 2 = None.

(** What the [catch] block of the audio path reports. *)
Definition audioErrorEffects : list Effect :=
  [ConsoleError "Error processing audio chunk:";
   Toast "Error playing audio. Check console." 3000].

(** The push of the prompts by [initializeGame]: the list is empty, and the
    call is made when there is a session and the throttle is open. *)
Definition pushOfNothing (nowMs : Z) (s : State) : list Effect :=
  if 200 <=? nowMs - lastCallComponents s
  then sessionCall (fun x => SetWeightedPrompts x []) s
  else [].

(** The push of the default settings by [resetToDefaults], likewise. *)
Definition pushOfDefaults (nowMs : Z) (s : State) : list Effect :=
  if 200 <=? nowMs - lastCallSettings s
  then sessionCall (fun x => SetMusicGenerationConfig x defaultConfig) s
  else [].

(** The end of [handleReset] after a pause: the context of the session is
    reset and the default settings are sent; without a session only the
    timer is set. *)
Definition resetTail (s : State) : list Effect :=
  match session s with
  | Some x => [SessionResetContext x; SetMusicGenerationConfig x defaultConfig]
  | None => [SetTimeout ResetTimer 300%float]
  end.

(** How far the game has got. *)
Definition progress (s : State) :=
  (availableWords s, currentWordIndex s, gameWon s).

(** The word list is a shuffle of the source, and a won game has its index
    past the end of the list. *)
Definition progressInv (s : State) : Prop :=
  availableWords s ≡ₚ WORD_LIST_SOURCE /\
  (gameWon s = true -> Z.of_nat (length (availableWords s)) <= currentWordIndex s).

(** The fields of the audio side. *)
Definition audio (s : State) :=
  (playbackState s, nextStartTime s, session s, outputNode s, connectionError s,
   audioContextState s).

(** What the player does to the game: typing, guessing, skipping, sliders,
    remove buttons and the settings form. *)
Definition isGameInput (ev : Event) : bool :=
  match ev with
  | TypeGuess _ | SubmitGuess _ _ _ | Skip | SlideWeight _ _ _
  | RemoveComponent _ _ | ChangeSettings _ _ => true
  | _ => false
  end.

(** What happens on the audio side: the play/pause button, the callbacks of
    the connection without the messages of the server, rejected pushes,
    settled promises and timers. *)
Definition isPlaybackEvent (ev : Event) : bool :=
  match ev with
  | PressPlayPause _ | PlayPauseConnectSettled _ _ _ | ResetConfigSettled
  | FirstUpdated | FirstConnectSettled _ _ | DecodeSettled _ _
  | PushRejected _ _ | ConnectionError _ _ | ConnectionClosed _ _
  | PrerollElapsed | AudioContextChanged _ => true
  | _ => false
  end.

(** The message shown for a rejected push: [e.message || "Error ..."]. *)
Definition rejectionMessage (message : string) : string :=
  match message with
  | EmptyString => "Error updating music components."
  | _ => message
  end.

(** The toast and its timer fit together: while a timer is kept in
    [timeoutId] the toast shows and that timer is the one live timer; without
    one the toast is hidden and no timer is live. *)
Definition toastInv (x : ToastMessage.t) : Prop :=
  match ToastMessage.timeoutId x with
  | Some id =>
      ToastMessage.showing x = true /\
      exists duration, ToastMessage.pending x = [(id, duration)]
  | None => ToastMessage.showing x = false /\ ToastMessage.pending x = []
  end.

(** The toast as [show] leaves it: [message] on display and one live timer,
    [id], of [duration] ms. *)
Definition shown (message : string) (duration : Z) (id next : positive)
    : ToastMessage.t :=
  {| ToastMessage.message := message; ToastMessage.showing := true;
     ToastMessage.timeoutId := Some id;
     ToastMessage.pending := [(id, duration)];
     ToastMessage.nextId := next |}.

(** The toast hidden, with the text it had. *)
Definition hidden (message : string) (next : positive) : ToastMessage.t :=
  {| ToastMessage.message := message; ToastMessage.showing := false;
     ToastMessage.timeoutId := None; ToastMessage.pending := [];
     ToastMessage.nextId := next |}.

(** What [connectToSession] reports when the connect call fails. *)
Definition connectFailedEffects : list Effect :=
  [ConsoleError "Failed to connect to session:";
   Toast "Failed to connect to music session. Retrying may be needed." 5000].

(** The push of the prompts of [s] on session [x], made when the throttle
    is open at [nowMs]. *)
Definition pushOfPrompts (x : nat) (nowMs : Z) (s : State) : list Effect :=
  if 200 <=? nowMs - lastCallComponents s
  then [SetWeightedPrompts x (weightedPrompts s)]
  else [].

(** The density and the brightness of the configuration are absent or the
    remembered slider values, 0.5 standing in while nothing is remembered. *)
Definition settingsInv (x : SettingsController.t) : Prop :=
  (density (SettingsController.config x) = None \/
   density (SettingsController.config x)
   = Some (default 0.5%float (SettingsController.lastDefinedDensity x))) /\
  (brightness (SettingsController.config x) = None \/
   brightness (SettingsController.config x)
   = Some (default 0.5%float (SettingsController.lastDefinedBrightness x))).

(** * Properties *)

(** ** Symbolic execution of the handlers *)

(** Unfolds the setters and projections of [State] and the small helpers
    every method is built from, leaving set and float operations alone. *)
Ltac step_state :=
  unfold toast, withSession, needsConnect in *;
  unfold emit, isRunning, isActive, isHalted, hasSession in *;
  cbn [set_musicComponents set_nextComponentId set_session set_audioContextState
       set_outputNode set_nextStartTime set_playbackState set_filteredComponents
       set_connectionError set_guessInputValue set_availableWords
       set_currentWordToGuess set_currentWordIndex set_gameWon
       set_lastCallComponents set_lastCallSettings set_log
       musicComponents nextComponentId session audioContextState outputNode
       nextStartTime playbackState filteredComponents connectionError
       guessInputValue availableWords currentWordToGuess currentWordIndex
       gameWon lastCallComponents lastCallSettings log
       stateOf negb andb orb] in *.

Ltac unfold_audio :=
  unfold pauseAudio, stopAudioAndSession, loadAudio, rampDownAndReplaceNode in *.

Ltac unfold_push :=
  unfold setSessionMusicComponents, updateSettings, pushComponents, pushSettings,
    throttle in *.

(** Splits on the test of every [if] and [match] left in the goal,
    innermost first. *)
Ltac atomic_test x :=
  lazymatch x with
  | context [match _ with _ => _ end] => fail
  | _ => idtac
  end.

Ltac split_ifs :=
  step_state;
  repeat (match goal with
          | |- context [match ?x with _ => _ end] =>
              atomic_test x; destruct x eqn:?
          end; step_state).

(** Finds an element in an explicit list. *)
Ltac find_in := repeat first [ left; reflexivity | right ].

Lemma app_cons_assoc {A} (l : list A) (x : A) (r : list A) :
  (l ++ [x]) ++ r = l ++ x :: r.
Proof. by rewrite <- app_assoc. Qed.

(** ** Throttle *)

Section ThrottleFacts.
Context {A S : Type}.
Variable func : A -> S -> S.
Variable delay : Z.
Variable lastCall : S -> Z.
Variable set_lastCall : Z -> S -> S.

Lemma throttle_open now args s :
  delay <= now - lastCall s ->
  throttle func delay lastCall set_lastCall now args s
  = set_lastCall now (func args s).
Proof.
  intros H. unfold throttle. destruct (Z.leb_spec delay (now - lastCall s)); [done | lia].
Qed.

Lemma throttle_closed now args s :
  now - lastCall s < delay ->
  throttle func delay lastCall set_lastCall now args s = s.
Proof.
  intros H. unfold throttle. destruct (Z.leb_spec delay (now - lastCall s)); [lia | done].
Qed.

End ThrottleFacts.

Lemma updateSettings_open nowMs detail s x :
  session s = Some x ->
  200 <= nowMs - lastCallSettings s ->
  updateSettings nowMs detail s
  = set_lastCallSettings nowMs (emit (SetMusicGenerationConfig x detail) s).
Proof.
  intros Hs Ht. unfold updateSettings. rewrite throttle_open by done.
  unfold pushSettings, withSession. by rewrite Hs.
Qed.

Lemma setSessionMusicComponents_open nowMs s x :
  session s = Some x ->
  200 <= nowMs - lastCallComponents s ->
  setSessionMusicComponents nowMs s
  = set_lastCallComponents nowMs (emit (SetWeightedPrompts x (weightedPrompts s)) s).
Proof.
  intros Hs Ht. unfold setSessionMusicComponents. rewrite throttle_open by done.
  unfold pushComponents. by rewrite Hs.
Qed.

Lemma setSessionMusicComponents_closed nowMs s :
  nowMs - lastCallComponents s < 200 ->
  setSessionMusicComponents nowMs s = s.
Proof. intros. unfold setSessionMusicComponents. by rewrite throttle_closed. Qed.

Lemma updateSettings_closed nowMs detail s :
  nowMs - lastCallSettings s < 200 ->
  updateSettings nowMs detail s = s.
Proof. intros. unfold updateSettings. by rewrite throttle_closed. Qed.

(** C1, as stated, fails: of two settings changes 100 ms apart the session
    receives the first one; the second is dropped and never flushed. *)
Lemma throttle_second_call_not_flushed :
  let s1 := updateSettings 5000 slowConfig connectedGame in
  let s2 := updateSettings 5100 defaultConfig s1 in
  5100 - 5000 < 200 /\
  log s2 = log connectedGame ++ [SetMusicGenerationConfig 7 slowConfig] /\
  ~ In (SetMusicGenerationConfig 7 defaultConfig) (log s2).
Proof.
  vm_compute. split; [done |]. split; [done |].
  intros H. repeat (destruct H as [H | H]; [discriminate H |]). exact H.
Qed.

(** C1 (amended): of two invocations of a throttled push less than 200 ms
    apart, the first of which opens the window, exactly one call is
    dispatched and it carries the arguments (for [updateSettings]) or the
    component snapshot (for [setSessionMusicComponents]) of the FIRST
    invocation; the second invocation changes nothing at all.  What the
    second wanted reaches the session only through a later invocation, at
    least 200 ms after the first, which is dispatched with the state it then
    finds. *)
Theorem throttled_pair_dispatches_first (s : State) (x : nat) (t1 t2 : Z) :
  session s = Some x ->
  t2 - t1 < 200 ->
  (200 <= t1 - lastCallSettings s ->
   forall a b,
     let s1 := updateSettings t1 a s in
     log s1 = log s ++ [SetMusicGenerationConfig x a] /\
     updateSettings t2 b s1 = s1 /\
     forall t3 c, 200 <= t3 - t1 ->
       log (updateSettings t3 c s1) = log s1 ++ [SetMusicGenerationConfig x c])
  /\
  (200 <= t1 - lastCallComponents s ->
   let s1 := setSessionMusicComponents t1 s in
   log s1 = log s ++ [SetWeightedPrompts x (weightedPrompts s)] /\
   lastCallComponents s1 = t1 /\
   forall s', lastCallComponents s' = t1 ->
     setSessionMusicComponents t2 s' = s' /\
     forall t3, session s' = Some x -> 200 <= t3 - t1 ->
       log (setSessionMusicComponents t3 s')
       = log s' ++ [SetWeightedPrompts x (weightedPrompts s')]).
Proof.
  intros Hs Ht. split.
  - intros Ho a b s1. subst s1.
    rewrite (updateSettings_open _ _ _ x) by done.
    destruct s. step_state. split; [done |]. split.
    + apply updateSettings_closed. step_state. lia.
    + intros t3 c H3. rewrite (updateSettings_open _ _ _ x); step_state; done.
  - intros Ho s1. subst s1.
    rewrite (setSessionMusicComponents_open _ _ x) by done.
    split; [by destruct s |]. split; [by destruct s |].
    intros s' Hl. split.
    + apply setSessionMusicComponents_closed. lia.
    + intros t3 Hs' H3.
      rewrite (setSessionMusicComponents_open _ _ x) by (done || lia).
      by destruct s'.
Qed.

Lemma throttled_pair_dispatches_first_witness :
  let s1 := updateSettings 5000 slowConfig connectedGame in
  log s1 = log connectedGame ++ [SetMusicGenerationConfig 7 slowConfig] /\
  updateSettings 5100 defaultConfig s1 = s1.
Proof.
  destruct (throttled_pair_dispatches_first connectedGame 7 5000 5100)
    as [H _]; [reflexivity | lia |].
  destruct (H ltac:(vm_compute; discriminate) slowConfig defaultConfig) as (H1 & H2 & _).
  split; [exact H1 | exact H2].
Defined.

(** ** Stop, pause and reset *)

Lemma pauseAudio_fields now s :
  playbackState (pauseAudio now s) = paused /\
  nextStartTime (pauseAudio now s) = 0%float /\
  outputNode (pauseAudio now s) = Datatypes.S (outputNode s).
Proof. unfold_audio. split_ifs; done. Qed.

Lemma pauseAudio_log now s :
  log (pauseAudio now s)
  = log s ++ sessionCall SessionPause s
      ++ rampDownEffects (isRunning s) (outputNode s) now.
Proof.
  unfold_audio; unfold rampDownEffects, sessionCall; split_ifs;
    rewrite ?app_cons_assoc, ?app_nil_r; reflexivity.
Qed.

Lemma stopAudioAndSession_log now s :
  log (stopAudioAndSession now s)
  = log s ++ sessionCall SessionStop s
      ++ rampDownEffects (isRunning s) (outputNode s) now.
Proof.
  unfold_audio; unfold rampDownEffects, sessionCall; split_ifs;
    rewrite ?app_cons_assoc, ?app_nil_r; reflexivity.
Qed.

Lemma noStop_nil : noStop [].
Proof. intros x []. Qed.

Lemma noStop_cons e l :
  (forall x, e <> SessionStop x) -> noStop l -> noStop (e :: l).
Proof. intros He Hl x [H | H]; [by eapply He | by eapply Hl]. Qed.

Lemma noStop_app l1 l2 : noStop l1 -> noStop l2 -> noStop (l1 ++ l2).
Proof. intros H1 H2 x [H | H]%in_app_or; [by eapply H1 | by eapply H2]. Qed.

Lemma appendsNoStop_refl s : appendsNoStop s s.
Proof. exists []. split; [by rewrite app_nil_r | apply noStop_nil]. Qed.

Lemma appendsNoStop_trans s1 s2 s3 :
  appendsNoStop s1 s2 -> appendsNoStop s2 s3 -> appendsNoStop s1 s3.
Proof.
  intros (l1 & E1 & N1) (l2 & E2 & N2). exists (l1 ++ l2). split.
  - by rewrite E2, E1, app_assoc.
  - by apply noStop_app.
Qed.

Lemma appendsNoStop_emit e s :
  (forall x, e <> SessionStop x) -> appendsNoStop s (emit e s).
Proof.
  intros He. exists [e]. split; [by destruct s |].
  apply noStop_cons; [done | apply noStop_nil].
Qed.

Lemma appendsNoStop_same_log s s' : log s' = log s -> appendsNoStop s s'.
Proof. intros E. exists []. split; [by rewrite app_nil_r | apply noStop_nil]. Qed.

Lemma pauseAudio_noStop now s : appendsNoStop s (pauseAudio now s).
Proof.
  eexists. split; [apply pauseAudio_log |].
  apply noStop_app.
  - unfold sessionCall. destruct (session s); [| apply noStop_nil].
    apply noStop_cons; [done | apply noStop_nil].
  - unfold rampDownEffects. apply noStop_app.
    + destruct (isRunning s); repeat (apply noStop_cons; [done |]); apply noStop_nil.
    + repeat (apply noStop_cons; [done |]); apply noStop_nil.
Qed.

Ltac solve_noStop :=
  repeat (apply noStop_cons; [done |]); apply noStop_nil.

(** Closes [appendsNoStop s s'] once the log of [s'] is explicit. *)
Ltac solve_appends :=
  split_ifs;
  first [ apply appendsNoStop_same_log; reflexivity
        | eexists; split;
          [ step_state; rewrite ?app_cons_assoc; reflexivity | solve_noStop ] ].

Lemma setSessionMusicComponents_noStop nowMs s :
  appendsNoStop s (setSessionMusicComponents nowMs s).
Proof. unfold_push. solve_appends. Qed.

Lemma updateSettings_noStop nowMs detail s :
  appendsNoStop s (updateSettings nowMs detail s).
Proof. unfold_push. solve_appends. Qed.

Lemma fetchNextWord_noStop s : appendsNoStop s (fetchNextWord s).
Proof. unfold fetchNextWord. solve_appends. Qed.

Lemma initializeGame_noStop shuffled nowMs s :
  appendsNoStop s (initializeGame shuffled nowMs s).
Proof.
  unfold initializeGame.
  set (s0 := set_filteredComponents _ _).
  assert (H0 : appendsNoStop s s0) by (apply appendsNoStop_same_log; by destruct s).
  eapply appendsNoStop_trans; [exact H0 |].
  eapply appendsNoStop_trans; [apply fetchNextWord_noStop |].
  destruct (session _); [apply setSessionMusicComponents_noStop | apply appendsNoStop_refl].
Qed.

Lemma handleReset_finish_noStop s : appendsNoStop s (handleReset_finish s).
Proof.
  unfold handleReset_finish. solve_appends.
Qed.

Lemma sameAudio_refl s : sameAudio s s.
Proof. done. Qed.

Lemma sameAudio_trans s1 s2 s3 : sameAudio s1 s2 -> sameAudio s2 s3 -> sameAudio s1 s3.
Proof. unfold sameAudio. intros (-> & -> & -> & ->) (-> & -> & -> & ->). done. Qed.

Lemma setSessionMusicComponents_sameAudio nowMs s :
  sameAudio s (setSessionMusicComponents nowMs s).
Proof. unfold_push. split_ifs; done. Qed.

Lemma updateSettings_sameAudio nowMs detail s :
  sameAudio s (updateSettings nowMs detail s).
Proof. unfold_push. split_ifs; done. Qed.

Lemma fetchNextWord_sameAudio s : sameAudio s (fetchNextWord s).
Proof. unfold fetchNextWord. split_ifs; done. Qed.

Lemma initializeGame_sameAudio shuffled nowMs s :
  sameAudio s (initializeGame shuffled nowMs s).
Proof.
  unfold initializeGame.
  set (s0 := set_filteredComponents _ _).
  assert (H0 : sameAudio s s0) by (by destruct s).
  eapply sameAudio_trans; [exact H0 |].
  eapply sameAudio_trans; [apply fetchNextWord_sameAudio |].
  destruct (session _); [apply setSessionMusicComponents_sameAudio | done].
Qed.

Lemma resetToDefaults_sameAudio nowMs s : sameAudio s (resetToDefaults nowMs s).
Proof.
  unfold resetToDefaults.
  eapply sameAudio_trans; [| apply updateSettings_sameAudio]. by destruct s.
Qed.

Lemma resetToDefaults_noStop nowMs s : appendsNoStop s (resetToDefaults nowMs s).
Proof.
  unfold resetToDefaults.
  eapply appendsNoStop_trans; [| apply updateSettings_noStop].
  solve_appends.
Qed.

Lemma appendsNoStop_In e s s' :
  appendsNoStop s s' -> In e (log s) -> In e (log s').
Proof. intros (l & -> & _) H. apply in_or_app. by left. Qed.

Lemma pauseAudio_session now s : session (pauseAudio now s) = session s.
Proof. unfold_audio. split_ifs; done. Qed.

Lemma pauseAudio_In_pause now s x :
  session s = Some x -> In (SessionPause x) (log (pauseAudio now s)).
Proof.
  intros Hx. rewrite pauseAudio_log. unfold sessionCall. rewrite Hx.
  apply in_or_app. right. by left.
Qed.

Lemma pauseAudio_In_ramp now s :
  isRunning s = true ->
  In (GainLinearRampToValueAtTime (outputNode s) 0%float (now + 0.2)%float)
    (log (pauseAudio now s)).
Proof.
  intros Hr. rewrite pauseAudio_log. unfold rampDownEffects. rewrite Hr.
  apply in_or_app. right. apply in_or_app. right. cbn. tauto.
Qed.

(** The last part of [handleReset_body], entered in state [s3]. *)
Lemma handleReset_tail_outcome now s s3 :
  playbackState s3 = paused ->
  nextStartTime s3 = 0%float ->
  session s3 = session s ->
  appendsNoStop s s3 ->
  (forall x, session s = Some x -> In (SessionPause x) (log s3)) ->
  (isRunning s = true ->
   In (GainLinearRampToValueAtTime (outputNode s) 0%float (now + 0.2)%float) (log s3)) ->
  resetOutcome now s
    (stateOf
       match session s3 with
       | Some x =>
           Await AwaitConfig
             (emit (SetMusicGenerationConfig x defaultConfig)
                (emit (SessionResetContext x) s3))
       | None => Done (handleReset_finish s3)
       end).
Proof.
  intros Hp3 Ht3 Hs3 N03 Hin Hramp. unfold resetOutcome.
  destruct (session s3) as [x |] eqn:E3; cbn [stateOf].
  - split; [done |]. split; [done |]. split; [| split].
    + eapply appendsNoStop_trans; [exact N03 |].
      exists [SessionResetContext x; SetMusicGenerationConfig x defaultConfig].
      split; [cbn; by rewrite app_cons_assoc | solve_noStop].
    + intros y Hy. cbn. split.
      * apply in_or_app. left. apply in_or_app. left. by apply Hin.
      * assert (y = x) as -> by congruence.
        apply in_or_app. left. apply in_or_app. right. by left.
    + intros Hr. cbn. apply in_or_app. left. apply in_or_app. left. by apply Hramp.
  - unfold handleReset_finish. rewrite Hp3.
    cbn [log emit set_log playbackState set_playbackState nextStartTime].
    split; [done |]. split; [done |]. split; [| split].
    + eapply appendsNoStop_trans; [exact N03 |].
      exists [SetTimeout ResetTimer 300%float]. split; [done | solve_noStop].
    + intros y Hy. congruence.
    + intros Hr. apply in_or_app. left. by apply Hramp.
Qed.

Lemma handleReset_body_outcome shuffled nowMs now s :
  resetOutcome now s (stateOf (handleReset_body shuffled nowMs now s)).
Proof.
  unfold handleReset_body.
  destruct (pauseAudio_fields now s) as (Hp & Ht & _).
  pose proof (pauseAudio_session now s) as Hs1.
  pose proof (pauseAudio_noStop now s) as N01.
  pose proof (pauseAudio_In_pause now s) as Hin.
  pose proof (pauseAudio_In_ramp now s) as Hramp.
  generalize dependent (pauseAudio now s). intros s1 Hp Ht Hs1 N01 Hin Hramp.
  pose proof (initializeGame_sameAudio shuffled nowMs s1) as A12.
  pose proof (initializeGame_noStop shuffled nowMs s1) as N12.
  generalize dependent (initializeGame shuffled nowMs s1). intros s2 A12 N12.
  pose proof (resetToDefaults_sameAudio nowMs s2) as A23.
  pose proof (resetToDefaults_noStop nowMs s2) as N23.
  generalize dependent (resetToDefaults nowMs s2). intros s3 A23 N23.
  destruct A12 as (Hp2 & Ht2 & Hs2 & _). destruct A23 as (Hp3 & Ht3 & Hs3 & _).
  assert (N13 : appendsNoStop s1 s3)
    by (eapply appendsNoStop_trans; [exact N12 | exact N23]).
  apply handleReset_tail_outcome.
  - congruence.
  - congruence.
  - congruence.
  - eapply appendsNoStop_trans; [exact N01 | exact N13].
  - intros x Hx. eapply (appendsNoStop_In _ s1); [exact N13 | by apply Hin].
  - intros Hr. eapply (appendsNoStop_In _ s1); [exact N13 | by apply Hramp].
Qed.

(** C2, as stated, fails: pressing reset while playing leaves the player
    paused, after [session.pause()], and [session.stop()] is never issued. *)
Lemma reset_pauses_instead_of_stopping :
  let s' := stateOf (handleReset WORD_LIST_SOURCE 9000 3%float playingGame) in
  playbackState s' = paused /\
  playbackState s' <> stopped /\
  In (SessionPause 7) (log s') /\
  ~ In (SessionStop 7) (log s').
Proof.
  vm_compute. split; [done |]. split; [done |]. split.
  - find_in.
  - intros H. repeat (destruct H as [H | H]; [discriminate H |]). exact H.
Qed.

(** C2 (amended): [stopAudioAndSession], from any playback state, sets the
    state to [stopped], resets [nextStartTime] to 0, issues [session.stop()]
    when a session exists and ramps the gain down when the audio context is
    running; no user action calls it.  The reset action runs [pauseAudio]
    instead: once it is past its optional reconnect it leaves the state
    [paused] with [nextStartTime] 0, issues [session.pause()] and
    [session.resetContext()] when a session exists, never [session.stop()],
    and ramps the gain down when the audio context is running. *)
Theorem stop_helper_stops_and_reset_pauses (now : float) (s : State) :
  (let s' := stopAudioAndSession now s in
   playbackState s' = stopped /\
   nextStartTime s' = 0%float /\
   log s' = log s ++ sessionCall SessionStop s
              ++ rampDownEffects (isRunning s) (outputNode s) now)
  /\
  (forall shuffled nowMs,
     (needsConnect s = false ->
      resetOutcome now (toast "Resetting game and music..." 2000 s)
        (stateOf (handleReset shuffled nowMs now s))) /\
     (needsConnect s = true ->
      handleReset shuffled nowMs now s
      = Await AwaitConnect
          (emit Connect (toast "Resetting game and music..." 2000 s))) /\
     (forall o,
        resetOutcome now (connectToSession_resume o s)
          (stateOf (handleReset_resume o shuffled nowMs now s)))).
Proof.
  split.
  - split; [| split; [| apply stopAudioAndSession_log]];
      unfold_audio; split_ifs; done.
  - intros shuffled nowMs.
    assert (E : needsConnect (toast "Resetting game and music..." 2000 s)
                = needsConnect s) by done.
    split; [| split].
    + intros Hn. unfold handleReset. rewrite E, Hn. apply handleReset_body_outcome.
    + intros Hn. unfold handleReset. by rewrite E, Hn.
    + intros o. apply handleReset_body_outcome.
Qed.

Lemma stop_helper_stops_and_reset_pauses_witness :
  needsConnect playingGame = false /\
  resetOutcome 3%float (toast "Resetting game and music..." 2000 playingGame)
    (stateOf (handleReset WORD_LIST_SOURCE 9000 3%float playingGame)).
Proof.
  split; [vm_compute; reflexivity |].
  destruct (stop_helper_stops_and_reset_pauses 3%float playingGame) as [_ H].
  destruct (H WORD_LIST_SOURCE 9000) as [H1 _].
  apply H1. vm_compute. reflexivity.
Defined.

(** ** The audio path of [onmessage] *)

Section AudioPath.
Variable decode : string -> option (list Byte.byte).
Variable decodeAudioData : list Byte.byte -> Z -> Z -> option AudioBuffer.

(** While paused or stopped an arriving chunk is dropped before [decode]:
    the callback ends at once and does no more than the set-up and filter
    parts did. *)
Lemma onmessage_halted_drops e now s :
  let s1 := onFilteredPrompt e
              (if setupComplete e then set_connectionError false s else s) in
  isHalted s = true ->
  onmessage decode e now s = Done s1.
Proof.
  intros s1 Hh. unfold onmessage. fold s1.
  assert (H1 : isHalted s1 = true).
  { revert Hh. unfold s1, onFilteredPrompt. split_ifs; done. }
  rewrite H1. by destruct (audioChunks e) as [[| chunk rest] |].
Qed.

(** So a message that is handled without interruption does nothing to the
    audio while paused or stopped. *)
Lemma onmessage_atomic_halted e now s :
  isHalted s = true ->
  onmessage_atomic decode decodeAudioData e now s
  = onFilteredPrompt e (if setupComplete e then set_connectionError false s else s).
Proof.
  intros Hh. unfold onmessage_atomic. by rewrite onmessage_halted_drops.
Qed.

Lemma onmessage_resume_scheduled decodedData audioBuffer now s :
  decodeAudioData decodedData sampleRate 2 = Some audioBuffer ->
  (duration audioBuffer =? 0)%float = false ->
  (startTime now s <? now)%float = false ->
  let s' := onmessage_resume decodeAudioData decodedData now s in
  nextStartTime s' = (startTime now s + duration audioBuffer)%float /\
  playbackState s' = playbackState s /\
  log s' = log s ++ [SourceConnect audioBuffer (outputNode s)]
             ++ primingEffects s
             ++ [SourceStart audioBuffer (startTime now s)].
Proof.
  intros Hd Hz Hu. unfold onmessage_resume, startTime, primingEffects in *.
  rewrite Hd, Hz. step_state.
  destruct (nextStartTime s =? 0)%float eqn:E0; step_state; rewrite Hu; step_state;
    rewrite ?app_cons_assoc; done.
Qed.

Lemma onmessage_resume_underrun decodedData audioBuffer now s :
  decodeAudioData decodedData sampleRate 2 = Some audioBuffer ->
  (duration audioBuffer =? 0)%float = false ->
  (startTime now s <? now)%float = true ->
  let s' := onmessage_resume decodeAudioData decodedData now s in
  nextStartTime s' = 0%float /\
  playbackState s' = loading /\
  log s' = log s ++ [SourceConnect audioBuffer (outputNode s)]
             ++ primingEffects s
             ++ [ConsoleWarn "Audio under-run detected.";
                 Toast "Audio buffer under-run. Resyncing..." 2000].
Proof.
  intros Hd Hz Hu. unfold onmessage_resume, startTime, primingEffects in *.
  rewrite Hd, Hz. step_state.
  destruct (nextStartTime s =? 0)%float eqn:E0; step_state; rewrite Hu; step_state;
    rewrite ?app_cons_assoc; done.
Qed.

End AudioPath.

(** C3: the code at the failing input.  A chunk arrives while loading and its
    decode is awaited; the button is pressed meanwhile, which pauses; the
    continuation then runs without looking at [playbackState]: it starts the
    buffer on the fresh output node and primes the clock, all while paused. *)
Theorem decode_continuation_schedules_while_paused :
  let chunk := audioMessage "UklGRg==" in
  let pausedGame := play [ServerMessage chunk 2.1%float; PressPlayPause 2.15%float]
                      loadingGame in
  let resumed := play [DecodeSettled silentBytes 2.2%float] pausedGame in
  playbackState loadingGame = loading /\
  onmessage silence chunk 2.1%float loadingGame
  = Await (AwaitDecode silentBytes) loadingGame /\
  playbackState pausedGame = paused /\
  playbackState resumed = paused /\
  log resumed = log pausedGame
                ++ [SourceConnect silentBuffer (outputNode pausedGame);
                    SetTimeout PrerollTimer 500%float;
                    SourceStart silentBuffer 2.7%float] /\
  nextStartTime resumed = 2.7078125%float.
Proof. vm_compute. repeat split. Qed.

(** C4: when the continuation of the audio path finds a primed clock that
    lies before the current time of the audio hardware, it sets
    [nextStartTime] to 0 and [playbackState] to [loading], tells the user
    (a console warning and a toast), and returns normally; of the buffer
    only the connection of its source node is left, it is never started. *)
Theorem underrun_resets_clock
    (decodeAudioData : list Byte.byte -> Z -> Z -> option AudioBuffer)
    (decodedData : list Byte.byte) (audioBuffer : AudioBuffer)
    (now : float) (s : State) :
  decodeAudioData decodedData sampleRate 2 = Some audioBuffer ->
  (duration audioBuffer =? 0)%float = false ->
  (nextStartTime s =? 0)%float = false ->
  (nextStartTime s <? now)%float = true ->
  let s' := onmessage_resume decodeAudioData decodedData now s in
  nextStartTime s' = 0%float /\
  playbackState s' = loading /\
  log s' = log s ++ [SourceConnect audioBuffer (outputNode s);
                     ConsoleWarn "Audio under-run detected.";
                     Toast "Audio buffer under-run. Resyncing..." 2000] /\
  (forall b t, ~ In (SourceStart b t) (skipn (length (log s)) (log s'))).
Proof.
  intros Hd Hz Hp Hu s'.
  destruct (onmessage_resume_underrun decodeAudioData decodedData audioBuffer now s)
    as (H1 & H2 & H3); [done | done | |].
  { unfold startTime. by rewrite Hp. }
  unfold primingEffects in H3. rewrite Hp in H3. cbn [app] in H3.
  fold s' in H1, H2, H3. repeat split; [done | done | done |].
  intros b t. rewrite H3, skipn_app, Nat.sub_diag, skipn_all. cbn [skipn app].
  intros H. repeat (destruct H as [H | H]; [discriminate H |]). exact H.
Qed.

Lemma underrun_resets_clock_witness :
  let s' := onmessage_resume framesBuffer silentBytes 3%float playingGame in
  nextStartTime s' = 0%float /\ playbackState s' = loading.
Proof.
  destruct (underrun_resets_clock framesBuffer silentBytes silentBuffer
              3%float playingGame) as (H1 & H2 & _);
    [vm_compute; reflexivity | vm_compute; reflexivity | vm_compute; reflexivity
    | vm_compute; reflexivity |].
  split; [exact H1 | exact H2].
Defined.

(** C5: when the continuation of the audio path schedules a decoded buffer
    of non-zero duration (no under-run), the buffer starts at the previous
    [nextStartTime], or at [currentTime + bufferTime] when the clock was not
    primed (0), and [nextStartTime] then is that start time plus the
    duration of the buffer; the next buffer scheduled starts exactly there. *)
Theorem scheduling_is_gapless
    (decodeAudioData : list Byte.byte -> Z -> Z -> option AudioBuffer)
    (decodedData : list Byte.byte) (audioBuffer : AudioBuffer)
    (now : float) (s : State) :
  decodeAudioData decodedData sampleRate 2 = Some audioBuffer ->
  (duration audioBuffer =? 0)%float = false ->
  let start := if (nextStartTime s =? 0)%float
               then (now + bufferTime)%float else nextStartTime s in
  (start <? now)%float = false ->
  let s' := onmessage_resume decodeAudioData decodedData now s in
  log s' = log s ++ [SourceConnect audioBuffer (outputNode s)]
             ++ (if (nextStartTime s =? 0)%float
                 then [SetTimeout PrerollTimer (bufferTime * 1000)%float] else [])
             ++ [SourceStart audioBuffer start] /\
  nextStartTime s' = (start + duration audioBuffer)%float /\
  playbackState s' = playbackState s /\
  forall decodedData2 audioBuffer2 now2,
    decodeAudioData decodedData2 sampleRate 2 = Some audioBuffer2 ->
    (duration audioBuffer2 =? 0)%float = false ->
    (nextStartTime s' =? 0)%float = false ->
    (nextStartTime s' <? now2)%float = false ->
    let s'' := onmessage_resume decodeAudioData decodedData2 now2 s' in
    log s'' = log s' ++ [SourceConnect audioBuffer2 (outputNode s');
                         SourceStart audioBuffer2 (start + duration audioBuffer)%float].
Proof.
  intros Hd Hz start Hu s'.
  destruct (onmessage_resume_scheduled decodeAudioData decodedData audioBuffer now s)
    as (H1 & H2 & H3); [done | done | done |].
  fold s' in H1, H2, H3. fold (startTime now s) in start. fold start in H1, H3.
  repeat split; [exact H3 | exact H1 | exact H2 |].
  intros decodedData2 audioBuffer2 now2 Hd2 Hz2 Hp2 Hu2 s''.
  destruct (onmessage_resume_scheduled decodeAudioData decodedData2 audioBuffer2 now2 s')
    as (_ & _ & H4); [done | done | unfold startTime; by rewrite Hp2 |].
  fold s'' in H4. rewrite H4. unfold primingEffects, startTime.
  rewrite Hp2. cbn [app]. by rewrite H1.
Qed.

Lemma scheduling_is_gapless_witness :
  let s1 := onmessage_resume framesBuffer silentBytes 2.1%float loadingGame in
  let s2 := onmessage_resume framesBuffer silentBytes 2.3%float s1 in
  log s1 = log loadingGame
           ++ [SourceConnect silentBuffer 0;
               SetTimeout PrerollTimer 500%float;
               SourceStart silentBuffer 2.6%float] /\
  nextStartTime s1 = 2.6078125%float /\
  log s2 = log s1 ++ [SourceConnect silentBuffer 0;
                      SourceStart silentBuffer 2.6078125%float].
Proof.
  destruct (scheduling_is_gapless framesBuffer silentBytes silentBuffer
              2.1%float loadingGame) as (H1 & H2 & _ & H4);
    [vm_compute; reflexivity | vm_compute; reflexivity | vm_compute; reflexivity |].
  split; [| split].
  - etransitivity; [exact H1 |]. vm_compute. reflexivity.
  - etransitivity; [exact H2 |]. vm_compute. reflexivity.
  - etransitivity;
      [apply (H4 silentBytes silentBuffer 2.3%float); vm_compute; reflexivity |].
    vm_compute. reflexivity.
Defined.

(** ** Play pressed after a connection error *)

Lemma loadAudio_playbackState now s : playbackState (loadAudio now s) = loading.
Proof. unfold_audio. split_ifs; done. Qed.

Lemma loadAudio_session now s : session (loadAudio now s) = session s.
Proof. unfold_audio. split_ifs; done. Qed.

Lemma loadAudio_connectionError now s :
  connectionError (loadAudio now s) = connectionError s.
Proof. unfold_audio. split_ifs; done. Qed.

Lemma loadAudio_In_play now s x :
  session s = Some x -> In (SessionPlay x) (log (loadAudio now s)).
Proof.
  intros Hx. unfold_audio.
  destruct (audioContextState s); step_state; rewrite Hx; step_state;
    rewrite ?app_cons_assoc; apply in_or_app; right; simpl; tauto.
Qed.

Lemma setSessionMusicComponents_session nowMs s :
  session (setSessionMusicComponents nowMs s) = session s.
Proof. apply setSessionMusicComponents_sameAudio. Qed.

(** C8: with [connectionError] set and the player paused or stopped, the
    play button first announces and issues the reconnect and leaves
    [playbackState] as it was.  When the connect call then fails, the state
    becomes [stopped] and the last toast reports the failure, with no
    [session.play()]; when it succeeds, the session is the new one,
    [session.play()] is issued on it and the state becomes [loading]. *)
Theorem play_after_error_reconnects_first (now : float) (s : State) :
  connectionError s = true ->
  isHalted s = true ->
  let before := toast "Reconnecting..." 2000 s in
  handlePlayPause now s = Await AwaitConnect (emit Connect before) /\
  playbackState (emit Connect before) = playbackState s /\
  log (emit Connect before) = log s ++ [Toast "Reconnecting..." 2000; Connect] /\
  (forall nowMs now' s2,
     let s3 := handlePlayPause_resume ConnectFailed nowMs now' s2 in
     playbackState s3 = stopped /\
     connectionError s3 = true /\
     log s3 = log s2
              ++ [ConsoleError "Failed to connect to session:";
                  Toast "Failed to connect to music session. Retrying may be needed." 5000;
                  Toast "Failed to reconnect. Please try again." 3000]) /\
  (forall x nowMs now' s2,
     let s3 := handlePlayPause_resume (Connected x) nowMs now' s2 in
     playbackState s3 = loading /\
     connectionError s3 = false /\
     session s3 = Some x /\
     In (SessionPlay x) (log s3)).
Proof.
  intros He Hh before. split; [| split; [| split; [| split]]].
  - unfold handlePlayPause. unfold isHalted in Hh.
    destruct (playbackState s); try discriminate Hh;
      unfold needsConnect; by rewrite He.
  - done.
  - unfold before. step_state. by rewrite app_cons_assoc.
  - intros nowMs now' s2 s3. subst s3.
    unfold handlePlayPause_resume, connectToSession_resume. step_state.
    rewrite !app_cons_assoc. done.
  - intros x nowMs now' s2 s3. subst s3.
    unfold handlePlayPause_resume, connectToSession_resume. step_state.
    set (s4 := setSessionMusicComponents nowMs _).
    assert (Hs4 : session s4 = Some x)
      by (unfold s4; by rewrite setSessionMusicComponents_session).
    assert (Hc4 : connectionError s4 = false)
      by (unfold s4; unfold_push; split_ifs; done).
    clearbody s4. split; [apply loadAudio_playbackState |].
    rewrite loadAudio_connectionError, loadAudio_session.
    split; [done |]. split; [done |]. by apply loadAudio_In_play.
Qed.

Lemma play_after_error_reconnects_first_witness :
  connectionError brokenGame = true /\
  playbackState brokenGame = paused /\
  handlePlayPause 5%float brokenGame
  = Await AwaitConnect (emit Connect (toast "Reconnecting..." 2000 brokenGame)).
Proof.
  split; [vm_compute; reflexivity |]. split; [vm_compute; reflexivity |].
  apply (play_after_error_reconnects_first 5%float brokenGame);
    vm_compute; reflexivity.
Defined.

(** ** The component map *)

Section JsMapFacts.
Context {V : Type}.
Implicit Types (m : list (string * V)) (k : string) (v : V).

Lemma keys_cons k v m : JsMap.keys ((k, v) :: m) = k :: JsMap.keys m.
Proof. done. Qed.

Lemma elem_of_keys k v m : (k, v) ∈ m -> k ∈ JsMap.keys m.
Proof. intros H. by apply (list_elem_of_fmap_2 fst) in H. Qed.

Lemma elem_of_values k v m : (k, v) ∈ m -> v ∈ JsMap.values m.
Proof. intros H. by apply (list_elem_of_fmap_2 snd) in H. Qed.

Lemma values_elem_of v m : v ∈ JsMap.values m -> exists k, (k, v) ∈ m.
Proof.
  intros ([k v'] & -> & H)%(list_elem_of_fmap_1 snd). by exists k.
Qed.

Lemma get_elem_of k m v : JsMap.get k m = Some v -> (k, v) ∈ m.
Proof.
  induction m as [| [k' v'] r IH]; cbn; [done |].
  destruct (String.eqb_spec k k') as [-> | Hne].
  - intros [= ->]. by left.
  - intros H. right. by apply IH.
Qed.

Lemma get_None k m : JsMap.get k m = None -> k ∉ JsMap.keys m.
Proof.
  induction m as [| [k' v'] r IH]; cbn; [by intros _ ?%elem_of_nil |].
  destruct (String.eqb_spec k k') as [-> | Hne]; [done |].
  intros H [E | Hin]%elem_of_cons; [congruence | by apply IH].
Qed.

Lemma get_unique k m v :
  NoDup (JsMap.keys m) -> (k, v) ∈ m -> JsMap.get k m = Some v.
Proof.
  induction m as [| [k' v'] r IH]; cbn; [by intros _ ?%elem_of_nil |].
  intros [Hk Hnd]%NoDup_cons [E | Hin]%elem_of_cons.
  - injection E as -> ->. by rewrite String.eqb_refl.
  - destruct (String.eqb_spec k k') as [-> | Hne].
    + exfalso. apply Hk. by eapply elem_of_keys.
    + by apply IH.
Qed.

Lemma set_fresh k v m : k ∉ JsMap.keys m -> JsMap.set k v m = m ++ [(k, v)].
Proof.
  induction m as [| [k' v'] r IH]; cbn; [done |].
  intros [Hne Hk]%not_elem_of_cons.
  destruct (String.eqb_spec k k') as [-> | _]; [done |]. by rewrite IH.
Qed.

Lemma set_elem_of k v m x : x ∈ JsMap.set k v m -> x = (k, v) \/ x ∈ m.
Proof.
  induction m as [| [k' v'] r IH]; cbn.
  - intros ->%list_elem_of_singleton. by left.
  - destruct (String.eqb_spec k k') as [-> | Hne].
    + intros [-> | H]%elem_of_cons; [by left | right; by right].
    + intros [-> | H]%elem_of_cons; [right; by left |].
      destruct (IH H); [by left | right; by right].
Qed.

Lemma set_keys_present k v m :
  k ∈ JsMap.keys m -> JsMap.keys (JsMap.set k v m) = JsMap.keys m.
Proof.
  induction m as [| [k' v'] r IH]; cbn; [by intros ?%elem_of_nil |].
  destruct (String.eqb_spec k k') as [-> | Hne]; cbn; [done |].
  intros [E | H]%elem_of_cons; [congruence |]. f_equal. by apply IH.
Qed.

(** Storing, under a key that is present, a value with the same image by
    [f] leaves the images of the values as they are. *)
Lemma set_values_map {B} (f : V -> B) k v v0 m :
  JsMap.get k m = Some v0 -> f v = f v0 ->
  map f (JsMap.values (JsMap.set k v m)) = map f (JsMap.values m).
Proof.
  induction m as [| [k' v'] r IH]; cbn; [done |].
  destruct (String.eqb_spec k k') as [-> | Hne]; cbn.
  - intros [= ->] E. by rewrite E.
  - intros H E. f_equal. by apply IH.
Qed.

Lemma delete_elem_of k m x : x ∈ JsMap.delete k m -> x ∈ m.
Proof.
  induction m as [| [k' v'] r IH]; cbn; [done |].
  destruct (String.eqb_spec k k') as [-> | Hne]; [by right |].
  intros [-> | H]%elem_of_cons; [by left |]. right. by apply IH.
Qed.

Lemma delete_keys_other k k' m :
  k' ∈ JsMap.keys m -> k' <> k -> k' ∈ JsMap.keys (JsMap.delete k m).
Proof.
  induction m as [| [k0 v0] r IH]; cbn; [done |].
  destruct (String.eqb_spec k k0) as [-> | Hne]; cbn.
  - intros [E | H]%elem_of_cons Hk; [congruence | done].
  - intros [E | H]%elem_of_cons Hk; [subst; by left |]. right. by apply IH.
Qed.

Lemma set_elem_of_other k v m k' v' :
  (k', v') ∈ m -> k' <> k -> (k', v') ∈ JsMap.set k v m.
Proof.
  induction m as [| [k0 v0] r IH]; cbn; [by intros ?%elem_of_nil |].
  intros [[= -> ->] | H]%elem_of_cons Hne.
  - destruct (String.eqb_spec k k0) as [-> | _]; [done | by left].
  - destruct (String.eqb_spec k k0) as [-> | _]; right; [done | by apply IH].
Qed.

Lemma set_elem_of_same k v m : k ∈ JsMap.keys m -> (k, v) ∈ JsMap.set k v m.
Proof.
  induction m as [| [k0 v0] r IH]; cbn; [by intros ?%elem_of_nil |].
  destruct (String.eqb_spec k k0) as [-> | Hne]; [by left |].
  intros [E | H]%elem_of_cons; [done |]. right. by apply IH.
Qed.

Lemma delete_elem_of_other k m k' v' :
  (k', v') ∈ m -> k' <> k -> (k', v') ∈ JsMap.delete k m.
Proof.
  induction m as [| [k0 v0] r IH]; cbn; [by intros ?%elem_of_nil |].
  intros [[= -> ->] | H]%elem_of_cons Hne.
  - destruct (String.eqb_spec k k0) as [-> | _]; [done | by left].
  - destruct (String.eqb_spec k k0) as [-> | _]; [done |]. right. by apply IH.
Qed.

Lemma delete_sublist {B} (f : string * V -> B) k m :
  sublist (map f (JsMap.delete k m)) (map f m).
Proof.
  induction m as [| [k' v'] r IH]; cbn; [done |].
  destruct (String.eqb_spec k k') as [-> | Hne]; cbn.
  - by apply sublist_cons.
  - by apply sublist_skip.
Qed.

End JsMapFacts.

Lemma values_map_snd {V B} (f : V -> B) (m : list (string * V)) :
  map f (JsMap.values m) = map (fun x => f (snd x)) m.
Proof. unfold JsMap.values. by rewrite map_map. Qed.

(** ** Invariant of the game data *)

Lemma wellFormed_game s s' : game s' = game s -> wellFormed s -> wellFormed s'.
Proof.
  unfold game, wellFormed. intros [= -> -> -> -> -> -> ->]. done.
Qed.

Lemma gameInv_mono b b' m next filtered words :
  b <= b' -> gameInv b m next filtered words -> gameInv b' m next filtered words.
Proof.
  intros Hb [H1 H2 H3 H4 H5 H6]. split; try done.
  intros c Hc. destruct (H5 c Hc) as (i & Hi & Hw). exists i. split; [lia | done].
Qed.

Lemma gameInv_empty b words : NoDup words -> gameInv b [] 0 ∅ words.
Proof.
  intros Hw. split.
  - by intros k c ?%elem_of_nil.
  - apply NoDup_nil_2.
  - by intros id ?%elem_of_empty.
  - exact Hw.
  - by intros c ?%elem_of_nil.
  - apply NoDup_nil_2.
Qed.

Lemma at_index_lookup (a : list string) (i : Z) :
  0 <= i -> at_index a i = a !! Z.to_nat i.
Proof. intros H. unfold at_index. destruct (Z.ltb_spec i 0); [lia | done]. Qed.

Lemma fetchNextWord_wellFormed s :
  gameInv (currentWordIndex s + 1) (musicComponents s) (nextComponentId s)
    (filteredComponents s) (availableWords s) ->
  -1 <= currentWordIndex s ->
  wellFormed (fetchNextWord s).
Proof.
  intros Hinv Hidx. unfold fetchNextWord, wellFormed. step_state.
  destruct (Z.ltb_spec (currentWordIndex s + 1) (Z.of_nat (length (availableWords s))))
    as [Hlt | Hge]; step_state.
  - split; [done |]. split; [lia |]. intros _.
    rewrite at_index_lookup by lia.
    destruct (lookup_lt_is_Some_2 (availableWords s) (Z.to_nat (currentWordIndex s + 1)))
      as [w Hw]; [lia |].
    by rewrite Hw.
  - split; [done |]. split; [lia | done].
Qed.

Lemma fetchNextWord_fields s :
  let s' := fetchNextWord s in
  musicComponents s' = musicComponents s /\
  currentWordIndex s' = currentWordIndex s + 1 /\
  (currentWordIndex s + 1 < Z.of_nat (length (availableWords s)) ->
   0 <= currentWordIndex s + 1 ->
   at_index (availableWords s) (currentWordIndex s + 1) = Some (currentWordToGuess s') /\
   gameWon s' = gameWon s) /\
  (Z.of_nat (length (availableWords s)) <= currentWordIndex s + 1 ->
   currentWordToGuess s' = "YOU WON!" /\ gameWon s' = true) /\
  availableWords s' = availableWords s.
Proof.
  unfold fetchNextWord. step_state.
  destruct (Z.ltb_spec (currentWordIndex s + 1) (Z.of_nat (length (availableWords s))))
    as [Hlt | Hge]; step_state.
  - repeat split; try done; try lia.
    rewrite at_index_lookup by lia.
    destruct (lookup_lt_is_Some_2 (availableWords s) (Z.to_nat (currentWordIndex s + 1)))
      as [w Hw]; [lia |].
    by rewrite Hw.
  - repeat split; try done; lia.
Qed.

Lemma fetchNextWord_log_In e s : In e (log s) -> In e (log (fetchNextWord s)).
Proof.
  unfold fetchNextWord. split_ifs; [done |]. intros H. apply in_or_app. by left.
Qed.

Lemma componentId_inj : Inj (=) (=) componentId.
Proof.
  intros n n' H. unfold componentId in H.
  apply (inj (String.append "component-")) in H. by apply (inj pretty) in H.
Qed.


(** ** The guess handler, case by case *)

Lemma handleGuessSubmit_won COLORS rnd nowMs s :
  gameWon s = true ->
  handleGuessSubmit COLORS rnd nowMs s = toast "Game over! Reset to play again." 3000 s.
Proof. intros H. unfold handleGuessSubmit. by rewrite H. Qed.

Lemma handleGuessSubmit_empty COLORS rnd nowMs s :
  gameWon s = false ->
  normalise (guessInputValue s) = "" ->
  handleGuessSubmit COLORS rnd nowMs s = s.
Proof. intros H E. unfold handleGuessSubmit. by rewrite H, E. Qed.

Lemma handleGuessSubmit_correct COLORS rnd nowMs s :
  gameWon s = false ->
  normalise (guessInputValue s) <> "" ->
  normalise (guessInputValue s) = currentWordToGuess s ->
  handleGuessSubmit COLORS rnd nowMs s
  = set_guessInputValue ""
      (fetchNextWord (setSessionMusicComponents nowMs (withNewComponent COLORS rnd s))).
Proof.
  intros H Hn E. unfold handleGuessSubmit. rewrite H.
  destruct (normalise (guessInputValue s)) as [| a r] eqn:G; [done |].
  rewrite E, String.eqb_refl. reflexivity.
Qed.

Lemma handleGuessSubmit_incorrect COLORS rnd nowMs s :
  gameWon s = false ->
  normalise (guessInputValue s) <> "" ->
  normalise (guessInputValue s) <> currentWordToGuess s ->
  handleGuessSubmit COLORS rnd nowMs s
  = set_guessInputValue ""
      (emit InputAnimate (emit InputSelect (toast "Incorrect guess. Try again!" 2000 s))).
Proof.
  intros H Hn E. unfold handleGuessSubmit. rewrite H.
  destruct (normalise (guessInputValue s)) as [| a r] eqn:G; [done |].
  destruct (String.eqb_spec (String a r) (currentWordToGuess s)); [done |].
  reflexivity.
Qed.

Lemma keys_app {V} (m m' : list (string * V)) :
  JsMap.keys (m ++ m') = JsMap.keys m ++ JsMap.keys m'.
Proof. apply map_app. Qed.

Lemma values_app {V} (m m' : list (string * V)) :
  JsMap.values (m ++ m') = JsMap.values m ++ JsMap.values m'.
Proof. apply map_app. Qed.

(** The identifier built from the counter is not in use. *)
Lemma componentId_fresh b m next filtered words :
  gameInv b m next filtered words -> componentId next ∉ JsMap.keys m.
Proof.
  intros Hinv ([k c] & E & Hin)%(list_elem_of_fmap_1 fst). cbn in E. subst k.
  destruct (inv_ids _ _ _ _ _ Hinv _ _ Hin) as (_ & j & Hj & Ej).
  apply componentId_inj in Ej. lia.
Qed.

Lemma gameInv_add b m next filtered words c :
  gameInv b m next filtered words ->
  0 <= b ->
  promptId c = componentId next ->
  words !! Z.to_nat b = Some (text c) ->
  gameInv (b + 1) (JsMap.set (componentId next) c m) (Datatypes.S next) filtered words.
Proof.
  intros Hinv Hb Hid Hw.
  pose proof (componentId_fresh _ _ _ _ _ Hinv) as Hfresh.
  rewrite set_fresh by done.
  destruct Hinv as [H1 H2 H3 H4 H5 H6]. split.
  - intros k c' [Hin | [= -> ->]%list_elem_of_singleton]%elem_of_app.
    + destruct (H1 k c' Hin) as (E & j & Hj & Ej). split; [done |].
      exists j. split; [lia | done].
    + split; [done |]. exists next. split; [lia | done].
  - rewrite keys_app. apply NoDup_app. split; [done |]. split.
    + intros k Hk ->%list_elem_of_singleton. done.
    + apply NoDup_singleton.
  - intros id Hid'. rewrite keys_app. apply elem_of_app. left. by apply H3.
  - done.
  - intros c'. rewrite values_app.
    intros [Hin | ->%list_elem_of_singleton]%elem_of_app.
    + destruct (H5 c' Hin) as (i & Hi & Hwi). exists i. split; [lia | done].
    + exists (Z.to_nat b). split; [lia | done].
  - rewrite values_app, map_app. apply NoDup_app. split; [done |]. split.
    + intros t (c' & -> & Hin)%(list_elem_of_fmap_1 text) Ht%list_elem_of_singleton.
      cbn in Ht. destruct (H5 c' Hin) as (i & Hi & Hwi).
      rewrite Ht in Hwi.
      pose proof (NoDup_lookup _ _ _ _ H4 Hwi Hw). lia.
    + apply NoDup_singleton.
Qed.

(** ** Handlers that leave the game data alone *)

Lemma setSessionMusicComponents_game nowMs s :
  game (setSessionMusicComponents nowMs s) = game s.
Proof. unfold_push. split_ifs; done. Qed.

Lemma updateSettings_game nowMs detail s :
  game (updateSettings nowMs detail s) = game s.
Proof. unfold_push. split_ifs; done. Qed.

Lemma pauseAudio_game now s : game (pauseAudio now s) = game s.
Proof. unfold_audio. split_ifs; done. Qed.

Lemma loadAudio_game now s : game (loadAudio now s) = game s.
Proof. unfold_audio. split_ifs; done. Qed.

Lemma connectToSession_resume_game o s : game (connectToSession_resume o s) = game s.
Proof. unfold connectToSession_resume. split_ifs; done. Qed.

Lemma handleReset_finish_game s : game (handleReset_finish s) = game s.
Proof. unfold handleReset_finish. split_ifs; done. Qed.

Lemma prerollTimerFired_game s : game (prerollTimerFired s) = game s.
Proof. unfold prerollTimerFired. split_ifs; done. Qed.

Lemma onerror_game message now s : game (onerror message now s) = game s.
Proof. unfold onerror. unfold_audio. split_ifs; done. Qed.

Lemma onclose_game wasClean now s : game (onclose wasClean now s) = game s.
Proof. unfold onclose. unfold_audio. split_ifs; done. Qed.

Lemma setSessionMusicComponents_rejected_game message now s :
  game (setSessionMusicComponents_rejected message now s) = game s.
Proof. unfold setSessionMusicComponents_rejected. unfold_audio. split_ifs; done. Qed.

Lemma handlePlayPause_game now s : game (stateOf (handlePlayPause now s)) = game s.
Proof. unfold handlePlayPause. unfold_audio. split_ifs; done. Qed.

Lemma handlePlayPause_resume_game o nowMs now s :
  game (handlePlayPause_resume o nowMs now s) = game s.
Proof.
  unfold handlePlayPause_resume.
  destruct (_ && _).
  - by rewrite loadAudio_game, setSessionMusicComponents_game,
      connectToSession_resume_game.
  - rewrite <- (connectToSession_resume_game o s). done.
Qed.

Lemma firstUpdated_resume_game o nowMs s :
  game (firstUpdated_resume o nowMs s) = game s.
Proof.
  unfold firstUpdated_resume.
  by rewrite setSessionMusicComponents_game, connectToSession_resume_game.
Qed.

Lemma resetToDefaults_game nowMs s : game (resetToDefaults nowMs s) = game s.
Proof. unfold resetToDefaults. by rewrite updateSettings_game. Qed.

Section AudioPathGame.
Variable decode : string -> option (list Byte.byte).
Variable decodeAudioData : list Byte.byte -> Z -> Z -> option AudioBuffer.

Lemma audioError_game now s : game (audioError now s) = game s.
Proof. unfold audioError. unfold_audio. split_ifs; done. Qed.

Lemma onmessage_resume_game decodedData now s :
  game (onmessage_resume decodeAudioData decodedData now s) = game s.
Proof.
  unfold onmessage_resume.
  destruct (decodeAudioData _ _ _); [| apply audioError_game].
  split_ifs; done.
Qed.

(** After the set-up and filter parts the callback leaves the game data
    alone. *)
Lemma onmessage_game e now s :
  game (stateOf (onmessage decode e now s))
  = game (onFilteredPrompt e s).
Proof.
  unfold onmessage.
  assert (E : game (onFilteredPrompt e
                      (if setupComplete e then set_connectionError false s else s))
              = game (onFilteredPrompt e s)).
  { unfold onFilteredPrompt. split_ifs; done. }
  rewrite <- E. generalize (onFilteredPrompt e
    (if setupComplete e then set_connectionError false s else s)). intros s1.
  destruct (audioChunks e) as [[| chunk rest] |]; [done | | done].
  destruct (isHalted s1); [done |].
  destruct (data chunk) as [audioDataString |]; [| done].
  destruct (JsString.trim audioDataString); [done |].
  destruct (decode audioDataString) as [[| b decodedData] |]; [done | done |].
  apply audioError_game.
Qed.

End AudioPathGame.

(** ** The invariant holds in every reachable state *)

Lemma NoDup_WORD_LIST_SOURCE : NoDup WORD_LIST_SOURCE.
Proof. apply (bool_decide_unpack _). by vm_compute. Qed.

Lemma shuffled_NoDup shuffled : shuffled ≡ₚ WORD_LIST_SOURCE -> NoDup shuffled.
Proof. intros ->. apply NoDup_WORD_LIST_SOURCE. Qed.

Lemma skipWord_wellFormed s : wellFormed s -> wellFormed (skipWord s).
Proof.
  intros (Hinv & Hidx & _). unfold skipWord.
  apply fetchNextWord_wellFormed; step_state; [| lia].
  eapply gameInv_mono; [| exact Hinv]. lia.
Qed.

Lemma initializeGame_wellFormed shuffled nowMs s :
  NoDup shuffled -> wellFormed (initializeGame shuffled nowMs s).
Proof.
  intros Hnd. unfold initializeGame.
  set (s0 := set_filteredComponents _ _).
  assert (H0 : wellFormed (fetchNextWord s0)).
  { apply fetchNextWord_wellFormed; unfold s0; step_state; [| lia].
    by apply gameInv_empty. }
  destruct (session (fetchNextWord s0)); [| done].
  eapply wellFormed_game; [apply setSessionMusicComponents_game | done].
Qed.

Lemma handleGuessSubmit_wellFormed COLORS rnd nowMs s :
  wellFormed s -> wellFormed (handleGuessSubmit COLORS rnd nowMs s).
Proof.
  intros Hwf. destruct (gameWon s) eqn:Hw.
  { rewrite handleGuessSubmit_won by done. by eapply wellFormed_game. }
  destruct (decide (normalise (guessInputValue s) = "")) as [He | He].
  { by rewrite handleGuessSubmit_empty. }
  destruct (decide (normalise (guessInputValue s) = currentWordToGuess s))
    as [Hc | Hc].
  - rewrite handleGuessSubmit_correct by done.
    eapply wellFormed_game; [reflexivity |].
    destruct Hwf as (Hinv & Hidx & Hcur). specialize (Hcur Hw).
    rewrite at_index_lookup in Hcur by done.
    pose proof (setSessionMusicComponents_game nowMs (withNewComponent COLORS rnd s)) as G.
    unfold game in G. injection G as G1 G2 G3 G4 G5 G6 G7.
    apply fetchNextWord_wellFormed; rewrite ?G1, ?G2, ?G3, ?G4, ?G6;
      unfold withNewComponent; step_state; [| lia].
    by apply gameInv_add.
  - rewrite handleGuessSubmit_incorrect by done. by eapply wellFormed_game.
Qed.

Lemma set_idem {V} k (v : V) m :
  JsMap.set k v (JsMap.set k v m) = JsMap.set k v m.
Proof.
  induction m as [| [k' v'] r IH]; cbn.
  - by rewrite String.eqb_refl.
  - destruct (String.eqb_spec k k') as [-> | Hne]; cbn.
    + by rewrite String.eqb_refl.
    + destruct (String.eqb_spec k k'); [done |]. by rewrite IH.
Qed.

Lemma gameInv_set_present b m next filtered words id c c' :
  JsMap.get id m = Some c ->
  promptId c' = promptId c ->
  text c' = text c ->
  gameInv b m next filtered words ->
  gameInv b (JsMap.set id c' m) next filtered words.
Proof.
  intros Hget Hp Ht [H1 H2 H3 H4 H5 H6].
  pose proof (get_elem_of _ _ _ Hget) as Hin.
  pose proof (elem_of_keys _ _ _ Hin) as Hk.
  split.
  - intros k x [[= -> ->] | Hx]%set_elem_of; [| by apply H1].
    rewrite Hp. by apply H1.
  - by rewrite set_keys_present.
  - intros id' Hid'. rewrite set_keys_present by done. by apply H3.
  - done.
  - intros x (k & [[= -> ->] | Hx]%set_elem_of)%values_elem_of.
    + rewrite Ht. apply H5. by eapply elem_of_values.
    + apply H5. by eapply elem_of_values.
  - by rewrite (set_values_map text id c' c).
Qed.

Lemma updateWeight_wellFormed id value nowMs s :
  wellFormed s -> wellFormed (updateWeight id value nowMs s).
Proof.
  intros (Hinv & Hidx & Hcur). unfold updateWeight.
  destruct (JsMap.get id (musicComponents s)) as [c |] eqn:Hget; [| done].
  destruct (inv_ids _ _ _ _ _ Hinv id c (get_elem_of _ _ _ Hget)) as (Hp & _).
  unfold handleMusicComponentChanged. cbn [promptId text weight color].
  rewrite Hp, Hget. cbn [promptId text weight color]. rewrite ?Hp, set_idem.
  eapply wellFormed_game; [apply setSessionMusicComponents_game |].
  unfold wellFormed. step_state. split; [| done].
  by eapply gameInv_set_present.
Qed.

Lemma handleMusicComponentRemoved_wellFormed id nowMs s :
  wellFormed s -> wellFormed (handleMusicComponentRemoved id nowMs s).
Proof.
  intros (Hinv & Hidx & Hcur). unfold handleMusicComponentRemoved.
  destruct (JsMap.has id (musicComponents s)).
  - eapply wellFormed_game; [apply setSessionMusicComponents_game |].
    unfold wellFormed. step_state. split; [| done].
    destruct Hinv as [H1 H2 H3 H4 H5 H6]. split.
    + intros k c Hin%delete_elem_of. by apply H1.
    + eapply sublist_NoDup; [exact H2 | apply (delete_sublist fst)].
    + intros id' [Hf Hne%not_elem_of_singleton]%elem_of_difference.
      apply delete_keys_other; [by apply H3 | done].
    + done.
    + intros c (k & Hin%delete_elem_of)%values_elem_of.
      apply H5. by eapply elem_of_values.
    + rewrite values_map_snd.
      eapply sublist_NoDup; [| apply delete_sublist]. by rewrite <- values_map_snd.
  - by eapply wellFormed_game.
Qed.

Lemma onFilteredPrompt_wellFormed e s :
  wellFormed s -> wellFormed (onFilteredPrompt e s).
Proof.
  intros (Hinv & Hidx & Hcur). unfold onFilteredPrompt.
  destruct (filteredPrompt e) as [fp |]; [| done].
  destruct (List.find _ _) as [c |] eqn:Hfind; [| done].
  apply find_some in Hfind as [Hin%list_elem_of_In _].
  unfold wellFormed. step_state. split; [| done].
  destruct Hinv as [H1 H2 H3 H4 H5 H6]. split; try done.
  intros id [->%elem_of_singleton | Hid]%elem_of_union; [| by apply H3].
  apply values_elem_of in Hin as [k Hk].
  destruct (H1 k c Hk) as [-> _]. by eapply elem_of_keys.
Qed.

Lemma handleReset_body_wellFormed shuffled nowMs now s :
  NoDup shuffled -> wellFormed (stateOf (handleReset_body shuffled nowMs now s)).
Proof.
  intros Hnd. unfold handleReset_body.
  pose proof (initializeGame_wellFormed shuffled nowMs (pauseAudio now s) Hnd) as H.
  revert H. generalize (initializeGame shuffled nowMs (pauseAudio now s)). intros s2 H2.
  pose proof (resetToDefaults_game nowMs s2) as G.
  revert G. generalize (resetToDefaults nowMs s2). intros s3 G.
  apply (wellFormed_game s2); [| done]. rewrite <- G.
  destruct (session s3); cbn [stateOf]; [done |]. apply handleReset_finish_game.
Qed.

Section Reachable.
Variable decode : string -> option (list Byte.byte).
Variable decodeAudioData : list Byte.byte -> Z -> Z -> option AudioBuffer.

Lemma dispatch_wellFormed ev s :
  admissible ev -> wellFormed s -> wellFormed (dispatch decode decodeAudioData ev s).
Proof.
  intros Ha Hwf. destruct ev; cbn [dispatch admissible] in *.
  - by eapply wellFormed_game.
  - by apply handleGuessSubmit_wellFormed.
  - by apply skipWord_wellFormed.
  - by apply updateWeight_wellFormed.
  - by apply handleMusicComponentRemoved_wellFormed.
  - eapply wellFormed_game; [apply updateSettings_game | done].
  - eapply wellFormed_game; [apply handlePlayPause_game | done].
  - eapply wellFormed_game; [apply handlePlayPause_resume_game | done].
  - unfold handleReset. destruct (needsConnect _).
    + by eapply wellFormed_game.
    + apply handleReset_body_wellFormed. by apply shuffled_NoDup.
  - apply handleReset_body_wellFormed. by apply shuffled_NoDup.
  - eapply wellFormed_game; [apply handleReset_finish_game | done].
  - by eapply wellFormed_game.
  - eapply wellFormed_game; [apply firstUpdated_resume_game | done].
  - eapply wellFormed_game; [apply onmessage_game |].
    by apply onFilteredPrompt_wellFormed.
  - eapply wellFormed_game; [apply onmessage_resume_game | done].
  - eapply wellFormed_game; [apply setSessionMusicComponents_rejected_game | done].
  - eapply wellFormed_game; [apply onerror_game | done].
  - eapply wellFormed_game; [apply onclose_game | done].
  - eapply wellFormed_game; [apply prerollTimerFired_game | done].
  - by eapply wellFormed_game.
Qed.

Lemma reachable_wellFormed s :
  reachable decode decodeAudioData s -> wellFormed s.
Proof.
  induction 1 as [shuffled nowMs Hp | ev s Ha Hr IH].
  - unfold constructed. apply initializeGame_wellFormed. by apply shuffled_NoDup.
  - by apply dispatch_wellFormed.
Qed.

End Reachable.

(** ** Snapshots and the filtered set *)

Lemma weightedPrompts_spec s p :
  p ∈ weightedPrompts s <->
  exists c, c ∈ JsMap.values (musicComponents s) /\
            p = {| wp_text := text c; wp_weight := weight c |} /\
            (0.01 <? weight c)%float = true /\
            promptId c ∉ filteredComponents s.
Proof.
  unfold weightedPrompts, componentsToSend, isSent.
  rewrite list_elem_of_In, in_map_iff. split.
  - intros (c & <- & [Hc Hs]%filter_In).
    apply andb_prop in Hs as [Hf%negb_true_iff%bool_decide_eq_false Hw].
    exists c. by rewrite list_elem_of_In.
  - intros (c & Hc%list_elem_of_In & -> & Hw & Hf).
    exists c. split; [done |]. apply filter_In. split; [done |].
    apply andb_true_intro. split; [| done].
    by apply negb_true_iff, bool_decide_eq_false.
Qed.

Lemma componentsToSend_not_filtered s c :
  c ∈ componentsToSend s -> promptId c ∉ filteredComponents s.
Proof.
  unfold componentsToSend, isSent. rewrite list_elem_of_In.
  intros [_ Hs]%filter_In.
  by apply andb_prop in Hs as [Hf%negb_true_iff%bool_decide_eq_false _].
Qed.

Lemma NoDup_map_inj {A B} (f : A -> B) (l : list A) x y :
  NoDup (map f l) -> x ∈ l -> y ∈ l -> f x = f y -> x = y.
Proof.
  induction l as [| a l IH]; cbn; [by intros _ ?%elem_of_nil |].
  intros [Ha Hnd]%NoDup_cons [-> | Hx]%elem_of_cons [-> | Hy]%elem_of_cons E.
  - done.
  - exfalso. apply Ha. rewrite E. by apply (list_elem_of_fmap_2 f).
  - exfalso. apply Ha. rewrite <- E. by apply (list_elem_of_fmap_2 f).
  - by apply IH.
Qed.

(** In a well-formed state [find] returns the one component with the text. *)
Lemma find_by_text s c :
  wellFormed s ->
  c ∈ JsMap.values (musicComponents s) ->
  List.find (fun p => String.eqb (text p) (text c)) (JsMap.values (musicComponents s))
  = Some c.
Proof.
  intros (Hinv & _) Hc.
  destruct (List.find _ _) as [c' |] eqn:Hfind.
  - apply find_some in Hfind as [Hin%list_elem_of_In Ht%String.eqb_eq].
    f_equal. by eapply (NoDup_map_inj text), Ht; [apply Hinv | |].
  - exfalso. apply list_elem_of_In in Hc.
    pose proof (find_none _ _ Hfind c Hc) as Hn. cbn in Hn.
    by rewrite String.eqb_refl in Hn.
Qed.

Lemma game_filtered s s' :
  game s' = game s -> filteredComponents s' = filteredComponents s.
Proof. unfold game. by intros [= _ _ -> _ _ _ _]. Qed.

Lemma game_musicComponents s s' :
  game s' = game s -> musicComponents s' = musicComponents s.
Proof. unfold game. by intros [= -> _ _ _ _ _ _]. Qed.

Lemma fetchNextWord_filtered s :
  filteredComponents (fetchNextWord s) = filteredComponents s.
Proof. unfold fetchNextWord. split_ifs; done. Qed.

Lemma handleGuessSubmit_filtered COLORS rnd nowMs s :
  filteredComponents (handleGuessSubmit COLORS rnd nowMs s) = filteredComponents s.
Proof.
  destruct (gameWon s) eqn:Hw; [by rewrite handleGuessSubmit_won |].
  destruct (decide (normalise (guessInputValue s) = "")) as [He | He];
    [by rewrite handleGuessSubmit_empty |].
  destruct (decide (normalise (guessInputValue s) = currentWordToGuess s)).
  - rewrite handleGuessSubmit_correct by done. step_state.
    rewrite fetchNextWord_filtered.
    by rewrite (game_filtered _ _ (setSessionMusicComponents_game _ _)).
  - by rewrite handleGuessSubmit_incorrect.
Qed.

Lemma onFilteredPrompt_filtered_mono e s id :
  id ∈ filteredComponents s -> id ∈ filteredComponents (onFilteredPrompt e s).
Proof.
  intros H. unfold onFilteredPrompt. split_ifs; try done.
  apply elem_of_union. by right.
Qed.

Lemma onFilteredPrompt_musicComponents e s :
  musicComponents (onFilteredPrompt e s) = musicComponents s.
Proof. unfold onFilteredPrompt. split_ifs; done. Qed.

Section FilteredPersists.
Variable decode : string -> option (list Byte.byte).
Variable decodeAudioData : list Byte.byte -> Z -> Z -> option AudioBuffer.

Lemma dispatch_keeps_filtered id ev s :
  keepsComponent id ev ->
  id ∈ filteredComponents s ->
  id ∈ filteredComponents (dispatch decode decodeAudioData ev s).
Proof.
  intros Hk Hid. destruct ev; cbn [dispatch keepsComponent] in *; try done.
  - by rewrite handleGuessSubmit_filtered.
  - unfold skipWord. by rewrite fetchNextWord_filtered.
  - unfold updateWeight. destruct (JsMap.get _ _); [| done].
    unfold handleMusicComponentChanged. destruct (JsMap.get _ _); [| done].
    by rewrite (game_filtered _ _ (setSessionMusicComponents_game _ _)).
  - unfold handleMusicComponentRemoved. destruct (JsMap.has _ _); [| done].
    rewrite (game_filtered _ _ (setSessionMusicComponents_game _ _)). step_state.
    apply elem_of_difference. split; [done |]. by apply not_elem_of_singleton.
  - by rewrite (game_filtered _ _ (updateSettings_game _ _ _)).
  - by rewrite (game_filtered _ _ (handlePlayPause_game _ _)).
  - by rewrite (game_filtered _ _ (handlePlayPause_resume_game _ _ _ _)).
  - by rewrite (game_filtered _ _ (handleReset_finish_game _)).
  - by rewrite (game_filtered _ _ (firstUpdated_resume_game _ _ _)).
  - rewrite (game_filtered _ _ (onmessage_game decode _ _ _)).
    by apply onFilteredPrompt_filtered_mono.
  - by rewrite (game_filtered _ _ (onmessage_resume_game decodeAudioData _ _ _)).
  - by rewrite (game_filtered _ _ (setSessionMusicComponents_rejected_game _ _ _)).
  - by rewrite (game_filtered _ _ (onerror_game _ _ _)).
  - by rewrite (game_filtered _ _ (onclose_game _ _ _)).
  - by rewrite (game_filtered _ _ (prerollTimerFired_game _)).
Qed.

Lemma dispatch_keeps_component id ev s c :
  keepsComponent id ev ->
  wellFormed s ->
  (id, c) ∈ musicComponents s ->
  exists c', (id, c') ∈ musicComponents (dispatch decode decodeAudioData ev s) /\
             text c' = text c.
Proof.
  intros Hk (Hinv & _) Hc.
  assert (same : forall s', game s' = game s ->
            exists c', (id, c') ∈ musicComponents s' /\ text c' = text c).
  { intros s' G. exists c. by rewrite (game_musicComponents _ _ G). }
  destruct ev; cbn [dispatch keepsComponent] in *; try done.
  - by apply same.
  - destruct (gameWon s) eqn:Hw;
      [rewrite handleGuessSubmit_won by done; by apply same |].
    destruct (decide (normalise (guessInputValue s) = "")) as [He | He];
      [rewrite handleGuessSubmit_empty by done; by apply same |].
    destruct (decide (normalise (guessInputValue s) = currentWordToGuess s)).
    + rewrite handleGuessSubmit_correct by done. step_state.
      destruct (fetchNextWord_fields
                  (setSessionMusicComponents nowMs (withNewComponent COLORS rnd s)))
        as (-> & _).
      rewrite (game_musicComponents _ _ (setSessionMusicComponents_game _ _)).
      unfold withNewComponent. step_state. exists c. split; [| done].
      apply set_elem_of_other; [done |].
      intros ->. eapply componentId_fresh; [exact Hinv |]. by eapply elem_of_keys.
    + rewrite handleGuessSubmit_incorrect by done. by apply same.
  - unfold skipWord.
    destruct (fetchNextWord_fields (toast ("Skipped: " +:+ currentWordToGuess s) 2000 s))
      as (-> & _).
    by exists c.
  - unfold updateWeight.
    destruct (JsMap.get id0 (musicComponents s)) as [c0 |] eqn:Hget; [| by exists c].
    destruct (inv_ids _ _ _ _ _ Hinv id0 c0 (get_elem_of _ _ _ Hget)) as (Hp & _).
    unfold handleMusicComponentChanged. cbn [promptId text weight color].
    rewrite Hp, Hget. cbn [promptId text weight color]. rewrite ?Hp, set_idem.
    rewrite (game_musicComponents _ _ (setSessionMusicComponents_game _ _)).
    step_state. destruct (decide (id0 = id)) as [-> | Hne].
    + assert (c0 = c) as ->.
      { pose proof (get_unique _ _ _ (inv_keys _ _ _ _ _ Hinv) Hc). congruence. }
      eexists. split; [apply set_elem_of_same; by eapply elem_of_keys | done].
    + exists c. split; [| done]. apply set_elem_of_other; [done | congruence].
  - unfold handleMusicComponentRemoved.
    destruct (JsMap.has id0 (musicComponents s)); [| by exists c].
    rewrite (game_musicComponents _ _ (setSessionMusicComponents_game _ _)).
    step_state. exists c. split; [| done].
    apply delete_elem_of_other; [done | congruence].
  - apply same, updateSettings_game.
  - apply same, handlePlayPause_game.
  - apply same, handlePlayPause_resume_game.
  - apply same, handleReset_finish_game.
  - by apply same.
  - apply same, firstUpdated_resume_game.
  - exists c. split; [| done].
    by rewrite (game_musicComponents _ _ (onmessage_game decode _ _ _)),
      onFilteredPrompt_musicComponents.
  - apply same, (onmessage_resume_game decodeAudioData).
  - apply same, setSessionMusicComponents_rejected_game.
  - apply same, onerror_game.
  - apply same, onclose_game.
  - apply same, prerollTimerFired_game.
  - by apply same.
Qed.

Lemma keepsComponent_admissible id ev : keepsComponent id ev -> admissible ev.
Proof. by destruct ev. Qed.

Lemma run_keeps_component id evs s c :
  Forall (keepsComponent id) evs ->
  wellFormed s ->
  (id, c) ∈ musicComponents s ->
  wellFormed (run decode decodeAudioData evs s) /\
  exists c', (id, c') ∈ musicComponents (run decode decodeAudioData evs s) /\
             text c' = text c.
Proof.
  intros Hk. revert s c.
  induction Hk as [| ev evs Hev _ IH]; intros s c Hwf Hc; [by eauto |].
  cbn. destruct (dispatch_keeps_component id ev s c Hev Hwf Hc) as (c1 & Hc1 & Ht1).
  destruct (IH (dispatch decode decodeAudioData ev s) c1) as (Hwf' & c' & Hc' & Ht');
    [apply dispatch_wellFormed; [by eapply keepsComponent_admissible | done] | done |].
  split; [done |]. exists c'. split; [done | congruence].
Qed.

Lemma run_keeps_filtered id evs s :
  Forall (keepsComponent id) evs ->
  id ∈ filteredComponents s ->
  id ∈ filteredComponents (run decode decodeAudioData evs s).
Proof.
  intros Hk. revert s. induction Hk as [| ev evs Hev _ IH]; intros s Hid; [done |].
  cbn. apply IH. by apply dispatch_keeps_filtered.
Qed.

Lemma reachable_run evs s :
  Forall admissible evs ->
  reachable decode decodeAudioData s ->
  reachable decode decodeAudioData (run decode decodeAudioData evs s).
Proof.
  intros Ha. revert s. induction Ha as [| ev evs Hev _ IH]; intros s Hr; [done |].
  cbn. apply IH. by constructor.
Qed.

End FilteredPersists.

(** ** Every push is the snapshot *)

Lemma noPush_nil : noPush [].
Proof. intros x ps []. Qed.

Lemma noPush_cons e l :
  (forall x ps, e <> SetWeightedPrompts x ps) -> noPush l -> noPush (e :: l).
Proof. intros He Hl x ps [H | H]; [by eapply He | by eapply Hl]. Qed.

Lemma noPush_app l1 l2 : noPush l1 -> noPush l2 -> noPush (l1 ++ l2).
Proof. intros H1 H2 x ps [H | H]%in_app_or; [by eapply H1 | by eapply H2]. Qed.

Lemma appendsNoPush_refl s : appendsNoPush s s.
Proof. exists []. split; [by rewrite app_nil_r | apply noPush_nil]. Qed.

Lemma appendsNoPush_trans s1 s2 s3 :
  appendsNoPush s1 s2 -> appendsNoPush s2 s3 -> appendsNoPush s1 s3.
Proof.
  intros (l1 & E1 & N1) (l2 & E2 & N2). exists (l1 ++ l2). split.
  - by rewrite E2, E1, app_assoc.
  - by apply noPush_app.
Qed.

Lemma appendsNoPush_emit e s :
  (forall x ps, e <> SetWeightedPrompts x ps) -> appendsNoPush s (emit e s).
Proof.
  intros He. exists [e]. split; [by destruct s |].
  apply noPush_cons; [done | apply noPush_nil].
Qed.

Lemma appendsNoPush_same_log s s' : log s' = log s -> appendsNoPush s s'.
Proof. intros E. exists []. split; [by rewrite app_nil_r | apply noPush_nil]. Qed.

Ltac solve_noPush :=
  repeat (apply noPush_cons; [done |]); apply noPush_nil.

(** Closes [appendsNoPush s s'] once the log of [s'] is explicit. *)
Ltac solve_appendsNoPush :=
  split_ifs;
  first [ apply appendsNoPush_same_log; reflexivity
        | eexists; split;
          [ step_state; rewrite ?app_cons_assoc; reflexivity | solve_noPush ] ].

Lemma pauseAudio_noPush now s : appendsNoPush s (pauseAudio now s).
Proof.
  eexists. split; [apply pauseAudio_log |].
  apply noPush_app.
  - unfold sessionCall. destruct (session s); solve_noPush.
  - unfold rampDownEffects. apply noPush_app; [destruct (isRunning s) |]; solve_noPush.
Qed.

Lemma loadAudio_noPush now s : appendsNoPush s (loadAudio now s).
Proof. unfold loadAudio. solve_appendsNoPush. Qed.

Lemma fetchNextWord_noPush s : appendsNoPush s (fetchNextWord s).
Proof. unfold fetchNextWord. solve_appendsNoPush. Qed.

Lemma updateSettings_noPush nowMs detail s :
  appendsNoPush s (updateSettings nowMs detail s).
Proof. unfold_push. solve_appendsNoPush. Qed.

Lemma connectToSession_resume_noPush o s :
  appendsNoPush s (connectToSession_resume o s).
Proof. unfold connectToSession_resume. destruct o; solve_appendsNoPush. Qed.

Lemma handleReset_finish_noPush s : appendsNoPush s (handleReset_finish s).
Proof. unfold handleReset_finish. solve_appendsNoPush. Qed.

Lemma resetToDefaults_noPush nowMs s : appendsNoPush s (resetToDefaults nowMs s).
Proof.
  unfold resetToDefaults.
  eapply appendsNoPush_trans; [| apply updateSettings_noPush].
  by apply appendsNoPush_emit.
Qed.

Lemma onFilteredPrompt_noPush e s : appendsNoPush s (onFilteredPrompt e s).
Proof. unfold onFilteredPrompt. solve_appendsNoPush. Qed.

Lemma handlePlayPause_noPush now s :
  appendsNoPush s (stateOf (handlePlayPause now s)).
Proof.
  unfold handlePlayPause.
  assert (Hconnect : appendsNoPush s (emit Connect (toast "Reconnecting..." 2000 s))).
  { eapply appendsNoPush_trans;
      [apply (appendsNoPush_emit (Toast "Reconnecting..." 2000)); done |].
    by apply appendsNoPush_emit. }
  destruct (playbackState s); cbn [stateOf].
  - destruct (needsConnect s); cbn [stateOf]; [done | apply loadAudio_noPush].
  - apply pauseAudio_noPush.
  - eapply appendsNoPush_trans; [apply pauseAudio_noPush | by apply appendsNoPush_emit].
  - destruct (needsConnect s); cbn [stateOf]; [done | apply loadAudio_noPush].
Qed.

Lemma weightedPrompts_ext s s' :
  musicComponents s' = musicComponents s ->
  filteredComponents s' = filteredComponents s ->
  weightedPrompts s' = weightedPrompts s.
Proof. intros Hm Hf. unfold weightedPrompts, componentsToSend. by rewrite Hm, Hf. Qed.

Lemma weightedPrompts_game s s' : game s' = game s -> weightedPrompts s' = weightedPrompts s.
Proof.
  intros G. apply weightedPrompts_ext; [by apply game_musicComponents | by apply game_filtered].
Qed.

Lemma pushesSnapshot_noPush s s' : appendsNoPush s s' -> pushesSnapshot s s'.
Proof. intros (l & E & N). exists l. split; [done |]. intros x ps H. by apply N in H. Qed.

Lemma pushesSnapshot_before s s1 s2 :
  appendsNoPush s s1 -> pushesSnapshot s1 s2 -> pushesSnapshot s s2.
Proof.
  intros (l1 & E1 & N1) (l2 & E2 & H2). exists (l1 ++ l2). split.
  - by rewrite E2, E1, app_assoc.
  - intros x ps [H | H]%in_app_or; [by apply N1 in H | by apply H2 in H].
Qed.

Lemma pushesSnapshot_after s s1 s2 :
  pushesSnapshot s s1 -> appendsNoPush s1 s2 ->
  weightedPrompts s2 = weightedPrompts s1 ->
  pushesSnapshot s s2.
Proof.
  intros (l1 & E1 & H1) (l2 & E2 & N2) Hw. exists (l1 ++ l2). split.
  - by rewrite E2, E1, app_assoc.
  - intros x ps [H | H]%in_app_or; [rewrite Hw; by apply H1 in H | by apply N2 in H].
Qed.

Lemma setSessionMusicComponents_pushesSnapshot nowMs s :
  pushesSnapshot s (setSessionMusicComponents nowMs s).
Proof.
  unfold pushesSnapshot.
  rewrite (weightedPrompts_game _ _ (setSessionMusicComponents_game nowMs s)).
  unfold_push. split_ifs.
  - exists [SetWeightedPrompts n (weightedPrompts s)]. split; [done |].
    by intros x ps [[= _ <-] | []].
  - exists []. split; [by rewrite app_nil_r | by intros x ps []].
  - exists []. split; [by rewrite app_nil_r | by intros x ps []].
Qed.

Lemma handleGuessSubmit_pushesSnapshot COLORS rnd nowMs s :
  pushesSnapshot s (handleGuessSubmit COLORS rnd nowMs s).
Proof.
  destruct (gameWon s) eqn:Hw.
  { rewrite handleGuessSubmit_won by done.
    by apply pushesSnapshot_noPush, appendsNoPush_emit. }
  destruct (decide (normalise (guessInputValue s) = "")) as [He | He].
  { rewrite handleGuessSubmit_empty by done.
    apply pushesSnapshot_noPush, appendsNoPush_refl. }
  destruct (decide (normalise (guessInputValue s) = currentWordToGuess s))
    as [Hc | Hc].
  - rewrite handleGuessSubmit_correct by done.
    apply (pushesSnapshot_before _ (withNewComponent COLORS rnd s)).
    { unfold withNewComponent. solve_appendsNoPush. }
    generalize (withNewComponent COLORS rnd s). intros s1.
    eapply pushesSnapshot_after; [apply (setSessionMusicComponents_pushesSnapshot nowMs) | |].
    + eapply appendsNoPush_trans; [apply fetchNextWord_noPush |].
      by apply appendsNoPush_same_log.
    + apply weightedPrompts_ext.
      * apply (fetchNextWord_fields (setSessionMusicComponents nowMs s1)).
      * apply fetchNextWord_filtered.
  - rewrite handleGuessSubmit_incorrect by done.
    apply pushesSnapshot_noPush.
    eexists. split; [step_state; rewrite !app_cons_assoc; reflexivity | solve_noPush].
Qed.

Lemma updateWeight_pushesSnapshot id value nowMs s :
  pushesSnapshot s (updateWeight id value nowMs s).
Proof.
  unfold updateWeight, handleMusicComponentChanged.
  destruct (JsMap.get id _) as [c |];
    [| apply pushesSnapshot_noPush, appendsNoPush_refl].
  cbn [promptId].
  destruct (JsMap.get (promptId c) _);
    [| by apply pushesSnapshot_noPush, appendsNoPush_emit].
  eapply pushesSnapshot_before; [| apply setSessionMusicComponents_pushesSnapshot].
  by apply appendsNoPush_same_log.
Qed.

Lemma handleMusicComponentRemoved_pushesSnapshot id nowMs s :
  pushesSnapshot s (handleMusicComponentRemoved id nowMs s).
Proof.
  unfold handleMusicComponentRemoved.
  destruct (JsMap.has id _); [| by apply pushesSnapshot_noPush, appendsNoPush_emit].
  eapply pushesSnapshot_before; [| apply setSessionMusicComponents_pushesSnapshot].
  by apply appendsNoPush_same_log.
Qed.

Lemma handlePlayPause_resume_pushesSnapshot o nowMs now s :
  pushesSnapshot s (handlePlayPause_resume o nowMs now s).
Proof.
  unfold handlePlayPause_resume.
  eapply pushesSnapshot_before; [apply (connectToSession_resume_noPush o) |].
  generalize (connectToSession_resume o s). intros s1.
  destruct (negb (connectionError s1) && hasSession s1).
  - eapply pushesSnapshot_after;
      [apply (setSessionMusicComponents_pushesSnapshot nowMs) | apply loadAudio_noPush |].
    apply weightedPrompts_game, loadAudio_game.
  - apply pushesSnapshot_noPush.
    eapply appendsNoPush_trans;
      [apply (appendsNoPush_emit (Toast "Failed to reconnect. Please try again." 3000));
       done |].
    by apply appendsNoPush_same_log.
Qed.

Lemma initializeGame_pushesSnapshot shuffled nowMs s :
  pushesSnapshot s (initializeGame shuffled nowMs s).
Proof.
  unfold initializeGame.
  set (s0 := set_filteredComponents _ _).
  assert (H0 : appendsNoPush s (fetchNextWord s0)).
  { eapply appendsNoPush_trans; [| apply fetchNextWord_noPush].
    by apply appendsNoPush_same_log. }
  clearbody s0. revert H0. generalize (fetchNextWord s0). intros s1 H1.
  destruct (session s1).
  - eapply pushesSnapshot_before; [exact H1 |].
    apply setSessionMusicComponents_pushesSnapshot.
  - by apply pushesSnapshot_noPush.
Qed.

Lemma handleReset_body_pushesSnapshot shuffled nowMs now s :
  pushesSnapshot s (stateOf (handleReset_body shuffled nowMs now s)).
Proof.
  unfold handleReset_body.
  eapply pushesSnapshot_before; [apply (pauseAudio_noPush now) |].
  generalize (pauseAudio now s). intros s1.
  pose proof (initializeGame_pushesSnapshot shuffled nowMs s1) as H2.
  revert H2. generalize (initializeGame shuffled nowMs s1). intros s2 H2.
  pose proof (resetToDefaults_noPush nowMs s2) as N3.
  pose proof (resetToDefaults_game nowMs s2) as G3.
  revert N3 G3. generalize (resetToDefaults nowMs s2). intros s3 N3 G3.
  eapply pushesSnapshot_after; [exact H2 | |].
  - eapply appendsNoPush_trans; [exact N3 |].
    destruct (session s3) as [x |]; cbn [stateOf]; [| apply handleReset_finish_noPush].
    eapply appendsNoPush_trans;
      [apply (appendsNoPush_emit (SessionResetContext x)); done |].
    by apply appendsNoPush_emit.
  - rewrite <- (weightedPrompts_game _ _ G3). apply weightedPrompts_game.
    destruct (session s3); cbn [stateOf]; [done | apply handleReset_finish_game].
Qed.

Lemma handleReset_pushesSnapshot shuffled nowMs now s :
  pushesSnapshot s (stateOf (handleReset shuffled nowMs now s)).
Proof.
  unfold handleReset.
  eapply pushesSnapshot_before;
    [apply (appendsNoPush_emit (Toast "Resetting game and music..." 2000)); done |].
  fold (toast "Resetting game and music..." 2000 s).
  generalize (toast "Resetting game and music..." 2000 s). intros s1.
  destruct (needsConnect s1); cbn [stateOf].
  - by apply pushesSnapshot_noPush, appendsNoPush_emit.
  - apply handleReset_body_pushesSnapshot.
Qed.

Section PushedSnapshots.
Variable decode : string -> option (list Byte.byte).
Variable decodeAudioData : list Byte.byte -> Z -> Z -> option AudioBuffer.

Lemma audioError_noPush now s : appendsNoPush s (audioError now s).
Proof.
  unfold audioError. cbv zeta.
  set (s1 := toast _ 3000 _).
  assert (H1 : appendsNoPush s s1).
  { eapply appendsNoPush_trans;
      [apply (appendsNoPush_emit (ConsoleError "Error processing audio chunk:")); done |].
    by apply appendsNoPush_emit. }
  clearbody s1. eapply appendsNoPush_trans; [exact H1 |].
  destruct (isActive s1); [apply pauseAudio_noPush | apply appendsNoPush_refl].
Qed.

Lemma onmessage_noPush e now s :
  appendsNoPush s (stateOf (onmessage decode e now s)).
Proof.
  unfold onmessage.
  set (s0 := if setupComplete e then _ else _).
  assert (H0 : appendsNoPush s (onFilteredPrompt e s0)).
  { eapply appendsNoPush_trans; [| apply onFilteredPrompt_noPush].
    apply appendsNoPush_same_log. unfold s0. by destruct (setupComplete e). }
  clearbody s0. eapply appendsNoPush_trans; [exact H0 |].
  generalize (onFilteredPrompt e s0). intros s1.
  destruct (audioChunks e) as [[| chunk rest] |]; try apply appendsNoPush_refl.
  destruct (isHalted s1); [apply appendsNoPush_refl |].
  destruct (data chunk) as [d |]; cbn [stateOf]; [| by apply appendsNoPush_emit].
  destruct (JsString.trim d); cbn [stateOf]; [by apply appendsNoPush_emit |].
  destruct (decode d) as [[| byte decodedData] |]; cbn [stateOf].
  - by apply appendsNoPush_emit.
  - apply appendsNoPush_refl.
  - apply audioError_noPush.
Qed.

Lemma onmessage_resume_noPush decodedData now s :
  appendsNoPush s (onmessage_resume decodeAudioData decodedData now s).
Proof.
  unfold onmessage_resume.
  destruct (decodeAudioData _ _ _) as [audioBuffer |]; [| apply audioError_noPush].
  solve_appendsNoPush.
Qed.

Lemma setSessionMusicComponents_rejected_noPush message now s :
  appendsNoPush s (setSessionMusicComponents_rejected message now s).
Proof.
  unfold setSessionMusicComponents_rejected. cbv zeta.
  set (s1 := toast _ 4000 s).
  assert (H1 : appendsNoPush s s1) by (by apply appendsNoPush_emit).
  clearbody s1. eapply appendsNoPush_trans; [exact H1 |].
  destruct (isActive s1); [apply pauseAudio_noPush | apply appendsNoPush_refl].
Qed.

Lemma onerror_noPush message now s : appendsNoPush s (onerror message now s).
Proof.
  unfold onerror. cbv zeta.
  set (s0 := set_connectionError true _).
  assert (H0 : appendsNoPush s s0).
  { eapply appendsNoPush_trans;
      [apply (appendsNoPush_emit (ConsoleError ("Connection error: " +:+ message)));
       done |].
    by apply appendsNoPush_same_log. }
  clearbody s0. eapply appendsNoPush_trans; [exact H0 |].
  eapply appendsNoPush_trans; [apply pauseAudio_noPush | by apply appendsNoPush_emit].
Qed.

Lemma onclose_noPush wasClean now s : appendsNoPush s (onclose wasClean now s).
Proof.
  unfold onclose. destruct wasClean; [apply appendsNoPush_refl |]. cbv zeta.
  set (s0 := set_connectionError true s).
  assert (H0 : appendsNoPush s s0) by (by apply appendsNoPush_same_log).
  clearbody s0. eapply appendsNoPush_trans; [exact H0 |].
  eapply appendsNoPush_trans; [apply pauseAudio_noPush | by apply appendsNoPush_emit].
Qed.

(** Whatever a handler pushes is the snapshot of the state it leaves. *)
Lemma dispatch_pushesSnapshot ev s :
  pushesSnapshot s (dispatch decode decodeAudioData ev s).
Proof.
  destruct ev; cbn [dispatch].
  - by apply pushesSnapshot_noPush, appendsNoPush_same_log.
  - apply handleGuessSubmit_pushesSnapshot.
  - apply pushesSnapshot_noPush. unfold skipWord.
    eapply appendsNoPush_trans; [| apply fetchNextWord_noPush].
    by apply appendsNoPush_emit.
  - apply updateWeight_pushesSnapshot.
  - apply handleMusicComponentRemoved_pushesSnapshot.
  - apply pushesSnapshot_noPush, updateSettings_noPush.
  - apply pushesSnapshot_noPush, handlePlayPause_noPush.
  - apply handlePlayPause_resume_pushesSnapshot.
  - apply handleReset_pushesSnapshot.
  - unfold handleReset_resume.
    eapply pushesSnapshot_before; [apply (connectToSession_resume_noPush o) |].
    apply handleReset_body_pushesSnapshot.
  - apply pushesSnapshot_noPush, handleReset_finish_noPush.
  - by apply pushesSnapshot_noPush, appendsNoPush_emit.
  - unfold firstUpdated_resume.
    eapply pushesSnapshot_before; [apply (connectToSession_resume_noPush o) |].
    apply setSessionMusicComponents_pushesSnapshot.
  - apply pushesSnapshot_noPush, onmessage_noPush.
  - apply pushesSnapshot_noPush, onmessage_resume_noPush.
  - apply pushesSnapshot_noPush, setSessionMusicComponents_rejected_noPush.
  - apply pushesSnapshot_noPush, onerror_noPush.
  - apply pushesSnapshot_noPush, onclose_noPush.
  - apply pushesSnapshot_noPush, appendsNoPush_same_log.
    unfold prerollTimerFired. by destruct (playbackState s).
  - by apply pushesSnapshot_noPush, appendsNoPush_same_log.
Qed.

(** A handler that changes the components pushes the new snapshot, with a
    session and the throttle open. *)
Lemma dispatch_pushes ev s x nowMs :
  wellFormed s ->
  pushTime ev s = Some nowMs ->
  session s = Some x ->
  200 <= nowMs - lastCallComponents s ->
  let s' := dispatch decode decodeAudioData ev s in
  exists l1 l2,
    log s' = log s ++ l1 ++ SetWeightedPrompts x (weightedPrompts s') :: l2.
Proof.
  intros (Hinv & _) Hp Hx Ht. cbv zeta.
  destruct ev; cbn [pushTime dispatch] in *; try discriminate Hp.
  - destruct (gameWon s) eqn:Hw; [discriminate Hp |].
    destruct (String.eqb_spec (normalise (guessInputValue s)) "") as [| He];
      [discriminate Hp |].
    destruct (String.eqb_spec (normalise (guessInputValue s)) (currentWordToGuess s))
      as [Hc |]; [| discriminate Hp].
    cbn in Hp. injection Hp as ->.
    rewrite handleGuessSubmit_correct by done.
    set (s1 := withNewComponent COLORS rnd s).
    assert (H1 : log s1 = log s ++ [Toast ("Correct: " +:+ currentWordToGuess s +:+ "!") 2000]
                 /\ session s1 = Some x /\ lastCallComponents s1 = lastCallComponents s).
    { unfold s1, withNewComponent. by step_state. }
    destruct H1 as (Hl1 & Hx1 & Hc1). clearbody s1.
    pose proof (setSessionMusicComponents_open nowMs s1 x Hx1 ltac:(lia)) as E2.
    pose proof (weightedPrompts_game _ _ (setSessionMusicComponents_game nowMs s1)) as W2.
    revert E2 W2. generalize (setSessionMusicComponents nowMs s1). intros s2 E2 W2.
    destruct (fetchNextWord_noStop s2) as (l3 & E3 & _).
    assert (W3 : weightedPrompts (set_guessInputValue "" (fetchNextWord s2))
                 = weightedPrompts s1).
    { rewrite <- W2. apply weightedPrompts_ext.
      - apply (fetchNextWord_fields s2).
      - apply fetchNextWord_filtered. }
    rewrite W3. exists [Toast ("Correct: " +:+ currentWordToGuess s +:+ "!") 2000], l3.
    change (log (set_guessInputValue "" (fetchNextWord s2))) with (log (fetchNextWord s2)).
    rewrite E3, E2. cbn [log set_lastCallComponents emit set_log].
    rewrite Hl1, <- !app_assoc. reflexivity.
  - unfold JsMap.has in Hp.
    destruct (JsMap.get id (musicComponents s)) as [c |] eqn:Hget; [| discriminate Hp].
    injection Hp as ->.
    destruct (inv_ids _ _ _ _ _ Hinv id c (get_elem_of _ _ _ Hget)) as (Hpid & _).
    unfold updateWeight. rewrite Hget.
    unfold handleMusicComponentChanged. cbn [promptId text weight color].
    rewrite Hpid, Hget. cbn [promptId text weight color]. rewrite ?Hpid, set_idem.
    set (s1 := set_musicComponents _ s).
    rewrite (weightedPrompts_game _ _ (setSessionMusicComponents_game nowMs s1)).
    rewrite (setSessionMusicComponents_open nowMs s1 x) by done.
    exists [], []. by step_state.
  - unfold handleMusicComponentRemoved. unfold JsMap.has in *.
    destruct (JsMap.get id (musicComponents s)) as [c |] eqn:Hget; [| discriminate Hp].
    injection Hp as ->.
    set (s1 := set_filteredComponents _ _).
    rewrite (weightedPrompts_game _ _ (setSessionMusicComponents_game nowMs s1)).
    rewrite (setSessionMusicComponents_open nowMs s1 x) by done.
    exists [], []. by step_state.
Qed.

(** Through a run that keeps a filtered component, no snapshot that is
    pushed holds its text. *)
Lemma run_pushes_exclude id evs s c :
  Forall (keepsComponent id) evs ->
  wellFormed s ->
  (id, c) ∈ musicComponents s ->
  id ∈ filteredComponents s ->
  exists l,
    log (run decode decodeAudioData evs s) = log s ++ l /\
    forall x ps p, In (SetWeightedPrompts x ps) l -> p ∈ ps -> wp_text p <> text c.
Proof.
  intros Hk. revert s c.
  induction Hk as [| ev evs Hev _ IH]; intros s c Hwf Hc Hf.
  { exists []. split; [by rewrite app_nil_r | by intros x ps p []]. }
  change (run decode decodeAudioData (ev :: evs) s)
    with (run decode decodeAudioData evs (dispatch decode decodeAudioData ev s)).
  destruct (dispatch_keeps_component decode decodeAudioData id ev s c Hev Hwf Hc)
    as (c1 & Hc1 & Ht1).
  pose proof (dispatch_keeps_filtered decode decodeAudioData id ev s Hev Hf) as Hf1.
  pose proof (dispatch_wellFormed decode decodeAudioData ev s
                (keepsComponent_admissible _ _ Hev) Hwf) as Hwf1.
  destruct (dispatch_pushesSnapshot ev s) as (l1 & E1 & H1).
  revert Hc1 Hf1 Hwf1 E1 H1.
  generalize (dispatch decode decodeAudioData ev s). intros s1 Hc1 Hf1 Hwf1 E1 H1.
  destruct (IH s1 c1 Hwf1 Hc1 Hf1) as (l2 & E2 & H2).
  exists (l1 ++ l2). split; [by rewrite E2, E1, app_assoc |].
  intros x ps p [Hin | Hin]%in_app_or Hp.
  - rewrite (H1 x ps Hin) in Hp.
    apply weightedPrompts_spec in Hp as (c' & Hc' & -> & _ & Hn). cbn. intros E.
    destruct Hwf1 as (Hinv1 & _).
    assert (c' = c1) as ->.
    { eapply (NoDup_map_inj text);
        [apply Hinv1 | done | by eapply elem_of_values | congruence]. }
    destruct (inv_ids _ _ _ _ _ Hinv1 _ _ Hc1) as [E' _].
    apply Hn. by rewrite E'.
  - rewrite <- Ht1. by eapply H2.
Qed.

(** Along a run, every push is the snapshot of the state its handler
    leaves. *)
Lemma run_pushesSnapshots evs s :
  exists l,
    log (run decode decodeAudioData evs s) = log s ++ l /\
    forall x ps, In (SetWeightedPrompts x ps) l ->
      exists k, (k < length evs)%nat /\
        ps = weightedPrompts (run decode decodeAudioData (take (S k) evs) s).
Proof.
  revert s. induction evs as [| ev evs IH]; intros s.
  { exists []. split; [by rewrite app_nil_r | by intros x ps []]. }
  destruct (dispatch_pushesSnapshot ev s) as (l1 & E1 & H1).
  destruct (IH (dispatch decode decodeAudioData ev s)) as (l2 & E2 & H2).
  exists (l1 ++ l2). split.
  - change (run decode decodeAudioData (ev :: evs) s)
      with (run decode decodeAudioData evs (dispatch decode decodeAudioData ev s)).
    by rewrite E2, E1, app_assoc.
  - intros x ps [Hin | Hin]%in_app_or.
    + exists 0%nat. split; [cbn; lia |]. rewrite (H1 x ps Hin). by destruct evs.
    + destruct (H2 x ps Hin) as (k & Hk & ->). exists (S k). split; [cbn; lia | done].
Qed.

End PushedSnapshots.

(** C6: the snapshot handed to [session.setWeightedPrompts] holds exactly the
    [{text, weight}] pairs of the components whose weight is above 0.01 and
    whose identifier is not in the filtered set.  Every list of prompts a
    handler pushes to the session is that snapshot, taken of the state the
    handler leaves, and so is every list pushed along a run of events; a
    correct guess, a slider and a remove button push it whenever a session
    exists and the throttle is open.  When a [filteredPrompt] message names
    the text of a component, the identifier of that component is put into
    the filtered set while the component map stays as it is; through every
    later run of events without its own removal and without a reset of the
    game the component stays in the map, stays filtered, and no list pushed
    to the session holds its text. *)
Theorem snapshot_excludes_filtered
    (decode : string -> option (list Byte.byte))
    (decodeAudioData : list Byte.byte -> Z -> Z -> option AudioBuffer)
    (s : State) :
  reachable decode decodeAudioData s ->
  (forall x, session s = Some x ->
     log (pushComponents tt s) = log s ++ [SetWeightedPrompts x (weightedPrompts s)]) /\
  (forall p, p ∈ weightedPrompts s <->
     exists c, c ∈ JsMap.values (musicComponents s) /\
               p = {| wp_text := text c; wp_weight := weight c |} /\
               (0.01 <? weight c)%float = true /\
               promptId c ∉ filteredComponents s) /\
  (forall ev,
     let s' := dispatch decode decodeAudioData ev s in
     exists l,
       log s' = log s ++ l /\
       forall x ps, In (SetWeightedPrompts x ps) l ->
         ps = weightedPrompts s' /\
         forall p, p ∈ ps <->
           exists c, c ∈ JsMap.values (musicComponents s') /\
                     p = {| wp_text := text c; wp_weight := weight c |} /\
                     (0.01 <? weight c)%float = true /\
                     promptId c ∉ filteredComponents s') /\
  (forall evs,
     exists l,
       log (run decode decodeAudioData evs s) = log s ++ l /\
       forall x ps, In (SetWeightedPrompts x ps) l ->
         exists k, (k < length evs)%nat /\
           ps = weightedPrompts (run decode decodeAudioData (take (S k) evs) s)) /\
  (forall ev x nowMs,
     pushTime ev s = Some nowMs ->
     session s = Some x ->
     200 <= nowMs - lastCallComponents s ->
     let s' := dispatch decode decodeAudioData ev s in
     exists l1 l2,
       log s' = log s ++ l1 ++ SetWeightedPrompts x (weightedPrompts s') :: l2) /\
  (forall e now fp c,
     filteredPrompt e = Some fp ->
     c ∈ JsMap.values (musicComponents s) ->
     text c = fp_text fp ->
     let s' := stateOf (onmessage decode e now s) in
     promptId c ∈ filteredComponents s' /\
     musicComponents s' = musicComponents s /\
     (forall p, p ∈ weightedPrompts s' -> wp_text p <> text c) /\
     (forall evs,
        Forall (keepsComponent (promptId c)) evs ->
        let s'' := run decode decodeAudioData evs s' in
        promptId c ∈ filteredComponents s'' /\
        (exists c'', (promptId c, c'') ∈ musicComponents s'' /\ text c'' = text c) /\
        (forall c', c' ∈ componentsToSend s'' -> promptId c' <> promptId c) /\
        (forall p, p ∈ weightedPrompts s'' -> wp_text p <> text c) /\
        exists l,
          log s'' = log s' ++ l /\
          forall x ps p, In (SetWeightedPrompts x ps) l -> p ∈ ps ->
                         wp_text p <> text c)).
Proof.
  intros Hr. pose proof (reachable_wellFormed _ _ _ Hr) as Hwf.
  split; [| split; [| split; [| split; [| split]]]].
  - intros x Hx. unfold pushComponents. by rewrite Hx.
  - apply weightedPrompts_spec.
  - intros ev s'. destruct (dispatch_pushesSnapshot decode decodeAudioData ev s)
      as (l & E & H).
    exists l. split; [done |]. intros x ps Hin. rewrite (H x ps Hin).
    split; [done |]. apply weightedPrompts_spec.
  - intros evs. apply run_pushesSnapshots.
  - intros ev x nowMs Hp Hx Ht.
    by apply (dispatch_pushes decode decodeAudioData ev s x nowMs).
  - intros e now fp c Hfp Hc Ht s'.
    assert (Hr' : reachable decode decodeAudioData s').
    { by apply (reachable_dispatch _ _ (ServerMessage e now)). }
    pose proof (reachable_wellFormed _ _ _ Hr') as Hwf'.
    assert (Hm : musicComponents s' = musicComponents s).
    { unfold s'. rewrite (game_musicComponents _ _ (onmessage_game decode e now s)).
      apply onFilteredPrompt_musicComponents. }
    assert (Hf : promptId c ∈ filteredComponents s').
    { unfold s'. rewrite (game_filtered _ _ (onmessage_game decode e now s)).
      unfold onFilteredPrompt. rewrite Hfp, <- Ht, (find_by_text s c) by done.
      step_state. apply elem_of_union. left. by apply elem_of_singleton. }
    split; [done |]. split; [done |]. split.
    + intros p (c' & Hc' & -> & _ & Hn)%weightedPrompts_spec E. cbn in E.
      rewrite Hm in Hc'.
      assert (c' = c) as ->; [| done].
      eapply (NoDup_map_inj text); [apply Hwf | done | done | done].
    + intros evs Hk s''.
      assert (Hf'' : promptId c ∈ filteredComponents s'')
        by (by apply run_keeps_filtered).
      assert (Hin : (promptId c, c) ∈ musicComponents s').
      { rewrite Hm. destruct (values_elem_of _ _ Hc) as [k Hk'].
        destruct Hwf as (Hinv & _).
        by destruct (inv_ids _ _ _ _ _ Hinv k c Hk') as [-> _]. }
      destruct (run_keeps_component decode decodeAudioData _ evs s' c Hk Hwf' Hin)
        as (Hwf'' & c'' & Hc'' & Ht'').
      fold s'' in Hwf'', Hc''.
      split; [done |]. split; [by exists c'' |]. split; [| split].
      * intros c' Hc'%componentsToSend_not_filtered E. by rewrite E in Hc'.
      * intros p (c' & Hc' & -> & _ & Hn)%weightedPrompts_spec E. cbn in E.
        destruct Hwf'' as (Hinv'' & _).
        assert (c' = c'') as ->.
        { eapply (NoDup_map_inj text);
            [apply Hinv'' | done | by eapply elem_of_values | congruence]. }
        destruct (inv_ids _ _ _ _ _ Hinv'' _ _ Hc'') as [E' _].
        apply Hn. by rewrite E'.
      * by apply (run_pushes_exclude decode decodeAudioData (promptId c)).
Qed.

Lemma connectedGame_reachable : reachable silence framesBuffer connectedGame.
Proof.
  unfold connectedGame, play. apply reachable_run; [repeat constructor |].
  by constructor.
Qed.

Lemma loadingGame_reachable : reachable silence framesBuffer loadingGame.
Proof.
  unfold loadingGame, play. apply reachable_run; [repeat constructor |].
  apply connectedGame_reachable.
Qed.

(** The run in which a buffer is started while paused is a run of the event
    loop. *)
Lemma paused_schedule_reachable :
  reachable silence framesBuffer
    (play [DecodeSettled silentBytes 2.2%float]
       (play [ServerMessage (audioMessage "UklGRg==") 2.1%float;
              PressPlayPause 2.15%float] loadingGame)).
Proof.
  unfold play. do 2 (apply reachable_run; [repeat constructor |]).
  apply loadingGame_reachable.
Qed.

Lemma typedHappyGame_reachable : reachable silence framesBuffer typedHappyGame.
Proof.
  unfold typedHappyGame, play. apply reachable_run; [repeat constructor |].
  apply connectedGame_reachable.
Qed.

Lemma happyGame_reachable : reachable silence framesBuffer happyGame.
Proof.
  unfold happyGame, play. apply reachable_run; [repeat constructor |].
  apply typedHappyGame_reachable.
Qed.

Lemma snapshot_excludes_filtered_witness :
  let s' := stateOf (onmessage silence happyFiltered 6%float happyGame) in
  musicComponents happyGame = [("component-0", happyComponent)] /\
  "component-0" ∈ filteredComponents s' /\
  musicComponents s' = musicComponents happyGame.
Proof.
  split; [vm_compute; reflexivity |].
  destruct (snapshot_excludes_filtered silence framesBuffer happyGame
              happyGame_reachable) as (_ & _ & _ & _ & _ & H).
  destruct (H happyFiltered 6%float
              {| fp_text := "HAPPY"; filteredReason := "policy" |} happyComponent)
    as (H1 & H2 & _).
  - reflexivity.
  - vm_compute. by left.
  - reflexivity.
  - split; [exact H1 | exact H2].
Defined.

(** ** Guesses *)

Lemma lastWordGame_reachable : reachable silence framesBuffer lastWordGame.
Proof.
  unfold lastWordGame, play. apply reachable_run; [repeat constructor |].
  by constructor.
Qed.

(** C7, as stated, fails at the last word: after the correct guess the word
    on display is the end marker, which is no word of the sequence. *)
Lemma last_correct_guess_has_no_next_word :
  let s := lastWordGame in
  let s' := handleGuessSubmit [] 0 1000 s in
  gameWon s = false /\
  normalise (guessInputValue s) = currentWordToGuess s /\
  currentWordToGuess s' = "YOU WON!" /\
  currentWordToGuess s' ∉ availableWords s'.
Proof.
  split; [vm_compute; reflexivity |]. split; [vm_compute; reflexivity |].
  split; [vm_compute; reflexivity |].
  apply (proj1 (bool_decide_eq_false (_ ∈ _))). vm_compute. reflexivity.
Qed.

(** C7 (amended): in every reachable state in which the game is not won, a
    submission whose normalised input is non-empty and equals
    [currentWordToGuess] appends to the component map a component with that
    text, weight 0.5 and an identifier that no component has and that is not
    filtered, calls the throttled push on the state holding it (so that,
    with a session and the window open, the session receives a snapshot with
    the new component), and advances [currentWordIndex] by one: the word on
    display becomes the next word of the sequence when one is left, and the
    marker YOU WON! with [gameWon] set when the guessed word was the last.
    A submission whose normalised input is non-empty and differs from
    [currentWordToGuess] leaves the component map, the word and the index
    alone and shows the toast for an incorrect guess. *)
Theorem guess_submission_outcome
    (decode : string -> option (list Byte.byte))
    (decodeAudioData : list Byte.byte -> Z -> Z -> option AudioBuffer)
    (COLORS : list string) (rnd : nat) (nowMs : Z) (s : State) :
  reachable decode decodeAudioData s ->
  gameWon s = false ->
  normalise (guessInputValue s) <> "" ->
  let s' := handleGuessSubmit COLORS rnd nowMs s in
  (normalise (guessInputValue s) = currentWordToGuess s ->
   let c := newComponent COLORS rnd s in
   let pushed := withNewComponent COLORS rnd s in
   promptId c = componentId (nextComponentId s) /\
   (promptId c ∉ JsMap.keys (musicComponents s)) /\
   (promptId c ∉ filteredComponents s) /\
   text c = currentWordToGuess s /\
   weight c = 0.5%float /\
   musicComponents pushed = musicComponents s ++ [(promptId c, c)] /\
   musicComponents s' = musicComponents pushed /\
   s' = set_guessInputValue "" (fetchNextWord (setSessionMusicComponents nowMs pushed)) /\
   (forall x, session s = Some x -> 200 <= nowMs - lastCallComponents s ->
      In (SetWeightedPrompts x (weightedPrompts pushed)) (log s') /\
      {| wp_text := text c; wp_weight := 0.5%float |} ∈ weightedPrompts pushed) /\
   currentWordIndex s' = currentWordIndex s + 1 /\
   (currentWordIndex s + 1 < Z.of_nat (length (availableWords s)) ->
    at_index (availableWords s) (currentWordIndex s + 1) = Some (currentWordToGuess s') /\
    gameWon s' = false) /\
   (Z.of_nat (length (availableWords s)) <= currentWordIndex s + 1 ->
    currentWordToGuess s' = "YOU WON!" /\ gameWon s' = true))
  /\
  (normalise (guessInputValue s) <> currentWordToGuess s ->
   musicComponents s' = musicComponents s /\
   currentWordToGuess s' = currentWordToGuess s /\
   currentWordIndex s' = currentWordIndex s /\
   log s' = log s ++ [Toast "Incorrect guess. Try again!" 2000;
                      InputSelect; InputAnimate]).
Proof.
  intros Hr Hw Hn s'.
  destruct (reachable_wellFormed _ _ _ Hr) as (Hinv & Hidx & Hcur).
  split.
  - intros Hc c pushed.
    pose proof (componentId_fresh _ _ _ _ _ Hinv) as Hfresh.
    assert (Hnf : promptId c ∉ filteredComponents s).
    { intros Hf. apply Hfresh. by apply (inv_filtered _ _ _ _ _ Hinv). }
    assert (Hm : musicComponents pushed = musicComponents s ++ [(promptId c, c)]).
    { unfold pushed, withNewComponent. step_state. by apply set_fresh. }
    assert (Es : s' = set_guessInputValue ""
                        (fetchNextWord (setSessionMusicComponents nowMs pushed))).
    { by apply handleGuessSubmit_correct. }
    pose proof (setSessionMusicComponents_game nowMs pushed) as G.
    unfold game in G. injection G as G1 G2 G3 G4 G5 G6 G7.
    destruct (fetchNextWord_fields (setSessionMusicComponents nowMs pushed))
      as (F1 & F2 & F3 & F4 & F5).
    rewrite G4, G6, G7 in *.
    replace (currentWordIndex pushed) with (currentWordIndex s) in * by done.
    replace (availableWords pushed) with (availableWords s) in * by done.
    replace (gameWon pushed) with (gameWon s) in * by done.
    split; [done |]. split; [done |]. split; [done |]. split; [done |].
    split; [done |]. split; [done |].
    split; [rewrite Es; step_state; by rewrite F1, G1 |].
    split; [done |]. split; [| split; [| split]].
    + intros x Hx Ho. split.
      * rewrite Es. step_state. apply fetchNextWord_log_In.
        rewrite (setSessionMusicComponents_open _ _ x) by done.
        step_state. apply in_or_app. right. by left.
      * apply weightedPrompts_spec. exists c. split.
        { rewrite Hm, values_app. apply elem_of_app. right.
          by apply list_elem_of_singleton. }
        split; [done |]. split; [by vm_compute | done].
    + rewrite Es. step_state. exact F2.
    + intros Hlt. rewrite Es. step_state. rewrite <- Hw. apply F3; lia.
    + intros Hge. rewrite Es. step_state. by apply F4.
  - intros Hc. unfold s'. rewrite handleGuessSubmit_incorrect by done.
    step_state. by rewrite !app_cons_assoc.
Qed.

Lemma guess_submission_outcome_witness :
  let s' := handleGuessSubmit ["#9900ff"; "#5200ff"] 3 5000 typedHappyGame in
  musicComponents s' = [("component-0", happyComponent)] /\
  currentWordIndex s' = 1 /\
  In (SetWeightedPrompts 7 [ {| wp_text := "HAPPY"; wp_weight := 0.5%float |} ])
    (log s').
Proof.
  destruct (guess_submission_outcome silence framesBuffer
              ["#9900ff"; "#5200ff"] 3 5000 typedHappyGame)
    as [H _]; [exact typedHappyGame_reachable | vm_compute; reflexivity
              | vm_compute; discriminate |].
  destruct (H ltac:(vm_compute; reflexivity))
    as (_ & _ & _ & _ & _ & _ & H1 & _ & H2 & H3 & _).
  split; [| split].
  - etransitivity; [exact H1 |]. vm_compute. reflexivity.
  - etransitivity; [exact H3 |]. vm_compute. reflexivity.
  - destruct (H2 7%nat ltac:(vm_compute; reflexivity) ltac:(vm_compute; discriminate))
      as [H4 _].
    revert H4. vm_compute. exact (fun h => h).
Defined.

(** ** The end of the game *)

Lemma submitAll_won submissions s :
  gameWon s = true ->
  game (submitAll submissions s) = game s /\
  log (submitAll submissions s) = log s ++ repeat gameOver (length submissions).
Proof.
  revert s. induction submissions as [| [[[value COLORS] rnd] nowMs] r IH];
    intros s Hw; cbn [submitAll fold_left length repeat].
  - by rewrite app_nil_r.
  - rewrite handleGuessSubmit_won by done.
    destruct (IH (toast "Game over! Reset to play again." 3000
                    (set_guessInputValue value s))) as [G L]; [done |].
    unfold submitAll in G, L. rewrite G, L. step_state.
    by rewrite app_cons_assoc.
Qed.

(** C9, as stated, fails: after the last word is guessed the index equals
    the number of words (29); it does not exceed it. *)
Lemma index_stops_at_word_count :
  gameWon lastWordGame = false /\
  normalise (guessInputValue lastWordGame) = currentWordToGuess lastWordGame /\
  currentWordIndex wonGame = 29 /\
  Z.of_nat (length (availableWords wonGame)) = 29 /\
  ~ (currentWordIndex wonGame > Z.of_nat (length (availableWords wonGame))).
Proof.
  split; [vm_compute; reflexivity |]. split; [vm_compute; reflexivity |].
  split; [vm_compute; reflexivity |]. split; [vm_compute; reflexivity |].
  vm_compute. intros H. discriminate H.
Qed.

(** C9 (amended): when the word on display is the last one and it is guessed
    correctly, [currentWordIndex] becomes equal to the number of available
    words, one past the last valid index, and [gameWon] becomes true with
    the marker YOU WON! on display.  While [gameWon] is true every guess
    submission, whatever was typed, only shows the game-over toast: the
    component map, the index, the filtered set and [gameWon] stay as they
    are, through any number of submissions. *)
Theorem last_guess_wins_and_game_over_rejects
    (COLORS : list string) (rnd : nat) (nowMs : Z) (s : State) :
  (gameWon s = false ->
   normalise (guessInputValue s) <> "" ->
   normalise (guessInputValue s) = currentWordToGuess s ->
   currentWordIndex s + 1 = Z.of_nat (length (availableWords s)) ->
   let s' := handleGuessSubmit COLORS rnd nowMs s in
   currentWordIndex s' = Z.of_nat (length (availableWords s')) /\
   gameWon s' = true /\
   currentWordToGuess s' = "YOU WON!")
  /\
  (gameWon s = true ->
   handleGuessSubmit COLORS rnd nowMs s = emit gameOver s /\
   forall submissions,
     let s' := submitAll submissions s in
     musicComponents s' = musicComponents s /\
     currentWordIndex s' = currentWordIndex s /\
     filteredComponents s' = filteredComponents s /\
     gameWon s' = true /\
     log s' = log s ++ repeat gameOver (length submissions)).
Proof.
  split.
  - intros Hw Hn Hc Hlast s'. unfold s'.
    rewrite handleGuessSubmit_correct by done. step_state.
    pose proof (setSessionMusicComponents_game nowMs (withNewComponent COLORS rnd s)) as G.
    unfold game in G. injection G as G1 G2 G3 G4 G5 G6 G7.
    destruct (fetchNextWord_fields
                (setSessionMusicComponents nowMs (withNewComponent COLORS rnd s)))
      as (F1 & F2 & F3 & F4 & F5).
    rewrite G4, G6 in *.
    replace (currentWordIndex (withNewComponent COLORS rnd s))
      with (currentWordIndex s) in * by done.
    replace (availableWords (withNewComponent COLORS rnd s))
      with (availableWords s) in * by done.
    rewrite F5, F2. split; [done |]. destruct F4 as [F4 F4']; [lia | done].
  - intros Hw. split; [by apply handleGuessSubmit_won |].
    intros submissions s'.
    destruct (submitAll_won submissions s Hw) as [G L]. fold s' in G, L.
    unfold game in G. injection G as G1 G2 G3 G4 G5 G6 G7.
    rewrite G1, G3, G6, G7. done.
Qed.

Lemma last_guess_wins_and_game_over_rejects_witness :
  currentWordIndex wonGame = Z.of_nat (length (availableWords wonGame)) /\
  gameWon wonGame = true /\
  handleGuessSubmit [] 0 2000 wonGame = emit gameOver wonGame.
Proof.
  destruct (last_guess_wins_and_game_over_rejects [] 0 1000 lastWordGame) as [H _].
  destruct (H ltac:(vm_compute; reflexivity) ltac:(vm_compute; discriminate)
              ltac:(vm_compute; reflexivity) ltac:(vm_compute; reflexivity))
    as (H1 & H2 & _).
  split; [exact H1 |]. split; [exact H2 |].
  apply (last_guess_wins_and_game_over_rejects [] 0 2000 wonGame). exact H2.
Defined.

(** ** Normalisation of the typed text *)

Module JsStringFacts.
Import JsString.

Lemma append_nil s : "" +:+ s = s.
Proof. reflexivity. Qed.

Lemma append_cons c r s : String c r +:+ s = String c (r +:+ s).
Proof. reflexivity. Qed.





(** *** Bytes *)

Ltac reduce :=
  rewrite ?append_nil, ?append_cons;
  cbn [firstBytes dropBytes continuationBytes String.length].



Lemma continuationBytes_length s : (continuationBytes s <= String.length s)%nat.
Proof.
  induction s as [| c r IH]; reduce; [lia |]. destruct (isContinuation c); lia.
Qed.







(** *** Characters *)














(** *** White space *)
















(** *** Upper case *)















End JsStringFacts.









(** * Further properties of the handlers *)

(** ** Throttle: the rate limit *)

Section ThrottleRate.
Context {A S : Type}.
Variable func : A -> S -> S.
Variable delay : Z.
Variable lastCall : S -> Z.
Variable set_lastCall : Z -> S -> S.
Hypothesis lastCall_set : forall now s, lastCall (set_lastCall now s) = now.

Lemma throttleAll_cons now args calls s :
  throttleAll func delay lastCall set_lastCall ((now, args) :: calls) s
  = throttleAll func delay lastCall set_lastCall calls
      (throttle func delay lastCall set_lastCall now args s).
Proof. reflexivity. Qed.

Lemma throttleAll_closed calls s :
  Forall (fun c => fst c - lastCall s < delay) calls ->
  throttleAll func delay lastCall set_lastCall calls s = s.
Proof.
  induction 1 as [| [now args] calls Hc _ IH]; [done |].
  rewrite throttleAll_cons. cbn [fst] in Hc. by rewrite throttle_closed.
Qed.

(** X1: Among calls that all fall into one window shorter than [delay], at most
    one runs the wrapped function, and it runs on the state the series began
    with: the others leave no trace. *)
Theorem throttle_runs_once_per_window (t0 : Z) (calls : list (Z * A)) (s : S) :
  Forall (fun c => t0 <= fst c < t0 + delay) calls ->
  throttleAll func delay lastCall set_lastCall calls s = s \/
  exists now args,
    In (now, args) calls /\
    throttleAll func delay lastCall set_lastCall calls s
    = set_lastCall now (func args s).
Proof.
  induction 1 as [| [now args] calls Hc Hw IH]; [by left |].
  rewrite throttleAll_cons. cbn [fst] in Hc.
  destruct (Z.leb_spec delay (now - lastCall s)) as [Hopen | Hclosed].
  - rewrite throttle_open by done.
    right. exists now, args. split; [by left |].
    apply throttleAll_closed.
    eapply Forall_impl; [exact Hw |]. intros [now' args'] Hin. cbn in *.
    rewrite lastCall_set. lia.
  - rewrite throttle_closed by done.
    destruct IH as [IH | (now' & args' & Hin & IH)]; [by left |].
    right. exists now', args'. split; [by right | done].
Qed.

End ThrottleRate.

Lemma throttle_runs_once_per_window_witness :
  let calls := [(1000, tt); (1050, tt); (1199, tt)] in
  throttleAll pushComponents 200 lastCallComponents set_lastCallComponents calls
    (constructed WORD_LIST_SOURCE 0)
  = constructed WORD_LIST_SOURCE 0 \/
  exists now args,
    In (now, args) calls /\
    throttleAll pushComponents 200 lastCallComponents set_lastCallComponents calls
      (constructed WORD_LIST_SOURCE 0)
    = set_lastCallComponents now (pushComponents args (constructed WORD_LIST_SOURCE 0)).
Proof.
  apply (throttle_runs_once_per_window pushComponents 200 lastCallComponents
           set_lastCallComponents (fun now s => eq_refl) 1000).
  repeat constructor; cbn; lia.
Defined.

(** ** The play/pause button *)

(** X2: Pressed while playing or loading, the button pauses at once, with no
    reconnect: [session.pause()] on the session at hand, the ramp-down of the
    running context, a fresh output node, the clock at 0, and, when loading,
    the toast about the stopped playback.  The game data stay as they are,
    and a pre-roll timer that fires afterwards leaves the player paused. *)
Theorem pause_press_halts_playback (now : float) (s : State) :
  isActive s = true ->
  exists s',
    handlePlayPause now s = Done s' /\
    playbackState s' = paused /\
    nextStartTime s' = 0%float /\
    outputNode s' = Datatypes.S (outputNode s) /\
    session s' = session s /\
    game s' = game s /\
    log s' = log s ++ sessionCall SessionPause s
               ++ rampDownEffects (isRunning s) (outputNode s) now
               ++ stoppedWhileLoading s /\
    playbackState (prerollTimerFired s') = paused.
Proof.
  intros Ha. unfold isActive in Ha. unfold handlePlayPause, stoppedWhileLoading.
  destruct (pauseAudio_fields now s) as (Hp & Ht & Ho).
  pose proof (pauseAudio_session now s) as Hs.
  pose proof (pauseAudio_game now s) as Hg.
  pose proof (pauseAudio_log now s) as Hl.
  destruct (playbackState s); try discriminate Ha.
  - exists (pauseAudio now s). rewrite app_nil_r.
    unfold prerollTimerFired. rewrite Hp. done.
  - exists (toast "Playback stopped. Please try playing again." 3000 (pauseAudio now s)).
    generalize dependent (pauseAudio now s). intros s1 Hp Ht Ho Hs Hg Hl.
    unfold prerollTimerFired. step_state. rewrite Hp, Hl, <- !app_assoc.
    repeat split; done.
Qed.

Lemma pause_press_halts_playback_witness :
  exists s',
    handlePlayPause 3%float playingGame = Done s' /\
    playbackState s' = paused /\
    nextStartTime s' = 0%float /\
    outputNode s' = Datatypes.S (outputNode playingGame) /\
    session s' = session playingGame /\
    game s' = game playingGame /\
    log s' = log playingGame ++ sessionCall SessionPause playingGame
               ++ rampDownEffects (isRunning playingGame) (outputNode playingGame) 3%float
               ++ stoppedWhileLoading playingGame /\
    playbackState (prerollTimerFired s') = paused.
Proof.
  apply (pause_press_halts_playback 3%float playingGame). vm_compute. reflexivity.
Defined.

(** X3: Pressed while paused or stopped, with a session and no connection error,
    the button starts loading without a reconnect: the suspended context is
    resumed, [session.play()] is called and the gain ramps from 0 to 1 on the
    output node in use; the clock is left alone. *)
Theorem play_press_starts_loading (now : float) (s : State) (x : nat) :
  isHalted s = true ->
  connectionError s = false ->
  session s = Some x ->
  exists s',
    handlePlayPause now s = Done s' /\
    playbackState s' = loading /\
    nextStartTime s' = nextStartTime s /\
    outputNode s' = outputNode s /\
    session s' = Some x /\
    game s' = game s /\
    log s' = log s ++ resumeEffects s
               ++ [SessionPlay x;
                   GainSetValueAtTime (outputNode s) 0%float now;
                   GainLinearRampToValueAtTime (outputNode s) 1%float (now + 0.2)%float].
Proof.
  intros Hh He Hx. exists (loadAudio now s). split.
  - unfold handlePlayPause, needsConnect, hasSession. unfold isHalted in Hh.
    rewrite He, Hx. by destruct (playbackState s).
  - unfold loadAudio, resumeEffects. step_state.
    destruct (audioContextState s); step_state; rewrite Hx; step_state;
      rewrite ?app_cons_assoc, ?app_nil_l; repeat split; done.
Qed.

Lemma play_press_starts_loading_witness :
  exists s',
    handlePlayPause 2%float connectedGame = Done s' /\
    playbackState s' = loading /\
    nextStartTime s' = nextStartTime connectedGame /\
    outputNode s' = outputNode connectedGame /\
    session s' = Some 7%nat /\
    game s' = game connectedGame /\
    log s' = log connectedGame ++ resumeEffects connectedGame
               ++ [SessionPlay 7;
                   GainSetValueAtTime (outputNode connectedGame) 0%float 2%float;
                   GainLinearRampToValueAtTime (outputNode connectedGame) 1%float
                     (2 + 0.2)%float].
Proof.
  apply (play_press_starts_loading 2%float connectedGame 7); vm_compute; reflexivity.
Defined.

(** ** Losing the connection *)

Lemma connectionLost_shape cause now s :
  exists s0 message,
    connectionLost cause now s = toast message 5000 (pauseAudio now s0) /\
    connectionError s0 = true /\
    session s0 = session s /\ game s0 = game s /\ appendsNoStop s s0.
Proof.
  destruct cause as [message |]; cbn [connectionLost]; unfold onerror, onclose.
  - eexists _, _. split; [reflexivity |]. split; [done |]. split; [done |].
    split; [done |]. eexists. split; [by step_state | solve_noStop].
  - eexists _, _. split; [reflexivity |]. split; [done |]. split; [done |].
    split; [done |]. by apply appendsNoStop_same_log.
Qed.

Lemma pauseAudio_connectionError now s :
  connectionError (pauseAudio now s) = connectionError s.
Proof. unfold_audio. split_ifs; done. Qed.

(** X4: A clean [onclose] changes nothing.  [onerror] and an unclean [onclose]
    pause the audio, set [connectionError] and end with a toast of five
    seconds; the session object stays in its field, no [session.stop()] is
    issued and the game data are kept.  The next press of the play button
    then goes through the reconnect. *)
Theorem connection_loss_pauses_and_flags (cause : option string) (now now' : float)
    (s : State) :
  let s' := connectionLost cause now s in
  onclose true now s = s /\
  playbackState s' = paused /\
  connectionError s' = true /\
  nextStartTime s' = 0%float /\
  session s' = session s /\
  game s' = game s /\
  appendsNoStop s s' /\
  (exists message, last (log s') = Some (Toast message 5000)) /\
  exists s'', handlePlayPause now' s' = Await AwaitConnect s''.
Proof.
  cbv zeta. split; [reflexivity |].
  destruct (connectionLost_shape cause now s)
    as (s0 & message & -> & Hc0 & Hs0 & Hg0 & Ha0).
  destruct (pauseAudio_fields now s0) as (Hp & Ht & _).
  pose proof (pauseAudio_session now s0) as Hs.
  pose proof (pauseAudio_game now s0) as Hg.
  pose proof (pauseAudio_noStop now s0) as Ha.
  pose proof (pauseAudio_connectionError now s0) as Hc. rewrite Hc0 in Hc.
  generalize dependent (pauseAudio now s0). intros s1 Hp Ht Hs Hg Ha Hc.
  split; [exact Hp |]. split; [exact Hc |]. split; [exact Ht |].
  split; [by rewrite <- Hs0 |]. split; [by rewrite <- Hg0 |]. split; [| split].
  - eapply appendsNoStop_trans; [exact Ha0 |].
    eapply appendsNoStop_trans; [exact Ha |]. by apply appendsNoStop_emit.
  - exists message. step_state. apply last_snoc.
  - unfold handlePlayPause. step_state. rewrite Hp, Hc. by eexists.
Qed.

(** ** The audio path: chunks that cannot be played *)

Section Unplayable.
Variable decode : string -> option (list Byte.byte).
Variable decodeAudioData : list Byte.byte -> Z -> Z -> option AudioBuffer.

Lemma afterHeader_audio e s :
  playbackState (afterHeader e s) = playbackState s /\
  session (afterHeader e s) = session s /\
  outputNode (afterHeader e s) = outputNode s /\
  nextStartTime (afterHeader e s) = nextStartTime s /\
  audioContextState (afterHeader e s) = audioContextState s.
Proof. unfold afterHeader, onFilteredPrompt. split_ifs; done. Qed.

(** X5: While playing or loading, a first chunk with no data, with blank data,
    with no decoded bytes or with a buffer of no duration ends in one console
    warning: beyond the set-up and filter parts of the message the state is
    untouched, so nothing is scheduled, shown or paused. *)
Theorem unusable_chunk_only_warns (e : LiveMusicServerMessage) (now : float)
    (s : State) (chunk : AudioChunk) (rest : list AudioChunk) :
  audioChunks e = Some (chunk :: rest) ->
  isHalted s = false ->
  unusable decode decodeAudioData chunk ->
  exists warning,
    onmessage_atomic decode decodeAudioData e now s
    = emit (ConsoleWarn warning) (afterHeader e s).
Proof.
  intros Hc Hh Hu. unfold onmessage_atomic, onmessage. fold (afterHeader e s).
  destruct (afterHeader_audio e s) as (Hp & _).
  assert (Hh1 : isHalted (afterHeader e s) = false) by (unfold isHalted in *; by rewrite Hp).
  generalize dependent (afterHeader e s). intros s1 _ Hh1.
  rewrite Hc, Hh1. unfold unusable in Hu.
  destruct (data chunk) as [d |]; [| by eexists].
  destruct (JsString.trim d) eqn:Et; [by eexists |].
  destruct Hu as [Hu | [Hu | (decodedData & b & Hd & Hb & Hz)]]; [done | |].
  - rewrite Hu. by eexists.
  - rewrite Hd. destruct decodedData as [| byte decodedData]; [by eexists |].
    cbn [stateOf]. unfold onmessage_resume. rewrite Hb, Hz. by eexists.
Qed.

(** X6: While playing or loading, a first chunk whose decoding fails, by an
    exception of [decode] or by a rejected [decodeAudioData], is reported on
    the console and in a toast, and the audio is paused: [session.pause()],
    the ramp-down, a fresh output node, the clock at 0.  No buffer is
    started.  When the player has been paused or stopped by the time the
    rejection arrives, the continuation only reports. *)
Theorem decode_failure_pauses (e : LiveMusicServerMessage) (now : float)
    (s : State) (chunk : AudioChunk) (rest : list AudioChunk) (d : string) :
  audioChunks e = Some (chunk :: rest) ->
  isHalted s = false ->
  data chunk = Some d ->
  JsString.trim d <> "" ->
  undecodable decode decodeAudioData d ->
  let s' := onmessage_atomic decode decodeAudioData e now s in
  playbackState s' = paused /\
  nextStartTime s' = 0%float /\
  outputNode s' = Datatypes.S (outputNode s) /\
  log s' = log (afterHeader e s) ++ audioErrorEffects
             ++ sessionCall SessionPause s
             ++ rampDownEffects (isRunning s) (outputNode s) now /\
  (forall decodedData now2 s2,
     decodeAudioData decodedData sampleRate 2 = None ->
     isHalted s2 = true ->
     onmessage_resume decodeAudioData decodedData now2 s2
     = set_log (log s2 ++ audioErrorEffects) s2).
Proof.
  intros Hc Hh Hd Ht Hu s'.
  assert (E : s' = audioError now (afterHeader e s)).
  { unfold s', onmessage_atomic, onmessage. fold (afterHeader e s).
    destruct (afterHeader_audio e s) as (Hp & _).
    assert (Hh1 : isHalted (afterHeader e s) = false)
      by (unfold isHalted in *; by rewrite Hp).
    rewrite Hc, Hh1, Hd. destruct (JsString.trim d) eqn:Et; [done |].
    destruct Hu as [Hu | (decodedData & Hu & Hn & Hb)].
    - by rewrite Hu.
    - rewrite Hu. destruct decodedData as [| byte decodedData]; [done |].
      cbn [stateOf]. unfold onmessage_resume. by rewrite Hb. }
  rewrite E. clear E s'.
  destruct (afterHeader_audio e s) as (Hp & Hs & Ho & _ & Ha).
  assert (Ha1 : isActive (afterHeader e s) = true).
  { unfold isActive, isHalted in *. rewrite Hp. by destruct (playbackState s). }
  assert (Hr : isRunning (afterHeader e s) = isRunning s) by (unfold isRunning; by rewrite Ha).
  assert (Hsc : sessionCall SessionPause (afterHeader e s) = sessionCall SessionPause s)
    by (unfold sessionCall; by rewrite Hs).
  rewrite <- Ho, <- Hr, <- Hsc.
  generalize dependent (afterHeader e s). intros s1 _ _ _ _ Ha1 _ _.
  assert (E : audioError now s1
              = pauseAudio now (set_log (log s1 ++ audioErrorEffects) s1)).
  { unfold audioError. step_state. unfold isActive in Ha1. rewrite Ha1.
    unfold audioErrorEffects. by rewrite app_cons_assoc. }
  rewrite E. split; [| split; [| split; [| split]]].
  - apply pauseAudio_fields.
  - apply pauseAudio_fields.
  - by rewrite (proj2 (proj2 (pauseAudio_fields _ _))).
  - rewrite pauseAudio_log. unfold sessionCall, isRunning. step_state.
    by rewrite <- !app_assoc.
  - intros decodedData now2 s2 Hb Hh2. unfold onmessage_resume, audioError.
    rewrite Hb. step_state.
    assert (isActive_false : match playbackState s2 with
                             | playing | loading => true | _ => false end = false)
      by (by destruct (playbackState s2)).
    rewrite isActive_false. unfold audioErrorEffects.
    by rewrite app_cons_assoc.
Qed.

End Unplayable.

Lemma unusable_chunk_only_warns_witness :
  exists warning,
    onmessage_atomic silence framesBuffer (audioMessage "   ") 2.1%float loadingGame
    = emit (ConsoleWarn warning) (afterHeader (audioMessage "   ") loadingGame).
Proof.
  apply (unusable_chunk_only_warns silence framesBuffer (audioMessage "   ") 2.1%float
           loadingGame {| data := Some "   " |} []).
  - reflexivity.
  - vm_compute. reflexivity.
  - left. reflexivity.
Defined.

Lemma decode_failure_pauses_witness :
  playbackState
    (onmessage_atomic (fun _ => None) framesBuffer (audioMessage "UklGRg==") 2.1%float
       loadingGame) = paused.
Proof.
  apply (decode_failure_pauses (fun _ => None) framesBuffer (audioMessage "UklGRg==")
           2.1%float loadingGame {| data := Some "UklGRg==" |} [] "UklGRg==").
  - reflexivity.
  - vm_compute. reflexivity.
  - reflexivity.
  - vm_compute. discriminate.
  - left. reflexivity.
Defined.

(** ** Lookups in the component map *)

Section JsMapLookup.
Context {V : Type}.
Implicit Types (m : list (string * V)) (k : string) (v : V).

Lemma get_set_same k v m : JsMap.get k (JsMap.set k v m) = Some v.
Proof.
  induction m as [| [k' v'] r IH]; cbn.
  - by rewrite String.eqb_refl.
  - destruct (String.eqb_spec k k') as [-> | Hne]; cbn.
    + by rewrite String.eqb_refl.
    + by destruct (String.eqb_spec k k').
Qed.

Lemma get_set_other k k' v m :
  k' <> k -> JsMap.get k' (JsMap.set k v m) = JsMap.get k' m.
Proof.
  intros Hne. induction m as [| [k0 v0] r IH]; cbn.
  - by destruct (String.eqb_spec k' k).
  - destruct (String.eqb_spec k k0) as [-> | Hne0]; cbn.
    + destruct (String.eqb_spec k' k0); [done |]. done.
    + by rewrite IH.
Qed.





Lemma set_set k v v' m : JsMap.set k v (JsMap.set k v' m) = JsMap.set k v m.
Proof.
  induction m as [| [k0 v0] r IH]; cbn.
  - by rewrite String.eqb_refl.
  - destruct (String.eqb_spec k k0) as [-> | Hne]; cbn.
    + by rewrite String.eqb_refl.
    + destruct (String.eqb_spec k k0); [done |]. by rewrite IH.
Qed.

Lemma set_get k v m : JsMap.get k m = Some v -> JsMap.set k v m = m.
Proof.
  induction m as [| [k0 v0] r IH]; cbn; [done |].
  destruct (String.eqb_spec k k0) as [-> | Hne]; [by intros [= ->] |].
  intros H. by rewrite IH.
Qed.

Lemma keys_set_present k v v0 m :
  JsMap.get k m = Some v0 -> JsMap.keys (JsMap.set k v m) = JsMap.keys m.
Proof.
  unfold JsMap.keys. induction m as [| [k0 v1] r IH]; cbn; [done |].
  destruct (String.eqb_spec k k0) as [-> | Hne]; cbn; [done |].
  intros H. by rewrite IH.
Qed.

Lemma delete_set_fresh k v m :
  k ∉ JsMap.keys m -> JsMap.delete k (JsMap.set k v m) = m.
Proof.
  induction m as [| [k0 v0] r IH]; cbn.
  - by rewrite String.eqb_refl.
  - intros [Hne Hn]%not_elem_of_cons.
    destruct (String.eqb_spec k k0); [done |]. cbn.
    destruct (String.eqb_spec k k0); [done |]. by rewrite IH.
Qed.

End JsMapLookup.


(** ** Removing a component *)



(** ** Changing a weight *)

Lemma updateWeight_present id value nowMs s c :
  JsMap.get id (musicComponents s) = Some c ->
  promptId c = id ->
  updateWeight id value nowMs s
  = setSessionMusicComponents nowMs
      (set_musicComponents
         (JsMap.set id {| promptId := id; color := color c; text := text c;
                          weight := value |} (musicComponents s)) s).
Proof.
  intros Hget Hp. unfold updateWeight. rewrite Hget.
  unfold handleMusicComponentChanged. cbn [promptId text weight color].
  rewrite Hp, Hget. cbn [promptId text weight color]. by rewrite ?Hp, set_idem.
Qed.

(** X8: Moving the slider of a component stores the new weight in that component
    and changes nothing else of the map: the other components, the order and
    the filtered set stay.  A weight of at most 0.01 takes the word out of
    the snapshot while the component stays in the map, and setting the old
    weight again restores the map.  A change event for an identifier that is
    not in the map only logs an error. *)
Theorem weight_change_touches_one_component
    (decode : string -> option (list Byte.byte))
    (decodeAudioData : list Byte.byte -> Z -> Z -> option AudioBuffer)
    (id : string) (value : float) (nowMs nowMs' : Z) (s : State)
    (c : MusicComponentData) :
  reachable decode decodeAudioData s ->
  JsMap.get id (musicComponents s) = Some c ->
  let s' := updateWeight id value nowMs s in
  JsMap.get id (musicComponents s')
  = Some {| promptId := id; color := color c; text := text c; weight := value |} /\
  (forall id', id' <> id ->
     JsMap.get id' (musicComponents s') = JsMap.get id' (musicComponents s)) /\
  JsMap.keys (musicComponents s') = JsMap.keys (musicComponents s) /\
  filteredComponents s' = filteredComponents s /\
  ((0.01 <? value)%float = false ->
   forall p, p ∈ weightedPrompts s' -> wp_text p <> text c) /\
  musicComponents (updateWeight id (weight c) nowMs' s') = musicComponents s /\
  (forall detail,
     JsMap.get (promptId detail) (musicComponents s) = None ->
     handleMusicComponentChanged detail nowMs s
     = emit (ConsoleError "Music component not found for changing:") s).
Proof.
  intros Hr Hget s'.
  pose proof (reachable_wellFormed _ _ _ Hr) as Hwf.
  pose proof (updateWeight_wellFormed id value nowMs s Hwf) as Hwf'. fold s' in Hwf'.
  destruct Hwf as (Hinv & _).
  destruct (inv_ids _ _ _ _ _ Hinv id c (get_elem_of _ _ _ Hget)) as (Hp & _).
  set (c' := {| promptId := id; color := color c; text := text c; weight := value |}).
  assert (Hm : musicComponents s' = JsMap.set id c' (musicComponents s)).
  { unfold s'. rewrite (updateWeight_present _ _ _ _ c) by done.
    by rewrite (game_musicComponents _ _ (setSessionMusicComponents_game _ _)). }
  assert (Hf : filteredComponents s' = filteredComponents s).
  { unfold s'. rewrite (updateWeight_present _ _ _ _ c) by done.
    by rewrite (game_filtered _ _ (setSessionMusicComponents_game _ _)). }
  assert (Hget' : JsMap.get id (musicComponents s') = Some c')
    by (rewrite Hm; apply get_set_same).
  split; [done |]. split; [| split; [| split; [done | split; [| split]]]].
  - intros id' Hne. rewrite Hm. by apply get_set_other.
  - rewrite Hm. by eapply keys_set_present.
  - intros Hv p (c2 & Hc2 & -> & Hw & _)%weightedPrompts_spec E. cbn in E.
    assert (c2 = c') as ->.
    { eapply (NoDup_map_inj text); [apply Hwf' | done | | done].
      eapply elem_of_values. by apply get_elem_of. }
    cbn in Hw. congruence.
  - rewrite (updateWeight_present _ _ _ _ c') by done.
    rewrite (game_musicComponents _ _ (setSessionMusicComponents_game _ _)).
    cbn [musicComponents set_musicComponents color text c'].
    rewrite Hm, set_set. apply set_get. rewrite Hget. f_equal.
    destruct c. cbn in *. by subst.
  - intros detail Hn. unfold handleMusicComponentChanged. by rewrite Hn.
Qed.

Lemma weight_change_touches_one_component_witness :
  JsMap.get "component-0"
    (musicComponents (updateWeight "component-0" 0%float 9000 happyGame))
  = Some {| promptId := "component-0"; color := color happyComponent;
            text := text happyComponent; weight := 0%float |}.
Proof.
  apply (weight_change_touches_one_component silence framesBuffer "component-0"
           0%float 9000 9500 happyGame happyComponent happyGame_reachable).
  vm_compute. reflexivity.
Defined.

(** ** Starting over *)

Lemma pauseAudio_lastCalls now s :
  lastCallComponents (pauseAudio now s) = lastCallComponents s /\
  lastCallSettings (pauseAudio now s) = lastCallSettings s.
Proof. unfold_audio. split_ifs; done. Qed.

Lemma initializeGame_game shuffled nowMs s w rest :
  shuffled = w :: rest ->
  game (initializeGame shuffled nowMs s) = ([], 0%nat, ∅, shuffled, w, 0, false).
Proof.
  intros ->. unfold initializeGame.
  set (s0 := set_filteredComponents _ _).
  assert (E : game (fetchNextWord s0) = ([], 0%nat, ∅, w :: rest, w, 0, false)).
  { unfold fetchNextWord, s0. step_state. reflexivity. }
  destruct (session (fetchNextWord s0)); [| done].
  by rewrite setSessionMusicComponents_game.
Qed.

Lemma initializeGame_effects w rest nowMs s :
  let s' := initializeGame (w :: rest) nowMs s in
  log s' = log s ++ pushOfNothing nowMs s /\
  sameAudio s s' /\
  lastCallSettings s' = lastCallSettings s.
Proof.
  unfold initializeGame, fetchNextWord, pushOfNothing, sessionCall, sameAudio,
    weightedPrompts, componentsToSend.
  unfold_push. split_ifs; rewrite ?app_nil_r; done.
Qed.

Lemma resetToDefaults_effects nowMs s :
  let s' := resetToDefaults nowMs s in
  log s' = log s ++ SettingsResetToDefaults :: pushOfDefaults nowMs s /\
  sameAudio s s'.
Proof.
  unfold resetToDefaults, pushOfDefaults, sessionCall, sameAudio.
  unfold_push. split_ifs; rewrite ?app_cons_assoc; done.
Qed.

Lemma handleReset_body_game shuffled nowMs now s :
  game (stateOf (handleReset_body shuffled nowMs now s))
  = game (initializeGame shuffled nowMs (pauseAudio now s)).
Proof.
  unfold handleReset_body.
  generalize (initializeGame shuffled nowMs (pauseAudio now s)). intros s2.
  pose proof (resetToDefaults_game nowMs s2) as G.
  revert G. generalize (resetToDefaults nowMs s2). intros s3 G. rewrite <- G.
  destruct (session s3); cbn [stateOf]; [done |]. apply handleReset_finish_game.
Qed.

Lemma handleReset_tail_log s3 :
  playbackState s3 = paused ->
  log (stateOf
         match session s3 with
         | Some x =>
             Await AwaitConfig
               (emit (SetMusicGenerationConfig x defaultConfig)
                  (emit (SessionResetContext x) s3))
         | None => Done (handleReset_finish s3)
         end)
  = log s3 ++ resetTail s3.
Proof.
  intros Hp. unfold resetTail, handleReset_finish. rewrite Hp.
  destruct (session s3); step_state; rewrite ?app_cons_assoc; done.
Qed.

(** X9: The reset, once it has reached [pauseAudio], starts a fresh game
    whatever the state was, a won game included: no components, an empty
    filtered set, the counter at 0, and the first word of the new shuffle on
    display with all the others left.  Its effects are the pause, the push of
    the empty list of prompts, the reset of the settings form with the push
    of the default settings, and the reset of the context of the session;
    each of the two pushes is left out when its throttle is closed, so a
    reset within 200 ms of the last push of prompts sends no prompts. *)
Theorem reset_starts_fresh_game (shuffled : list string) (nowMs : Z) (now : float)
    (s : State) (w : string) (rest : list string) :
  shuffled = w :: rest ->
  let s' := stateOf (handleReset_body shuffled nowMs now s) in
  game s' = ([], 0%nat, ∅, shuffled, w, 0, false) /\
  wordsLeft s' = Z.of_nat (length rest) /\
  weightedPrompts s' = [] /\
  playbackState s' = paused /\
  log s' = log s ++ sessionCall SessionPause s
             ++ rampDownEffects (isRunning s) (outputNode s) now
             ++ pushOfNothing nowMs s
             ++ SettingsResetToDefaults :: pushOfDefaults nowMs s
             ++ resetTail s.
Proof.
  intros Hsh s'.
  assert (G : game s' = ([], 0%nat, ∅, shuffled, w, 0, false)).
  { unfold s'. rewrite handleReset_body_game. by eapply initializeGame_game. }
  split; [done |]. unfold game in G. injection G as G1 G2 G3 G4 G5 G6 G7.
  split; [| split].
  - unfold wordsLeft. rewrite G4, G6, Hsh. cbn [length]. lia.
  - unfold weightedPrompts, componentsToSend. by rewrite G1.
  - clear G1 G2 G3 G4 G5 G6 G7. subst s' shuffled. unfold handleReset_body.
    destruct (pauseAudio_fields now s) as (Hp & _).
    pose proof (pauseAudio_session now s) as Hs.
    pose proof (pauseAudio_log now s) as Hl.
    destruct (pauseAudio_lastCalls now s) as (Hc1 & Hc2).
    revert Hp Hs Hl Hc1 Hc2. generalize (pauseAudio now s). intros s1 Hp Hs Hl Hc1 Hc2.
    destruct (initializeGame_effects w rest nowMs s1) as (Hl2 & (Hp2 & _ & Hs2 & _) & Hc3).
    assert (Hpush1 : pushOfNothing nowMs s1 = pushOfNothing nowMs s)
      by (unfold pushOfNothing, sessionCall; by rewrite Hs, Hc1).
    revert Hl2 Hp2 Hs2 Hc3.
    generalize (initializeGame (w :: rest) nowMs s1). intros s2 Hl2 Hp2 Hs2 Hc3.
    destruct (resetToDefaults_effects nowMs s2) as (Hl3 & (Hp3 & _ & Hs3 & _)).
    assert (Hpush2 : pushOfDefaults nowMs s2 = pushOfDefaults nowMs s)
      by (unfold pushOfDefaults, sessionCall; by rewrite Hs2, Hs, Hc3, Hc2).
    revert Hl3 Hp3 Hs3. generalize (resetToDefaults nowMs s2). intros s3 Hl3 Hp3 Hs3.
    assert (Hp' : playbackState s3 = paused) by congruence.
    assert (Ht : resetTail s3 = resetTail s)
      by (unfold resetTail; by rewrite Hs3, Hs2, Hs).
    split.
    + destruct (session s3); cbn [stateOf]; [done |].
      unfold handleReset_finish. rewrite Hp'. done.
    + rewrite handleReset_tail_log by done.
      rewrite Hl3, Hl2, Hl, Hpush1, Hpush2, Ht, <- !app_assoc. reflexivity.
Qed.

Lemma reset_starts_fresh_game_witness :
  game (stateOf (handleReset_body WORD_LIST_SOURCE 9000 3%float wonGame))
  = ([], 0%nat, ∅, WORD_LIST_SOURCE, "HAPPY", 0, false).
Proof.
  apply (reset_starts_fresh_game WORD_LIST_SOURCE 9000 3%float wonGame "HAPPY"
           (tl WORD_LIST_SOURCE)).
  reflexivity.
Defined.

(** ** Skipping a word *)

(** X10: The skip button announces the skipped word and moves on to the next:
    no component is created, the filtered set, the typed guess and the audio
    are left alone, and nothing is sent to the session.  Skipping the last
    word wins the game. *)
Theorem skip_moves_on_without_component (s : State) :
  let s' := skipWord s in
  let last := Z.of_nat (length (availableWords s)) <=? currentWordIndex s + 1 in
  musicComponents s' = musicComponents s /\
  nextComponentId s' = nextComponentId s /\
  filteredComponents s' = filteredComponents s /\
  guessInputValue s' = guessInputValue s /\
  sameAudio s s' /\
  currentWordIndex s' = currentWordIndex s + 1 /\
  wordsLeft s' = wordsLeft s - 1 /\
  gameWon s' = (gameWon s || last) /\
  log s' = log s ++ Toast ("Skipped: " +:+ currentWordToGuess s) 2000
             :: (if last then [Toast "Congratulations! You've guessed all words!" 5000]
                 else []).
Proof.
  unfold skipWord, fetchNextWord, wordsLeft, sameAudio. step_state.
  destruct (Z.ltb_spec (currentWordIndex s + 1) (Z.of_nat (length (availableWords s))));
    destruct (Z.leb_spec (Z.of_nat (length (availableWords s))) (currentWordIndex s + 1));
    try lia; step_state; rewrite ?orb_false_r, ?orb_true_r, ?app_cons_assoc;
    repeat split; try done; lia.
Qed.

(** ** The progress of the game *)

Lemma game_progress s s' : game s' = game s -> progress s' = progress s.
Proof. unfold game, progress. by intros [= _ _ _ -> _ -> ->]. Qed.

Lemma progressInv_progress s s' :
  progress s' = progress s -> progressInv s -> progressInv s'.
Proof. unfold progress, progressInv. by intros [= -> -> ->]. Qed.

Lemma fetchNextWord_progressInv s :
  availableWords s ≡ₚ WORD_LIST_SOURCE ->
  (gameWon s = true -> Z.of_nat (length (availableWords s)) <= currentWordIndex s + 1) ->
  progressInv (fetchNextWord s).
Proof.
  intros Hp Hw. unfold fetchNextWord, progressInv. step_state.
  destruct (Z.ltb_spec (currentWordIndex s + 1) (Z.of_nat (length (availableWords s))));
    step_state; (split; [done |]); intros H'; [specialize (Hw H') |]; lia.
Qed.

Lemma withNewComponent_progress COLORS rnd nowMs s :
  progress (setSessionMusicComponents nowMs (withNewComponent COLORS rnd s)) = progress s.
Proof. by rewrite (game_progress _ _ (setSessionMusicComponents_game _ _)). Qed.

Lemma handleGuessSubmit_progressInv COLORS rnd nowMs s :
  progressInv s -> progressInv (handleGuessSubmit COLORS rnd nowMs s).
Proof.
  intros Hinv. destruct (gameWon s) eqn:Hw.
  { rewrite handleGuessSubmit_won by done. by eapply progressInv_progress. }
  destruct (decide (normalise (guessInputValue s) = "")) as [He | He].
  { by rewrite handleGuessSubmit_empty. }
  destruct (decide (normalise (guessInputValue s) = currentWordToGuess s))
    as [Hc | Hc].
  - rewrite handleGuessSubmit_correct by done.
    eapply progressInv_progress; [reflexivity |].
    pose proof (withNewComponent_progress COLORS rnd nowMs s) as G.
    unfold progress in G. injection G as G1 G2 G3.
    apply fetchNextWord_progressInv; rewrite ?G1, ?G2, ?G3; [apply Hinv | congruence].
  - rewrite handleGuessSubmit_incorrect by done. by eapply progressInv_progress.
Qed.

Lemma skipWord_progressInv s : progressInv s -> progressInv (skipWord s).
Proof.
  intros (Hp & Hw). unfold skipWord. apply fetchNextWord_progressInv; step_state.
  - done.
  - intros H'. specialize (Hw H'). lia.
Qed.

Lemma updateWeight_progress id value nowMs s :
  progress (updateWeight id value nowMs s) = progress s.
Proof.
  unfold updateWeight, handleMusicComponentChanged.
  destruct (JsMap.get id _) as [c |]; [| done]. cbn [promptId].
  destruct (JsMap.get (promptId c) _); [| done].
  by rewrite (game_progress _ _ (setSessionMusicComponents_game _ _)).
Qed.

Lemma handleMusicComponentRemoved_progress id nowMs s :
  progress (handleMusicComponentRemoved id nowMs s) = progress s.
Proof.
  unfold handleMusicComponentRemoved. destruct (JsMap.has id _); [| done].
  by rewrite (game_progress _ _ (setSessionMusicComponents_game _ _)).
Qed.

Lemma onFilteredPrompt_progress e s : progress (onFilteredPrompt e s) = progress s.
Proof. unfold onFilteredPrompt. split_ifs; done. Qed.

Lemma shuffled_cons shuffled :
  shuffled ≡ₚ WORD_LIST_SOURCE -> exists w rest, shuffled = w :: rest.
Proof.
  destruct shuffled as [| w rest]; [| by eexists _, _].
  by intros ?%symmetry%Permutation_nil_r.
Qed.

Lemma initializeGame_progressInv shuffled nowMs s :
  shuffled ≡ₚ WORD_LIST_SOURCE -> progressInv (initializeGame shuffled nowMs s).
Proof.
  intros Hp. destruct (shuffled_cons _ Hp) as (w & rest & E).
  pose proof (initializeGame_game shuffled nowMs s w rest E) as G.
  unfold game in G. injection G as _ _ _ G4 _ G6 G7.
  unfold progressInv. rewrite G4, G7. by split.
Qed.

Lemma handleReset_body_progressInv shuffled nowMs now s :
  shuffled ≡ₚ WORD_LIST_SOURCE ->
  progressInv (stateOf (handleReset_body shuffled nowMs now s)).
Proof.
  intros Hp.
  eapply progressInv_progress;
    [apply game_progress, handleReset_body_game | by apply initializeGame_progressInv].
Qed.

Section ReachableProgress.
Variable decode : string -> option (list Byte.byte).
Variable decodeAudioData : list Byte.byte -> Z -> Z -> option AudioBuffer.

Lemma dispatch_progressInv ev s :
  admissible ev -> progressInv s -> progressInv (dispatch decode decodeAudioData ev s).
Proof.
  intros Ha Hinv. destruct ev; cbn [dispatch admissible] in *.
  - by eapply progressInv_progress.
  - by apply handleGuessSubmit_progressInv.
  - by apply skipWord_progressInv.
  - eapply progressInv_progress; [apply updateWeight_progress | done].
  - eapply progressInv_progress; [apply handleMusicComponentRemoved_progress | done].
  - eapply progressInv_progress; [apply game_progress, updateSettings_game | done].
  - eapply progressInv_progress; [apply game_progress, handlePlayPause_game | done].
  - eapply progressInv_progress; [apply game_progress, handlePlayPause_resume_game | done].
  - unfold handleReset. destruct (needsConnect _).
    + by eapply progressInv_progress.
    + by apply handleReset_body_progressInv.
  - by apply handleReset_body_progressInv.
  - eapply progressInv_progress; [apply game_progress, handleReset_finish_game | done].
  - by eapply progressInv_progress.
  - eapply progressInv_progress; [apply game_progress, firstUpdated_resume_game | done].
  - eapply progressInv_progress; [apply game_progress, onmessage_game |].
    eapply progressInv_progress; [apply onFilteredPrompt_progress | done].
  - eapply progressInv_progress; [apply game_progress, onmessage_resume_game | done].
  - eapply progressInv_progress;
      [apply game_progress, setSessionMusicComponents_rejected_game | done].
  - eapply progressInv_progress; [apply game_progress, onerror_game | done].
  - eapply progressInv_progress; [apply game_progress, onclose_game | done].
  - eapply progressInv_progress; [apply game_progress, prerollTimerFired_game | done].
  - by eapply progressInv_progress.
Qed.

Lemma reachable_progressInv s :
  reachable decode decodeAudioData s -> progressInv s.
Proof.
  induction 1 as [shuffled nowMs Hp | ev s Ha Hr IH].
  - unfold constructed. by apply initializeGame_progressInv.
  - by apply dispatch_progressInv.
Qed.

End ReachableProgress.

Lemma length_WORD_LIST_SOURCE : length WORD_LIST_SOURCE = 29%nat.
Proof. reflexivity. Qed.

Lemma source_words_plain w :
  w ∈ WORD_LIST_SOURCE -> normalise w = w /\ w <> "".
Proof.
  revert w. apply Forall_forall. unfold WORD_LIST_SOURCE.
  repeat (constructor; [split; [vm_compute; reflexivity | discriminate] |]).
  constructor.
Qed.

(** While the game is not won the index is inside the list and the word on
    display is a word of the source list. *)
Lemma displayed_word s :
  wellFormed s -> progressInv s -> gameWon s = false ->
  0 <= currentWordIndex s < 29 /\ currentWordToGuess s ∈ WORD_LIST_SOURCE.
Proof.
  intros (_ & Hidx & Hcur) (Hp & _) Hw. specialize (Hcur Hw).
  rewrite at_index_lookup in Hcur by done.
  pose proof (lookup_lt_Some _ _ _ Hcur) as Hlt.
  rewrite Hp, length_WORD_LIST_SOURCE in Hlt. split; [lia |].
  rewrite <- Hp. by eapply list_elem_of_lookup_2.
Qed.

Lemma handleGuessSubmit_correct_progress COLORS rnd nowMs s :
  gameWon s = false ->
  0 <= currentWordIndex s ->
  normalise (guessInputValue s) <> "" ->
  normalise (guessInputValue s) = currentWordToGuess s ->
  let s' := handleGuessSubmit COLORS rnd nowMs s in
  let n := Z.of_nat (length (availableWords s)) in
  availableWords s' = availableWords s /\
  currentWordIndex s' = currentWordIndex s + 1 /\
  (currentWordIndex s + 1 < n -> gameWon s' = false) /\
  (n <= currentWordIndex s + 1 -> gameWon s' = true).
Proof.
  intros Hw Hidx Hn Hc s' n. unfold s'. rewrite handleGuessSubmit_correct by done.
  pose proof (withNewComponent_progress COLORS rnd nowMs s) as G.
  unfold progress in G. injection G as G1 G2 G3.
  destruct (fetchNextWord_fields
              (setSessionMusicComponents nowMs (withNewComponent COLORS rnd s)))
    as (_ & F2 & F3 & F4 & F5).
  rewrite G1, G2, ?G3 in *. step_state. fold n in F3, F4.
  split; [done |]. split; [done |]. split.
  - intros Hlt. destruct (F3 Hlt) as (_ & ->); [lia | done].
  - intros Hge. by destruct (F4 Hge).
Qed.

(** X11: The statistic of the page, "Words Left", is between 0 and 28 while the
    game goes on, in every state the element can reach; it is negative once
    the game is won.  A correct guess takes one off it, and wins the game
    exactly when it was 0: the page of a game won by a guess shows -1. *)
Theorem words_left_counts_down
    (decode : string -> option (list Byte.byte))
    (decodeAudioData : list Byte.byte -> Z -> Z -> option AudioBuffer)
    (s : State) :
  reachable decode decodeAudioData s ->
  length (availableWords s) = 29%nat /\
  (gameWon s = false -> 0 <= wordsLeft s <= 28) /\
  (gameWon s = true -> wordsLeft s < 0) /\
  (forall COLORS rnd nowMs,
     gameWon s = false ->
     normalise (guessInputValue s) = currentWordToGuess s ->
     let s' := handleGuessSubmit COLORS rnd nowMs s in
     wordsLeft s' = wordsLeft s - 1 /\
     (gameWon s' = true <-> wordsLeft s = 0)).
Proof.
  intros Hr.
  pose proof (reachable_wellFormed _ _ _ Hr) as Hwf.
  pose proof (reachable_progressInv _ _ _ Hr) as Hpi.
  assert (Hlen : length (availableWords s) = 29%nat).
  { destruct Hpi as (Hp & _). by rewrite Hp. }
  unfold wordsLeft. rewrite Hlen.
  split; [done |]. split; [| split].
  - intros Hw. destruct (displayed_word s Hwf Hpi Hw) as (Hi & _). lia.
  - intros Hw. destruct Hpi as (_ & Hge). specialize (Hge Hw). lia.
  - intros COLORS rnd nowMs Hw Hc.
    destruct (displayed_word s Hwf Hpi Hw) as (Hi & Hin).
    destruct (source_words_plain _ Hin) as (_ & Hne).
    destruct (handleGuessSubmit_correct_progress COLORS rnd nowMs s)
      as (F1 & F2 & F3 & F4); [done | lia | congruence | done |].
    cbv zeta. rewrite F1, F2, Hlen in *. split; [lia |]. split.
    + intros Hw'. destruct (Z.lt_ge_cases (currentWordIndex s + 1) (Z.of_nat 29)) as [Hlt | Hge];
        [| lia]. rewrite (F3 Hlt) in Hw'. done.
    + intros H0. apply F4. lia.
Qed.

Lemma words_left_counts_down_witness :
  length (availableWords lastWordGame) = 29%nat /\
  wordsLeft lastWordGame = 0 /\
  wordsLeft wonGame = -1.
Proof.
  split; [apply (words_left_counts_down silence framesBuffer lastWordGame
                   lastWordGame_reachable) |].
  split; vm_compute; reflexivity.
Defined.

(** ** The word on display can be guessed *)

(** X12: While the game is not won, the word on display is a word of the source
    list, which the normalisation of a guess leaves as it is: typing the word
    as shown and pressing Enter is a correct guess.  It makes a component
    with that word under the identifier of the counter, clears the input and
    moves the index on by one. *)
Theorem displayed_word_is_accepted
    (decode : string -> option (list Byte.byte))
    (decodeAudioData : list Byte.byte -> Z -> Z -> option AudioBuffer)
    (COLORS : list string) (rnd : nat) (nowMs : Z) (s : State) :
  reachable decode decodeAudioData s ->
  gameWon s = false ->
  let s' := handleGuessInputKeydown "Enter" COLORS rnd nowMs
              (set_guessInputValue (currentWordToGuess s) s) in
  currentWordToGuess s ∈ WORD_LIST_SOURCE /\
  normalise (currentWordToGuess s) = currentWordToGuess s /\
  JsMap.get (componentId (nextComponentId s)) (musicComponents s')
  = Some (newComponent COLORS rnd s) /\
  nextComponentId s' = Datatypes.S (nextComponentId s) /\
  guessInputValue s' = "" /\
  currentWordIndex s' = currentWordIndex s + 1.
Proof.
  intros Hr Hw.
  pose proof (reachable_wellFormed _ _ _ Hr) as Hwf.
  pose proof (reachable_progressInv _ _ _ Hr) as Hpi.
  destruct (displayed_word s Hwf Hpi Hw) as (Hi & Hin).
  destruct (source_words_plain _ Hin) as (Hn & Hne).
  cbv zeta. split; [done |]. split; [done |].
  unfold handleGuessInputKeydown. cbn [String.eqb Ascii.eqb Bool.eqb].
  set (s0 := set_guessInputValue (currentWordToGuess s) s).
  assert (E : handleGuessSubmit COLORS rnd nowMs s0
              = set_guessInputValue ""
                  (fetchNextWord
                     (setSessionMusicComponents nowMs (withNewComponent COLORS rnd s0)))).
  { apply handleGuessSubmit_correct; unfold s0; step_state; congruence. }
  rewrite E. clear E.
  pose proof (setSessionMusicComponents_game nowMs (withNewComponent COLORS rnd s0)) as G.
  unfold game in G. injection G as G1 G2 G3 G4 G5 G6 G7.
  destruct (fetchNextWord_fields
              (setSessionMusicComponents nowMs (withNewComponent COLORS rnd s0)))
    as (F1 & F2 & _).
  assert (Fn : forall s1, nextComponentId (fetchNextWord s1) = nextComponentId s1).
  { intros s1. unfold fetchNextWord. split_ifs; done. }
  step_state. rewrite F1, F2, Fn, G1, G2, G6.
  split; [apply get_set_same |]. done.
Qed.

Lemma displayed_word_is_accepted_witness :
  currentWordToGuess connectedGame ∈ WORD_LIST_SOURCE.
Proof.
  apply (displayed_word_is_accepted silence framesBuffer [] 0 2000 connectedGame
           connectedGame_reachable).
  vm_compute. reflexivity.
Defined.

(** ** The components on the page *)

(** X13: In every state the element can reach, each component is stored under
    its own [promptId] and carries a word of the source list that no other
    component carries and that is not the word on display; every filtered
    identifier is that of a component in the map; and there are no more
    components than words have gone by. *)
Theorem components_are_distinct_passed_words
    (decode : string -> option (list Byte.byte))
    (decodeAudioData : list Byte.byte -> Z -> Z -> option AudioBuffer)
    (s : State) :
  reachable decode decodeAudioData s ->
  (forall k c, JsMap.get k (musicComponents s) = Some c ->
     promptId c = k /\
     text c ∈ WORD_LIST_SOURCE /\
     (gameWon s = false -> text c <> currentWordToGuess s)) /\
  (forall k k' c c',
     JsMap.get k (musicComponents s) = Some c ->
     JsMap.get k' (musicComponents s) = Some c' ->
     text c = text c' -> k = k') /\
  (forall id, id ∈ filteredComponents s ->
     exists c, JsMap.get id (musicComponents s) = Some c) /\
  Z.of_nat (length (musicComponents s)) <= currentWordIndex s.
Proof.
  intros Hr.
  pose proof (reachable_wellFormed _ _ _ Hr) as (Hinv & Hidx & Hcur).
  pose proof (reachable_progressInv _ _ _ Hr) as (Hp & _).
  destruct Hinv as [H1 H2 H3 H4 H5 H6].
  split; [| split; [| split]].
  - intros k c Hget%get_elem_of.
    destruct (H1 k c Hget) as (Hk & _).
    destruct (H5 c (elem_of_values _ _ _ Hget)) as (i & Hi & Hwi).
    split; [done |]. split.
    + rewrite <- Hp. by eapply list_elem_of_lookup_2.
    + intros Hw E. specialize (Hcur Hw). rewrite at_index_lookup in Hcur by done.
      rewrite E in Hwi. pose proof (NoDup_lookup _ _ _ _ H4 Hwi Hcur). lia.
  - intros k k' c c' Hget%get_elem_of Hget'%get_elem_of E.
    assert (c = c') as ->.
    { eapply (NoDup_map_inj text); [exact H6 | | | done]; by eapply elem_of_values. }
    destruct (H1 _ _ Hget) as (<- & _). by destruct (H1 _ _ Hget') as (<- & _).
  - intros id Hid%H3. destruct (JsMap.get id (musicComponents s)) as [c |] eqn:E.
    + by exists c.
    + by apply get_None in E.
  - assert (Hsub : map text (JsMap.values (musicComponents s))
                   ⊆+ take (Z.to_nat (currentWordIndex s)) (availableWords s)).
    { apply NoDup_submseteq; [done |].
      intros t (c & -> & Hc)%(list_elem_of_fmap_1 text).
      destruct (H5 c Hc) as (i & Hi & Hwi).
      apply elem_of_take. exists i. split; [done | lia]. }
    apply submseteq_length in Hsub.
    rewrite length_map, length_take in Hsub. unfold JsMap.values in Hsub.
    rewrite length_map in Hsub. lia.
Qed.

Lemma components_are_distinct_passed_words_witness :
  Z.of_nat (length (musicComponents happyGame)) <= currentWordIndex happyGame.
Proof.
  apply (components_are_distinct_passed_words silence framesBuffer happyGame
           happyGame_reachable).
Defined.

(** ** The colour of a new component *)

(** X14: With a palette that is not empty, the colour chosen for a new component
    is a colour of the palette, and one that no component uses as long as
    the palette has such a colour, whatever the random index. *)
Theorem getUnusedRandomColor_picks_from_palette
    (COLORS : list string) (rnd : nat) (usedColors : list string) :
  COLORS <> [] ->
  let c := getUnusedRandomColor COLORS rnd usedColors in
  In c COLORS /\
  ((exists c', In c' COLORS /\ ~ In c' usedColors) -> ~ In c usedColors).
Proof.
  intros Hne. cbv zeta. unfold getUnusedRandomColor.
  remember (List.filter _ COLORS) as availableColors eqn:E.
  assert (Hav : forall c, In c availableColors <-> In c COLORS /\ ~ In c usedColors).
  { intros c. rewrite E, filter_In, negb_true_iff. split; intros [H1 H2]; (split; [done |]).
    - intros Hu. apply not_true_iff_false in H2. apply H2.
      apply existsb_exists. exists c. split; [done | apply String.eqb_refl].
    - apply not_true_is_false.
      intros (x & Hx & ->%String.eqb_eq)%existsb_exists. done. }
  clear E. destruct availableColors as [| a l].
  - split.
    + apply nth_In, Nat.mod_upper_bound. by destruct COLORS.
    + intros (c' & H). apply Hav in H. destruct H.
  - assert (H : In (nth (rnd mod length (a :: l)) (a :: l) "") (a :: l)).
    { apply nth_In, Nat.mod_upper_bound. done. }
    apply Hav in H as [H1 H2]. split; [done | by intros _].
Qed.

Lemma getUnusedRandomColor_picks_from_palette_witness :
  In (getUnusedRandomColor ["#9900ff"; "#5200ff"] 3 ["#9900ff"]) ["#9900ff"; "#5200ff"].
Proof.
  apply (getUnusedRandomColor_picks_from_palette ["#9900ff"; "#5200ff"] 3 ["#9900ff"]).
  discriminate.
Defined.

(** ** A rejected push of the prompts *)

(** X15: When [session.setWeightedPrompts] rejects, the message of the error, or
    a default text when it has none, is shown for four seconds.  A player
    that is playing or loading is paused; one that is paused or stopped is
    left alone.  The components and the progress of the game are kept. *)
Theorem rejected_push_reports_and_pauses (message : string) (now : float) (s : State) :
  let s' := setSessionMusicComponents_rejected message now s in
  let shown := Toast (rejectionMessage message) 4000 in
  game s' = game s /\
  session s' = session s /\
  (isActive s = true ->
   playbackState s' = paused /\
   nextStartTime s' = 0%float /\
   log s' = log s ++ shown :: sessionCall SessionPause s
              ++ rampDownEffects (isRunning s) (outputNode s) now) /\
  (isActive s = false -> s' = emit shown s).
Proof.
  cbv zeta.
  assert (E : setSessionMusicComponents_rejected message now s
              = if isActive s
                then pauseAudio now (emit (Toast (rejectionMessage message) 4000) s)
                else emit (Toast (rejectionMessage message) 4000) s)
    by reflexivity.
  rewrite E. clear E.
  split; [apply setSessionMusicComponents_rejected_game |].
  generalize (Toast (rejectionMessage message) 4000). intros shown.
  destruct (pauseAudio_fields now (emit shown s)) as (Hp & Ht & _).
  pose proof (pauseAudio_session now (emit shown s)) as Hs.
  pose proof (pauseAudio_log now (emit shown s)) as Hl.
  revert Hp Ht Hs Hl. generalize (pauseAudio now (emit shown s)). intros s1 Hp Ht Hs Hl.
  destruct (isActive s).
  - split; [done |]. split; [| by intros [=]]. intros _.
    split; [done |]. split; [done |]. rewrite Hl. unfold sessionCall, isRunning.
    step_state. by rewrite app_cons_assoc.
  - split; [done |]. split; [by intros [=] | done].
Qed.

(** ** The two throttles *)

(** X16: The push of the prompts and the push of the settings are throttled
    apart: each has a window of its own, so neither call holds up the other.
    With both windows open both pushes go out at the same instant, in either
    order, and for the next 200 ms further calls of both are dropped. *)
Theorem throttles_are_independent (nowMs later : Z) (detail detail' : LiveMusicGenerationConfig)
    (s : State) (x : nat) :
  session s = Some x ->
  200 <= nowMs - lastCallComponents s ->
  200 <= nowMs - lastCallSettings s ->
  let s1 := setSessionMusicComponents nowMs (updateSettings nowMs detail s) in
  let s2 := updateSettings nowMs detail (setSessionMusicComponents nowMs s) in
  log s1 = log s ++ [SetMusicGenerationConfig x detail;
                     SetWeightedPrompts x (weightedPrompts s)] /\
  log s2 = log s ++ [SetWeightedPrompts x (weightedPrompts s);
                     SetMusicGenerationConfig x detail] /\
  (later - nowMs < 200 ->
   setSessionMusicComponents later s1 = s1 /\ updateSettings later detail' s1 = s1).
Proof.
  intros Hx Hc Hs. cbv zeta.
  rewrite (updateSettings_open nowMs detail s x) by done.
  rewrite (setSessionMusicComponents_open nowMs s x) by done.
  rewrite (setSessionMusicComponents_open nowMs _ x) by done.
  rewrite (updateSettings_open nowMs detail _ x) by done.
  split; [by step_state; rewrite app_cons_assoc |].
  split; [by step_state; rewrite app_cons_assoc |].
  intros Hl. split.
  - by apply setSessionMusicComponents_closed.
  - by apply updateSettings_closed.
Qed.

Lemma throttles_are_independent_witness :
  log (setSessionMusicComponents 5000 (updateSettings 5000 slowConfig connectedGame))
  = log connectedGame
      ++ [SetMusicGenerationConfig 7 slowConfig;
          SetWeightedPrompts 7 (weightedPrompts connectedGame)].
Proof.
  apply (throttles_are_independent 5000 5100 slowConfig defaultConfig connectedGame 7);
    vm_compute; first [reflexivity | discriminate].
Defined.

(** ** The game and the audio keep apart *)

Lemma setSessionMusicComponents_audio nowMs s :
  audio (setSessionMusicComponents nowMs s) = audio s.
Proof. unfold_push. split_ifs; done. Qed.

Lemma updateSettings_audio nowMs detail s :
  audio (updateSettings nowMs detail s) = audio s.
Proof. unfold_push. split_ifs; done. Qed.

Lemma fetchNextWord_audio s : audio (fetchNextWord s) = audio s.
Proof. unfold fetchNextWord. split_ifs; done. Qed.

Lemma handleGuessSubmit_audio COLORS rnd nowMs s :
  audio (handleGuessSubmit COLORS rnd nowMs s) = audio s.
Proof.
  destruct (gameWon s) eqn:Hw.
  { by rewrite handleGuessSubmit_won. }
  destruct (decide (normalise (guessInputValue s) = "")) as [He | He].
  { by rewrite handleGuessSubmit_empty. }
  destruct (decide (normalise (guessInputValue s) = currentWordToGuess s))
    as [Hc | Hc].
  - rewrite handleGuessSubmit_correct by done.
    transitivity (audio (fetchNextWord (setSessionMusicComponents nowMs
                                          (withNewComponent COLORS rnd s)))); [done |].
    by rewrite fetchNextWord_audio, setSessionMusicComponents_audio.
  - by rewrite handleGuessSubmit_incorrect.
Qed.

Lemma updateWeight_audio id value nowMs s :
  audio (updateWeight id value nowMs s) = audio s.
Proof.
  unfold updateWeight, handleMusicComponentChanged.
  destruct (JsMap.get id _) as [c |]; [| done]. cbn [promptId].
  destruct (JsMap.get (promptId c) _); [| done].
  by rewrite setSessionMusicComponents_audio.
Qed.

Lemma handleMusicComponentRemoved_audio id nowMs s :
  audio (handleMusicComponentRemoved id nowMs s) = audio s.
Proof.
  unfold handleMusicComponentRemoved. destruct (JsMap.has id _); [| done].
  by rewrite setSessionMusicComponents_audio.
Qed.

(** X17: What the player does to the game (typing, guessing, skipping, moving a
    slider, removing a component, changing the settings) leaves the audio
    side alone: the playback state, the clock, the session, the output node
    and the error flag.  What happens on the audio side (the play/pause
    button, a lost connection, a failed decode or push, timers and settled
    promises) leaves the components, the filtered set, the word list, the
    word on display and the progress of the game alone. *)
Theorem game_and_playback_keep_apart
    (decode : string -> option (list Byte.byte))
    (decodeAudioData : list Byte.byte -> Z -> Z -> option AudioBuffer)
    (ev : Event) (s : State) :
  (isGameInput ev = true ->
   audio (dispatch decode decodeAudioData ev s) = audio s) /\
  (isPlaybackEvent ev = true ->
   game (dispatch decode decodeAudioData ev s) = game s).
Proof.
  split; intros H; destruct ev; try discriminate H; cbn [dispatch].
  - done.
  - apply handleGuessSubmit_audio.
  - unfold skipWord. by rewrite fetchNextWord_audio.
  - apply updateWeight_audio.
  - apply handleMusicComponentRemoved_audio.
  - apply updateSettings_audio.
  - apply handlePlayPause_game.
  - apply handlePlayPause_resume_game.
  - apply handleReset_finish_game.
  - done.
  - apply firstUpdated_resume_game.
  - apply onmessage_resume_game.
  - apply setSessionMusicComponents_rejected_game.
  - apply onerror_game.
  - apply onclose_game.
  - apply prerollTimerFired_game.
  - done.
Qed.

(** ** [session.stop()] is never called *)

Lemma loadAudio_noStop now s : appendsNoStop s (loadAudio now s).
Proof. unfold loadAudio. solve_appends. Qed.

Lemma connectToSession_resume_noStop o s :
  appendsNoStop s (connectToSession_resume o s).
Proof. unfold connectToSession_resume. destruct o; solve_appends. Qed.

Lemma withNewComponent_noStop COLORS rnd s :
  appendsNoStop s (withNewComponent COLORS rnd s).
Proof. unfold withNewComponent. solve_appends. Qed.

Lemma handleGuessSubmit_noStop COLORS rnd nowMs s :
  appendsNoStop s (handleGuessSubmit COLORS rnd nowMs s).
Proof.
  destruct (gameWon s) eqn:Hw.
  { rewrite handleGuessSubmit_won by done. by apply appendsNoStop_emit. }
  destruct (decide (normalise (guessInputValue s) = "")) as [He | He].
  { rewrite handleGuessSubmit_empty by done. apply appendsNoStop_refl. }
  destruct (decide (normalise (guessInputValue s) = currentWordToGuess s))
    as [Hc | Hc].
  - rewrite handleGuessSubmit_correct by done.
    eapply appendsNoStop_trans; [apply withNewComponent_noStop |].
    eapply appendsNoStop_trans; [apply setSessionMusicComponents_noStop |].
    eapply appendsNoStop_trans; [apply fetchNextWord_noStop |].
    by apply appendsNoStop_same_log.
  - rewrite handleGuessSubmit_incorrect by done.
    eexists. split; [step_state; rewrite !app_cons_assoc; reflexivity | solve_noStop].
Qed.

Lemma skipWord_noStop s : appendsNoStop s (skipWord s).
Proof.
  unfold skipWord.
  eapply appendsNoStop_trans; [| apply fetchNextWord_noStop]. by apply appendsNoStop_emit.
Qed.

Lemma updateWeight_noStop id value nowMs s :
  appendsNoStop s (updateWeight id value nowMs s).
Proof.
  unfold updateWeight, handleMusicComponentChanged.
  destruct (JsMap.get id _) as [c |]; [| apply appendsNoStop_refl]. cbn [promptId].
  destruct (JsMap.get (promptId c) _); [| by apply appendsNoStop_emit].
  eapply appendsNoStop_trans; [| apply setSessionMusicComponents_noStop].
  by apply appendsNoStop_same_log.
Qed.

Lemma handleMusicComponentRemoved_noStop id nowMs s :
  appendsNoStop s (handleMusicComponentRemoved id nowMs s).
Proof.
  unfold handleMusicComponentRemoved.
  destruct (JsMap.has id _); [| by apply appendsNoStop_emit].
  eapply appendsNoStop_trans; [| apply setSessionMusicComponents_noStop].
  by apply appendsNoStop_same_log.
Qed.

Lemma handlePlayPause_noStop now s :
  appendsNoStop s (stateOf (handlePlayPause now s)).
Proof.
  unfold handlePlayPause. destruct (playbackState s); cbn [stateOf].
  - destruct (needsConnect s); cbn [stateOf]; [| apply loadAudio_noStop].
    eapply appendsNoStop_trans;
      [apply (appendsNoStop_emit (Toast "Reconnecting..." 2000)); done |].
    by apply appendsNoStop_emit.
  - apply pauseAudio_noStop.
  - eapply appendsNoStop_trans; [apply pauseAudio_noStop | by apply appendsNoStop_emit].
  - destruct (needsConnect s); cbn [stateOf]; [| apply loadAudio_noStop].
    eapply appendsNoStop_trans;
      [apply (appendsNoStop_emit (Toast "Reconnecting..." 2000)); done |].
    by apply appendsNoStop_emit.
Qed.

Lemma handlePlayPause_resume_noStop o nowMs now s :
  appendsNoStop s (handlePlayPause_resume o nowMs now s).
Proof.
  unfold handlePlayPause_resume.
  eapply appendsNoStop_trans; [apply (connectToSession_resume_noStop o) |].
  generalize (connectToSession_resume o s). intros s1.
  destruct (negb (connectionError s1) && hasSession s1).
  - eapply appendsNoStop_trans; [apply setSessionMusicComponents_noStop |].
    apply loadAudio_noStop.
  - eapply appendsNoStop_trans;
      [apply (appendsNoStop_emit (Toast "Failed to reconnect. Please try again." 3000));
       done |].
    by apply appendsNoStop_same_log.
Qed.

Lemma handleReset_body_noStop shuffled nowMs now s :
  appendsNoStop s (stateOf (handleReset_body shuffled nowMs now s)).
Proof. apply (handleReset_body_outcome shuffled nowMs now s). Qed.

Lemma handleReset_noStop shuffled nowMs now s :
  appendsNoStop s (stateOf (handleReset shuffled nowMs now s)).
Proof.
  unfold handleReset.
  eapply appendsNoStop_trans;
    [apply (appendsNoStop_emit (Toast "Resetting game and music..." 2000)); done |].
  fold (toast "Resetting game and music..." 2000 s).
  generalize (toast "Resetting game and music..." 2000 s). intros s1.
  destruct (needsConnect s1); cbn [stateOf].
  - by apply appendsNoStop_emit.
  - apply handleReset_body_noStop.
Qed.

Section NeverStopped.
Variable decode : string -> option (list Byte.byte).
Variable decodeAudioData : list Byte.byte -> Z -> Z -> option AudioBuffer.

Lemma audioError_noStop now s : appendsNoStop s (audioError now s).
Proof.
  unfold audioError.
  eapply appendsNoStop_trans;
    [apply (appendsNoStop_emit (ConsoleError "Error processing audio chunk:")); done |].
  eapply appendsNoStop_trans;
    [apply (appendsNoStop_emit (Toast "Error playing audio. Check console." 3000));
     done |].
  fold (toast "Error playing audio. Check console." 3000
          (emit (ConsoleError "Error processing audio chunk:") s)).
  generalize (toast "Error playing audio. Check console." 3000
                (emit (ConsoleError "Error processing audio chunk:") s)). intros s1.
  destruct (isActive s1); [apply pauseAudio_noStop | apply appendsNoStop_refl].
Qed.

Lemma afterHeader_noStop e s : appendsNoStop s (afterHeader e s).
Proof. unfold afterHeader, onFilteredPrompt. solve_appends. Qed.

Lemma onmessage_noStop e now s :
  appendsNoStop s (stateOf (onmessage decode e now s)).
Proof.
  unfold onmessage. fold (afterHeader e s).
  eapply appendsNoStop_trans; [apply (afterHeader_noStop e s) |].
  generalize (afterHeader e s). intros s1.
  destruct (audioChunks e) as [[| chunk rest] |]; try apply appendsNoStop_refl.
  destruct (isHalted s1); [apply appendsNoStop_refl |].
  destruct (data chunk) as [d |]; cbn [stateOf]; [| by apply appendsNoStop_emit].
  destruct (JsString.trim d); cbn [stateOf]; [by apply appendsNoStop_emit |].
  destruct (decode d) as [[| byte decodedData] |]; cbn [stateOf].
  - by apply appendsNoStop_emit.
  - apply appendsNoStop_refl.
  - apply audioError_noStop.
Qed.

Lemma onmessage_resume_noStop decodedData now s :
  appendsNoStop s (onmessage_resume decodeAudioData decodedData now s).
Proof.
  unfold onmessage_resume.
  destruct (decodeAudioData _ _ _) as [audioBuffer |]; [| apply audioError_noStop].
  solve_appends.
Qed.

Lemma setSessionMusicComponents_rejected_noStop message now s :
  appendsNoStop s (setSessionMusicComponents_rejected message now s).
Proof.
  unfold setSessionMusicComponents_rejected. cbv zeta.
  set (s1 := toast _ 4000 s).
  assert (H1 : appendsNoStop s s1) by (by apply appendsNoStop_emit).
  clearbody s1. eapply appendsNoStop_trans; [exact H1 |].
  destruct (isActive s1); [apply pauseAudio_noStop | apply appendsNoStop_refl].
Qed.

Lemma connectionLost_noStop cause now s :
  appendsNoStop s (connectionLost cause now s).
Proof.
  destruct (connectionLost_shape cause now s) as (s0 & message & -> & _ & _ & _ & H0).
  eapply appendsNoStop_trans; [exact H0 |].
  eapply appendsNoStop_trans; [apply pauseAudio_noStop | by apply appendsNoStop_emit].
Qed.

Lemma dispatch_noStop ev s :
  appendsNoStop s (dispatch decode decodeAudioData ev s).
Proof.
  destruct ev; cbn [dispatch].
  - by apply appendsNoStop_same_log.
  - apply handleGuessSubmit_noStop.
  - apply skipWord_noStop.
  - apply updateWeight_noStop.
  - apply handleMusicComponentRemoved_noStop.
  - apply updateSettings_noStop.
  - apply handlePlayPause_noStop.
  - apply handlePlayPause_resume_noStop.
  - apply handleReset_noStop.
  - unfold handleReset_resume.
    eapply appendsNoStop_trans; [apply (connectToSession_resume_noStop o) |].
    apply handleReset_body_noStop.
  - apply handleReset_finish_noStop.
  - by apply appendsNoStop_emit.
  - unfold firstUpdated_resume.
    eapply appendsNoStop_trans; [apply (connectToSession_resume_noStop o) |].
    apply setSessionMusicComponents_noStop.
  - apply onmessage_noStop.
  - apply onmessage_resume_noStop.
  - apply setSessionMusicComponents_rejected_noStop.
  - apply (connectionLost_noStop (Some message)).
  - destruct wasClean; [apply appendsNoStop_refl | apply (connectionLost_noStop None)].
  - unfold prerollTimerFired. destruct (playbackState s);
      by apply appendsNoStop_same_log.
  - by apply appendsNoStop_same_log.
Qed.

(** X18: Whatever the player does and whatever the connection, the decoders and
    the timers do, the element never calls [session.stop()]: playback only
    ever ends by [session.pause()], and [stopAudioAndSession] is not
    reached. *)
Theorem session_is_never_stopped (s : State) :
  reachable decode decodeAudioData s ->
  forall x, ~ In (SessionStop x) (log s).
Proof.
  induction 1 as [shuffled nowMs Hp | ev s Ha Hr IH].
  - unfold constructed.
    destruct (initializeGame_noStop shuffled nowMs
                (emit (NodeConnectDestination 0) fieldInitialisers)) as (l & -> & Hl).
    intros x [[H | []] | H]%in_app_or; [done | by eapply Hl].
  - destruct (dispatch_noStop ev s) as (l & -> & Hl).
    intros x [H | H]%in_app_or; [by eapply IH | by eapply Hl].
Qed.

End NeverStopped.

Lemma brokenGame_reachable : reachable silence framesBuffer brokenGame.
Proof.
  unfold brokenGame, playingGame, play.
  do 2 (apply reachable_run; [repeat constructor |]).
  apply loadingGame_reachable.
Qed.

Lemma session_is_never_stopped_witness :
  ~ In (SessionStop 7) (log brokenGame).
Proof.
  apply (session_is_never_stopped silence framesBuffer brokenGame brokenGame_reachable).
Defined.

(** ** The toast *)

Module ToastFacts.
Import ToastMessage.

Lemma show_shown m duration x :
  toastInv x -> show m duration x = shown m duration (nextId x) (Pos.succ (nextId x)).
Proof.
  unfold toastInv, show, shown, setHideTimeout, clearTimeout.
  destruct x as [m0 sh [id |] p n]; cbn.
  - intros (_ & d & ->). cbn. by rewrite Pos.eqb_refl.
  - by intros (_ & ->).
Qed.

Lemma hide_hidden x : toastInv x -> hide x = hidden (message x) (nextId x).
Proof.
  unfold toastInv, hide, hidden, clearTimeout.
  destruct x as [m0 sh [id |] p n]; cbn.
  - intros (_ & d & ->). cbn. by rewrite Pos.eqb_refl.
  - by intros (-> & ->).
Qed.

Lemma timerFired_own x id :
  toastInv x -> timeoutId x = Some id -> timerFired id x = hidden (message x) (nextId x).
Proof.
  unfold toastInv, timerFired, hide, hidden, clearTimeout.
  destruct x as [m0 sh [id' |] p n]; cbn; [| done].
  intros (_ & d & ->) [= ->]. cbn. by rewrite Pos.eqb_refl.
Qed.

Lemma timerFired_stale x id :
  toastInv x -> timeoutId x <> Some id -> timerFired id x = x.
Proof.
  unfold toastInv, timerFired.
  destruct x as [m0 sh [id' |] p n]; cbn.
  - intros (_ & d & ->) Hne. cbn.
    destruct (Pos.eqb_spec id' id) as [-> | _]; [done | reflexivity].
  - by intros (_ & ->) _.
Qed.

Lemma toastInv_shown m duration id next : toastInv (shown m duration id next).
Proof. split; [done | by exists duration]. Qed.

Lemma toastInv_hidden m next : toastInv (hidden m next).
Proof. by split. Qed.

Lemma dispatch_toastInv ev x : toastInv x -> toastInv (dispatch ev x).
Proof.
  intros Hx. destruct ev as [m duration | | id]; cbn [dispatch].
  - rewrite show_shown by done. apply toastInv_shown.
  - rewrite hide_hidden by done. apply toastInv_hidden.
  - destruct (decide (timeoutId x = Some id)) as [E | E].
    + rewrite timerFired_own by done. apply toastInv_hidden.
    + by rewrite timerFired_stale.
Qed.

Lemma run_toastInv evs x : toastInv x -> toastInv (run evs x).
Proof.
  revert x. induction evs as [| ev evs IH]; intros x Hx; [done |].
  cbn. apply IH. by apply dispatch_toastInv.
Qed.

Lemma run_app evs evs' x : run (evs ++ evs') x = run evs' (run evs x).
Proof. apply fold_left_app. Qed.

End ToastFacts.

Lemma toastCalls_app l l' : toastCalls (l ++ l') = toastCalls l ++ toastCalls l'.
Proof. apply flat_map_app. Qed.

(** X19: Whatever calls of [show], clicks on the close button and timers came
    before, the toast shows exactly while one timer is live, the one kept in
    [timeoutId], and no other timer is ever live.  A call of [show] puts its
    message on display with a fresh timer of its own duration, the timer of
    the toast before being cleared: a timer of an earlier toast does nothing
    when it fires, and the timer of the toast on display hides it.  So the
    last toast of the game is the one on display, for its full duration. *)
Theorem toast_is_hidden_by_its_own_timer (evs : list ToastMessage.Event)
    (m : string) (duration : Z) :
  let x := ToastMessage.run evs ToastMessage.initial in
  let id := ToastMessage.nextId x in
  let x' := ToastMessage.show m duration x in
  toastInv x /\
  x' = shown m duration id (Pos.succ id) /\
  (forall id', id' <> id -> ToastMessage.timerFired id' x' = x') /\
  ToastMessage.timerFired id x' = hidden m (Pos.succ id) /\
  ToastMessage.hide x' = hidden m (Pos.succ id) /\
  (forall l : list Effect,
     ToastMessage.run (toastCalls (l ++ [Toast m duration])) x
     = shown m duration (ToastMessage.nextId (ToastMessage.run (toastCalls l) x))
         (Pos.succ (ToastMessage.nextId (ToastMessage.run (toastCalls l) x)))).
Proof.
  cbv zeta.
  assert (Hx : toastInv (ToastMessage.run evs ToastMessage.initial)).
  { apply ToastFacts.run_toastInv. by split. }
  revert Hx. generalize (ToastMessage.run evs ToastMessage.initial). intros x Hx.
  split; [done |]. rewrite ToastFacts.show_shown by done.
  pose proof (ToastFacts.toastInv_shown m duration (ToastMessage.nextId x)
                (Pos.succ (ToastMessage.nextId x))) as Hs.
  split; [done |]. split; [| split; [| split]].
  - intros id' Hne. apply ToastFacts.timerFired_stale; [done |]. cbn. congruence.
  - by rewrite ToastFacts.timerFired_own.
  - by rewrite ToastFacts.hide_hidden.
  - intros l. rewrite toastCalls_app, ToastFacts.run_app. cbn.
    apply ToastFacts.show_shown. by apply ToastFacts.run_toastInv.
Qed.

(** ** The wheel over a slider *)

Module FloatFacts.

Lemma ltb_leb x y : (x <? y)%float = true -> (x <=? y)%float = true.
Proof.
  rewrite FloatAxioms.ltb_spec, FloatAxioms.leb_spec. unfold SFltb, SFleb.
  destruct (SFcompare _ _) as [[] |]; congruence.
Qed.

Lemma not_nan_SF x : is_nan x = false -> Prim2SF x <> S754_nan.
Proof.
  unfold is_nan. rewrite FloatAxioms.eqb_spec. unfold SFeqb.
  intros H E. rewrite E in H. cbn in H. discriminate.
Qed.

Lemma SFcompare_total x y :
  x <> S754_nan -> y <> S754_nan -> SFcompare x y <> None.
Proof.
  destruct x as [| | | sx mx ex], y as [| | | sy my ey]; cbn; congruence.
Qed.

Lemma SFcompare_antisym x y :
  SFcompare y x = option_map CompOpp (SFcompare x y).
Proof.
  destruct x as [sx | sx | | sx mx ex], y as [sy | sy | | sy my ey]; cbn;
    try reflexivity; try (by destruct sx); try (by destruct sy);
    try (by destruct sx, sy).
  pose proof (Pos.compare_cont_antisym mx my Eq) as H. cbn in H.
  destruct sx, sy; try reflexivity; f_equal;
    rewrite (Z.compare_antisym ex ey); destruct (ex ?= ey)%Z; cbn; try reflexivity;
    by rewrite H.
Qed.

(** Of two numbers, neither of them NaN, one is at most the other. *)
Lemma not_ltb_leb x y :
  is_nan x = false -> is_nan y = false ->
  (y <? x)%float = false -> (x <=? y)%float = true.
Proof.
  intros Hx%not_nan_SF Hy%not_nan_SF.
  rewrite FloatAxioms.ltb_spec, FloatAxioms.leb_spec. unfold SFltb, SFleb.
  rewrite (SFcompare_antisym (Prim2SF x) (Prim2SF y)).
  pose proof (SFcompare_total _ _ Hx Hy) as T.
  destruct (SFcompare (Prim2SF x) (Prim2SF y)) as [[] |]; cbn; congruence.
Qed.

Lemma leb_refl x : is_nan x = false -> (x <=? x)%float = true.
Proof.
  unfold is_nan. rewrite FloatAxioms.eqb_spec, FloatAxioms.leb_spec.
  unfold SFeqb, SFleb. destruct (SFcompare _ _) as [[] |]; cbn; congruence.
Qed.

(** [Math.max(0, Math.min(2, v))] is in the range from 0 to 2 unless [v] is
    NaN, and NaN if [v] is. *)
Lemma clamp_range v :
  let r := Math_max 0%float (Math_min 2%float v) in
  (is_nan v = false -> (0 <=? r)%float = true /\ (r <=? 2)%float = true) /\
  (is_nan v = true -> is_nan r = true).
Proof.
  cbv zeta. split.
  - intros Hv.
    assert (Hm : is_nan (Math_min 2%float v) = false /\
                 (Math_min 2%float v <=? 2)%float = true).
    { unfold Math_min. rewrite Hv. cbn [is_nan orb].
      change (is_nan 2%float) with false. cbn [orb].
      destruct (2 <? v)%float eqn:E1; [by vm_compute |].
      destruct (v <? 2)%float eqn:E2; [split; [done | by apply ltb_leb] |].
      change (get_sign 2%float) with false. cbn iota.
      split; [done |]. by apply not_ltb_leb. }
    destruct Hm as (Hn & Hle). revert Hn Hle.
    generalize (Math_min 2%float v). intros m Hn Hle.
    unfold Math_max. rewrite Hn. change (is_nan 0%float) with false. cbn [orb].
    destruct (0 <? m)%float eqn:E1; [split; [by apply ltb_leb | done] |].
    assert (H0 : (0 <=? 0)%float = true /\ (0 <=? 2)%float = true) by (by vm_compute).
    destruct (m <? 0)%float eqn:E2; [done |].
    by change (get_sign 0%float) with false.
  - intros Hv. unfold Math_max, Math_min. rewrite Hv.
    change (is_nan 2%float) with false. cbn [orb].
    change (is_nan nan) with true. by rewrite orb_true_r.
Qed.

End FloatFacts.

(** X20: A turn of the wheel moves the value of the slider by 0.005 per unit
    against the direction of the wheel and clamps it: unless the sum is NaN,
    the new value, which is also the detail of the [input] event, is in the
    range from 0 to 2, wherever the value was before. *)
Theorem handleWheel_stays_in_range (deltaY value : float) :
  is_nan (value + deltaY * (- 0.005))%float = false ->
  (0 <=? handleWheel deltaY value)%float = true /\
  (handleWheel deltaY value <=? 2)%float = true.
Proof. intros Hv. unfold handleWheel. by apply FloatFacts.clamp_range. Qed.

Lemma handleWheel_stays_in_range_witness :
  (0 <=? handleWheel (-300) 1.9)%float = true /\
  (handleWheel (-300) 1.9 <=? 2)%float = true /\
  handleWheel (-300) 1.9 = 2%float.
Proof.
  destruct (handleWheel_stays_in_range (-300) 1.9) as (H1 & H2);
    [vm_compute; reflexivity |].
  split; [exact H1 |]. split; [exact H2 |]. vm_compute. reflexivity.
Defined.

(** X21: The wheel turned over the slider of a component: the weight stored for
    the component is the clamped value, so it stays in the range from 0 to
    2; the word and the colour of the component are kept. *)
Theorem wheel_keeps_weight_in_range
    (decode : string -> option (list Byte.byte))
    (decodeAudioData : list Byte.byte -> Z -> Z -> option AudioBuffer)
    (id : string) (deltaY : float) (nowMs : Z) (s : State)
    (c : MusicComponentData) :
  reachable decode decodeAudioData s ->
  JsMap.get id (musicComponents s) = Some c ->
  is_nan (weight c + deltaY * (- 0.005))%float = false ->
  exists c',
    JsMap.get id (musicComponents (wheelOnComponent id deltaY nowMs s)) = Some c' /\
    (0 <=? weight c')%float = true /\
    (weight c' <=? 2)%float = true /\
    text c' = text c /\ color c' = color c /\ promptId c' = id.
Proof.
  intros Hr Hget Hv.
  pose proof (reachable_wellFormed _ _ _ Hr) as (Hinv & _).
  destruct (inv_ids _ _ _ _ _ Hinv id c (get_elem_of _ _ _ Hget)) as (Hp & _).
  unfold wheelOnComponent. rewrite Hget.
  rewrite (updateWeight_present _ _ _ _ c) by done.
  rewrite (game_musicComponents _ _ (setSessionMusicComponents_game _ _)).
  cbn [musicComponents set_musicComponents].
  eexists. split; [apply get_set_same |]. cbn [weight text color promptId].
  destruct (proj1 (FloatFacts.clamp_range _) Hv) as (H1 & H2).
  unfold handleWheel. done.
Qed.

Lemma wheel_keeps_weight_in_range_witness :
  exists c',
    JsMap.get "component-0"
      (musicComponents (wheelOnComponent "component-0" 500 9000 happyGame)) = Some c' /\
    (0 <=? weight c')%float = true /\
    (weight c' <=? 2)%float = true /\
    text c' = "HAPPY" /\ color c' = color happyComponent /\ promptId c' = "component-0".
Proof.
  apply (wheel_keeps_weight_in_range silence framesBuffer "component-0" 500 9000
           happyGame happyComponent happyGame_reachable);
    vm_compute; reflexivity.
Defined.

(** ** The first connection *)

(** X22: The first update asks for a session and waits.  When the session
    arrives it is stored, the error flag is cleared and the prompts are
    pushed on it, the throttle permitting; when the connect call fails the
    failure is reported, the flag is set, and the push goes to whatever
    session the field already held: to none on a fresh element.  Neither
    outcome touches the playback state or the game. *)
Theorem first_update_connects_then_pushes (o : ConnectOutcome) (nowMs : Z) (s : State) :
  let s' := firstUpdated_resume o nowMs s in
  firstUpdated s = Await AwaitConnect (emit Connect s) /\
  game s' = game s /\
  playbackState s' = playbackState s /\
  match o with
  | Connected x =>
      session s' = Some x /\ connectionError s' = false /\
      log s' = log s ++ pushOfPrompts x nowMs s
  | ConnectFailed =>
      session s' = session s /\ connectionError s' = true /\
      log s' = log s ++ connectFailedEffects
                 ++ match session s with
                    | Some x => pushOfPrompts x nowMs s
                    | None => []
                    end
  end.
Proof.
  cbv zeta. split; [reflexivity |]. split; [apply firstUpdated_resume_game |].
  unfold firstUpdated_resume, connectToSession_resume, pushOfPrompts,
    connectFailedEffects, weightedPrompts, componentsToSend.
  unfold_push. destruct o; split_ifs;
    rewrite ?app_nil_r, ?app_cons_assoc, <- ?app_assoc; done.
Qed.

(** ** The set-up message of the server *)

(** X23: A message with [setupComplete] clears the error flag.  Arriving while
    the player is paused or stopped it does nothing to the audio, and with a
    session at hand the next press of the play button then starts loading at
    once, with no reconnect, even after a connection error. *)
Theorem setup_complete_clears_error_flag
    (decode : string -> option (list Byte.byte))
    (e : LiveMusicServerMessage) (now now' : float) (s : State) (x : nat) :
  setupComplete e = true ->
  isHalted s = true ->
  session s = Some x ->
  let s' := stateOf (onmessage decode e now s) in
  connectionError s' = false /\
  audio s' = (playbackState s, nextStartTime s, Some x, outputNode s, false,
              audioContextState s) /\
  handlePlayPause now' s' = Done (loadAudio now' s').
Proof.
  intros He Hh Hx. cbv zeta. rewrite onmessage_halted_drops by done.
  cbn [stateOf]. fold (afterHeader e s).
  destruct (afterHeader_audio e s) as (Hp & Hs & Ho & Ht & Ha).
  assert (Hc : connectionError (afterHeader e s) = false).
  { unfold afterHeader, onFilteredPrompt. rewrite He. split_ifs; done. }
  revert Hp Hs Ho Ht Ha Hc. generalize (afterHeader e s). intros s1 Hp Hs Ho Ht Ha Hc.
  split; [done |]. split.
  - unfold audio. by rewrite Hp, Hs, Ho, Ht, Ha, Hc, Hx.
  - unfold handlePlayPause, needsConnect, hasSession. rewrite Hp, Hc, Hs, Hx.
    unfold isHalted in Hh. by destruct (playbackState s).
Qed.

Lemma setup_complete_clears_error_flag_witness :
  let e := {| setupComplete := true; filteredPrompt := None; audioChunks := None |} in
  connectionError brokenGame = true /\
  connectionError (stateOf (onmessage silence e 5%float brokenGame)) = false.
Proof.
  split; [vm_compute; reflexivity |].
  apply (setup_complete_clears_error_flag silence
           {| setupComplete := true; filteredPrompt := None; audioChunks := None |}
           5%float 6%float brokenGame 7);
    vm_compute; reflexivity.
Defined.

(** ** How playback starts *)

Lemma audio_playbackState s s' : audio s' = audio s -> playbackState s' = playbackState s.
Proof. unfold audio. by intros [= -> _ _ _ _ _]. Qed.

Lemma connectToSession_resume_playbackState o s :
  playbackState (connectToSession_resume o s) = playbackState s.
Proof. by destruct o. Qed.

Lemma handlePlayPause_not_playing now s :
  playbackState (stateOf (handlePlayPause now s)) = playbackState s \/
  playbackState (stateOf (handlePlayPause now s)) <> playing.
Proof.
  unfold handlePlayPause.
  destruct (pauseAudio_fields now s) as (Hp & _).
  pose proof (loadAudio_playbackState now s) as Hl.
  revert Hp Hl. generalize (pauseAudio now s), (loadAudio now s). intros s1 s2 Hp Hl.
  destruct (playbackState s) eqn:E; cbn [stateOf].
  - destruct (needsConnect s); cbn [stateOf]; [by left | right; congruence].
  - right. congruence.
  - right. step_state. congruence.
  - destruct (needsConnect s); cbn [stateOf]; [by left | right; congruence].
Qed.

Lemma handlePlayPause_resume_not_playing o nowMs now s :
  playbackState (handlePlayPause_resume o nowMs now s) <> playing.
Proof.
  unfold handlePlayPause_resume. generalize (connectToSession_resume o s). intros s1.
  destruct (negb (connectionError s1) && hasSession s1).
  - by rewrite loadAudio_playbackState.
  - done.
Qed.

Lemma handleReset_finish_playbackState s :
  playbackState (handleReset_finish s) = playbackState s.
Proof. unfold handleReset_finish. split_ifs; done. Qed.

Lemma handleReset_body_paused shuffled nowMs now s :
  playbackState (stateOf (handleReset_body shuffled nowMs now s)) = paused.
Proof. apply (handleReset_body_outcome shuffled nowMs now s). Qed.

Section Starting.
Variable decode : string -> option (list Byte.byte).
Variable decodeAudioData : list Byte.byte -> Z -> Z -> option AudioBuffer.

Lemma audioError_not_playing now s :
  playbackState (audioError now s) = playbackState s \/
  playbackState (audioError now s) <> playing.
Proof.
  unfold audioError. cbv zeta.
  set (s1 := toast _ 3000 _).
  assert (H1 : playbackState s1 = playbackState s) by done.
  clearbody s1. destruct (isActive s1); [| by left].
  right. by rewrite (proj1 (pauseAudio_fields now s1)).
Qed.

Lemma onmessage_not_playing e now s :
  playbackState (stateOf (onmessage decode e now s)) = playbackState s \/
  playbackState (stateOf (onmessage decode e now s)) <> playing.
Proof.
  unfold onmessage. fold (afterHeader e s).
  destruct (afterHeader_audio e s) as (Hp & _). rewrite <- Hp.
  generalize (afterHeader e s). intros s1.
  destruct (audioChunks e) as [[| chunk rest] |]; try by left.
  destruct (isHalted s1); [by left |].
  destruct (data chunk) as [d |]; cbn [stateOf]; [| by left].
  destruct (JsString.trim d); cbn [stateOf]; [by left |].
  destruct (decode d) as [[| byte decodedData] |]; cbn [stateOf];
    [by left | by left | apply audioError_not_playing].
Qed.

Lemma onmessage_resume_not_playing decodedData now s :
  playbackState (onmessage_resume decodeAudioData decodedData now s) = playbackState s \/
  playbackState (onmessage_resume decodeAudioData decodedData now s) <> playing.
Proof.
  unfold onmessage_resume.
  destruct (decodeAudioData _ _ _) as [audioBuffer |]; [| apply audioError_not_playing].
  split_ifs; first [by left | by right].
Qed.

Lemma setSessionMusicComponents_rejected_not_playing message now s :
  playbackState (setSessionMusicComponents_rejected message now s) = playbackState s \/
  playbackState (setSessionMusicComponents_rejected message now s) <> playing.
Proof.
  unfold setSessionMusicComponents_rejected. cbv zeta.
  set (s1 := toast _ 4000 s).
  assert (H1 : playbackState s1 = playbackState s) by done.
  clearbody s1. destruct (isActive s1); [| by left].
  right. by rewrite (proj1 (pauseAudio_fields now s1)).
Qed.

Lemma playbackState_toast message ms s :
  playbackState (toast message ms s) = playbackState s.
Proof. reflexivity. Qed.

Lemma connectionLost_paused cause now s :
  playbackState (connectionLost cause now s) = paused.
Proof.
  destruct (connectionLost_shape cause now s) as (s0 & message & -> & _).
  rewrite playbackState_toast. apply pauseAudio_fields.
Qed.

Lemma dispatch_not_playing ev s :
  ev <> PrerollElapsed ->
  playbackState (dispatch decode decodeAudioData ev s) = playbackState s \/
  playbackState (dispatch decode decodeAudioData ev s) <> playing.
Proof.
  intros Hne. destruct ev; cbn [dispatch].
  - by left.
  - left. apply audio_playbackState, handleGuessSubmit_audio.
  - left. unfold skipWord. by rewrite (audio_playbackState _ _ (fetchNextWord_audio _)).
  - left. apply audio_playbackState, updateWeight_audio.
  - left. apply audio_playbackState, handleMusicComponentRemoved_audio.
  - left. apply audio_playbackState, updateSettings_audio.
  - apply handlePlayPause_not_playing.
  - right. apply handlePlayPause_resume_not_playing.
  - unfold handleReset. destruct (needsConnect _); cbn [stateOf]; [by left |].
    right. by rewrite handleReset_body_paused.
  - right. unfold handleReset_resume. by rewrite handleReset_body_paused.
  - left. apply handleReset_finish_playbackState.
  - left. reflexivity.
  - left. unfold firstUpdated_resume.
    rewrite (audio_playbackState _ _ (setSessionMusicComponents_audio _ _)).
    apply connectToSession_resume_playbackState.
  - apply onmessage_not_playing.
  - apply onmessage_resume_not_playing.
  - apply setSessionMusicComponents_rejected_not_playing.
  - right. pose proof (connectionLost_paused (Some message) now s) as E.
    cbn [connectionLost] in E. by rewrite E.
  - destruct wasClean; [by left |]. right.
    pose proof (connectionLost_paused None now s) as E.
    cbn [connectionLost] in E. by rewrite E.
  - done.
  - by left.
Qed.

Lemma prerollTimerFired_playing s :
  playbackState (prerollTimerFired s) = playing ->
  playbackState s = playing \/ playbackState s = loading.
Proof.
  unfold prerollTimerFired. destruct (playbackState s) eqn:E; rewrite ?E; auto.
Qed.

(** X24: The player gets to [playing] in one way only: the pre-roll timer fires
    while it is loading.  No button, no message of the server, no settled
    promise and no other timer makes a player play that did not. *)
Theorem only_the_preroll_timer_starts_playing (ev : Event) (s : State) :
  playbackState (dispatch decode decodeAudioData ev s) = playing ->
  playbackState s <> playing ->
  ev = PrerollElapsed /\ playbackState s = loading.
Proof.
  intros H Hn.
  assert (Hev : ev = PrerollElapsed \/ ev <> PrerollElapsed)
    by (destruct ev; first [by left | by right]).
  destruct Hev as [-> | Hne].
  - split; [done |]. by destruct (prerollTimerFired_playing s H).
  - destruct (dispatch_not_playing ev s Hne); congruence.
Qed.

End Starting.

Lemma only_the_preroll_timer_starts_playing_witness :
  let s := play [AudioContextChanged running;
                 ServerMessage (audioMessage "UklGRg==") 2.1%float;
                 DecodeSettled silentBytes 2.1%float] loadingGame in
  playbackState (play [PrerollElapsed] s) = playing /\ playbackState s = loading.
Proof.
  split; [vm_compute; reflexivity |].
  apply (only_the_preroll_timer_starts_playing silence framesBuffer PrerollElapsed);
    vm_compute; first [reflexivity | discriminate].
Defined.

(** ** The Auto check boxes of the settings *)

Lemma handleInputChange_settingsInv target x :
  settingsInv x -> settingsInv (SettingsController.handleInputChange target x).
Proof.
  unfold settingsInv. intros (Hd & Hb).
  destruct target as [[v |] | [v |] | [] | []]; cbn; auto.
Qed.

Lemma run_settingsInv targets x :
  settingsInv x -> settingsInv (SettingsController.run targets x).
Proof.
  revert x. induction targets as [| target targets IH]; intros x Hx; [done |].
  cbn. apply IH. by apply handleInputChange_settingsInv.
Qed.

(** X25: The density of the settings form, after any series of changes of the
    density and brightness controls.  The density that is sent is only ever
    absent, the value remembered from the slider, or 0.5 while nothing is
    remembered.  Moving the slider sends its value and remembers it, and
    leaves the Auto box as it is; checking Auto takes the density out of the
    configuration; un-checking it brings the remembered value back, so that
    the configuration is the one from before Auto was checked.  After a
    reset the configuration is the default one and un-checking Auto sends
    0.5.  The brightness is not touched by any of this, and the same holds
    with density and brightness exchanged. *)
Theorem auto_restores_the_last_value (targets : list SettingsController.Target)
    (v : float) :
  let change := SettingsController.handleInputChange in
  let x := SettingsController.run targets SettingsController.initial in
  let x1 := change (SettingsController.DensityRange (Some v)) x in
  let x2 := change (SettingsController.AutoDensityCheckbox true) x1 in
  let x3 := change (SettingsController.AutoDensityCheckbox false) x2 in
  let y1 := change (SettingsController.BrightnessRange (Some v)) x in
  let y2 := change (SettingsController.AutoBrightnessCheckbox true) y1 in
  let y3 := change (SettingsController.AutoBrightnessCheckbox false) y2 in
  let fresh := SettingsController.resetToDefaults x in
  settingsInv x /\
  (density (SettingsController.config x1) = Some v /\
   SettingsController.autoDensity x1 = SettingsController.autoDensity x /\
   density (SettingsController.config x2) = None /\
   SettingsController.config x3 = SettingsController.config x1 /\
   brightness (SettingsController.config x3) = brightness (SettingsController.config x)) /\
  (brightness (SettingsController.config y1) = Some v /\
   SettingsController.autoBrightness y1 = SettingsController.autoBrightness x /\
   brightness (SettingsController.config y2) = None /\
   SettingsController.config y3 = SettingsController.config y1 /\
   density (SettingsController.config y3) = density (SettingsController.config x)) /\
  fresh = SettingsController.initial /\
  density (SettingsController.config
             (change (SettingsController.AutoDensityCheckbox false) fresh))
  = Some 0.5%float /\
  brightness (SettingsController.config
                (change (SettingsController.AutoBrightnessCheckbox false) fresh))
  = Some 0.5%float.
Proof.
  cbv zeta. split.
  - apply run_settingsInv. split; by left.
  - generalize (SettingsController.run targets SettingsController.initial).
    intros [[] ad ld ab lb]. cbn. repeat split; reflexivity.
Qed.
